(** * waterline-criteria: an in-memory query engine over tuples

    A shallow embedding of the filter (WHERE), sort, limit/skip and
    projection (SELECT) stages, and the properties of the criteria
    language they implement.

    The file is organised as follows.
    - [Host]: the fragment of the host language (ECMAScript values and
      built-ins, and the lodash helpers) that the stages rely on.
    - [Where], [Limit], [Skip], [Sort], [Select]: the stages, function by
      function, under the names they have in the sources.
    - [Coerce], [Validate]: the type guess that accompanies the sort
      stage, and the validators of the WHERE and SORT clauses.
    - [Notions]: the predicates the properties are stated with.
    - [Samples]: instances of the date pattern and of the equivalency
      filter helper, and the data of the examples.
    - The properties: the examples of the specification, the host
      fragment, then the stages one by one; then further properties of
      the pagination, sort, filter and projection stages, of the
      comparator, the pattern matcher and the validators, and the
      attribute-scoped mode of the evaluator.

    Modelling conventions of the host fragment:
    - numbers are the integer-valued doubles together with [NaN] and the
      two infinities, printed in positional notation; numeric literals
      with a fraction, an exponent or a radix prefix are outside this
      domain;
    - strings are sequences of 8-bit characters, case mapping is ASCII;
    - objects are association lists in property enumeration order
      (integer-like names, which the host enumerates first, are not moved),
      looked up by own property only: the members a value inherits from
      its prototype (constructor, toString, ...) are not attribute names,
      and they are not redefined by the data;
    - values carry no identity: a deep copy is the value, and the one
      place where a stage writes to an object it was given (the
      projection spec) is modelled by returning the object's contents;
    - lodash visits a dictionary with an array length as an array;
    - [Array.prototype.sort] is a stable insertion sort;
    - regular expressions are read in a fragment that holds every
      expression the pattern matcher builds;
    - the host time zone is UTC and [Date.parse] accepts exactly the
      ECMAScript date-time string format (no implementation fallbacks);
    - exceptions are the [Err] results of an error monad. *)

From Stdlib Require Import ZArith List String Ascii Bool Lia Permutation.
From Stdlib Require Import DecimalString Sorted.
Import ListNotations.

Local Open Scope string_scope.
Local Open Scope Z_scope.

(* ===================================================================== *)
(** * The host fragment                                                   *)
(* ===================================================================== *)

Module Host.

(** ** Exceptions *)

Inductive error : Type :=
| TypeError              (* property read on null/undefined, missing method *)
| RangeError             (* toISOString on an invalid date *)
| SyntaxError            (* a RegExp source outside the modelled fragment *)
| InvalidQuerySyntax     (* throw new Error('Invalid query syntax!') *)
| UnexpectedMatchString  (* throw new Error(`Unexpected match string: ...`) *)
| OutOfFuel.             (* not an exception: the bound of a fuelled
                            recursion was reached *)

Inductive result (A : Type) : Type :=
| Ok (a : A)
| Err (e : error).

Arguments Ok {A} a.
Arguments Err {A} e.

Definition bind {A B : Type} (m : result A) (k : A -> result B) : result B :=
  match m with
  | Ok a => k a
  | Err e => Err e
  end.

Declare Scope result_scope.
Delimit Scope result_scope with result.
Notation "x <- m ;; k" := (bind m (fun x => k))
  (at level 61, m at next level, right associativity) : result_scope.
Notation "' pat <- m ;; k" := (bind m (fun x => match x with pat => k end))
  (at level 61, pat pattern, m at next level, right associativity) : result_scope.

Definition is_ok {A : Type} (m : result A) : bool :=
  match m with Ok _ => true | Err _ => false end.

(** A boolean computation that returns [true]. *)
Definition holds (m : result bool) : bool :=
  match m with Ok true => true | _ => false end.

(** ** Numbers *)

Inductive number : Type :=
| NaN
| Inf (negative : bool)
| Fin (z : Z).

Definition number_eqb (a b : number) : bool :=
  match a, b with
  | Fin x, Fin y => x =? y
  | Inf s, Inf t => Bool.eqb s t
  | _, _ => false
  end.

(** [a < b] on numbers; any comparison with [NaN] is false. *)
Definition number_ltb (a b : number) : bool :=
  match a, b with
  | NaN, _ | _, NaN => false
  | Inf s, Inf t => s && negb t
  | Inf s, Fin _ => s
  | Fin _, Inf t => negb t
  | Fin x, Fin y => x <? y
  end.

Definition number_leb (a b : number) : bool :=
  match a, b with
  | NaN, _ | _, NaN => false
  | _, _ => negb (number_ltb b a)
  end.

(** Unary minus. *)
Definition number_neg (a : number) : number :=
  match a with
  | NaN => NaN
  | Inf s => Inf (negb s)
  | Fin z => Fin (- z)
  end.

(** [Math.pow(x, 2)]. *)
Definition number_square (a : number) : number :=
  match a with
  | NaN => NaN
  | Inf _ => Inf false
  | Fin z => Fin (z * z)
  end.

Definition number_is_finite (a : number) : bool :=
  match a with Fin _ => true | _ => false end.

(** ** Strings *)

Definition ascii_code (c : ascii) : Z := Z.of_N (N_of_ascii c).

Definition lower_char (c : ascii) : ascii :=
  let n := N_of_ascii c in
  if ((65 <=? n) && (n <=? 90))%N then ascii_of_N (n + 32) else c.

Fixpoint toLowerCase (s : string) : string :=
  match s with
  | EmptyString => EmptyString
  | String c s' => String (lower_char c) (toLowerCase s')
  end.

(** Code-unit order on strings, as used by [<] on two strings. *)
Fixpoint string_ltb (s t : string) : bool :=
  match s, t with
  | _, EmptyString => false
  | EmptyString, String _ _ => true
  | String a s', String b t' =>
      if ascii_code a <? ascii_code b then true
      else if ascii_code b <? ascii_code a then false
      else string_ltb s' t'
  end.

Fixpoint string_rev_onto (s acc : string) : string :=
  match s with
  | EmptyString => acc
  | String c s' => string_rev_onto s' (String c acc)
  end.

Definition string_rev (s : string) : string := string_rev_onto s EmptyString.

Definition is_white_space (c : ascii) : bool :=
  let n := ascii_code c in
  (n =? 9) || (n =? 10) || (n =? 11) || (n =? 12) || (n =? 13) || (n =? 32)
  || (n =? 160).

Fixpoint trim_start (s : string) : string :=
  match s with
  | String c s' => if is_white_space c then trim_start s' else s
  | EmptyString => EmptyString
  end.

Definition trim (s : string) : string :=
  string_rev (trim_start (string_rev (trim_start s))).

Definition is_digit (c : ascii) : bool :=
  (48 <=? ascii_code c) && (ascii_code c <=? 57).

Definition digit_value (c : ascii) : Z := ascii_code c - 48.

Fixpoint digits_value (s : string) (acc : Z) : option Z :=
  match s with
  | EmptyString => Some acc
  | String c s' =>
      if is_digit c then digits_value s' (10 * acc + digit_value c) else None
  end.

(** An unsigned decimal integer literal: one digit or more. *)
Definition decimal_literal (s : string) : option Z :=
  match s with
  | EmptyString => None
  | String _ _ => digits_value s 0
  end.

Definition unsigned_literal (s : string) : number :=
  if String.eqb s "Infinity" then Inf false
  else match decimal_literal s with
       | Some z => Fin z
       | None => NaN
       end.

(** [Number(s)] on a string: the text is trimmed, the empty text is 0, and
    the integer fragment of the numeric literal grammar is read. *)
Definition StringToNumber (s : string) : number :=
  match trim s with
  | EmptyString => Fin 0
  | String "+" s' => unsigned_literal s'
  | String "-" s' => number_neg (unsigned_literal s')
  | s' => unsigned_literal s'
  end.

Definition Z_to_string (z : Z) : string :=
  NilZero.string_of_int (Z.to_int z).

(** [String(n)] on a number. *)
Definition NumberToString (n : number) : string :=
  match n with
  | NaN => "NaN"
  | Inf false => "Infinity"
  | Inf true => "-Infinity"
  | Fin z => Z_to_string z
  end.

(** ** Dates

    A date holds a time value: milliseconds since the epoch, or [NaN] for
    an invalid date. *)

Definition msPerDay : Z := 86400000.

(** Days since the epoch to (year, month, day) in the proleptic Gregorian
    calendar, months counted from 1. *)
Definition civil_from_days (days : Z) : Z * Z * Z :=
  let z := days + 719468 in
  let era := z / 146097 in
  let doe := z - era * 146097 in
  let yoe := (doe - doe / 1460 + doe / 36524 - doe / 146096) / 365 in
  let doy := doe - (365 * yoe + yoe / 4 - yoe / 100) in
  let mp := (5 * doy + 2) / 153 in
  let d := doy - (153 * mp + 2) / 5 + 1 in
  let m := if mp <? 10 then mp + 3 else mp - 9 in
  let y := yoe + era * 400 in
  (if m <=? 2 then y + 1 else y, m, d).

Definition days_from_civil (y m d : Z) : Z :=
  let y' := if m <=? 2 then y - 1 else y in
  let era := y' / 400 in
  let yoe := y' - era * 400 in
  let mp := if 2 <? m then m - 3 else m + 9 in
  let doy := (153 * mp + 2) / 5 + d - 1 in
  let doe := yoe * 365 + yoe / 4 - yoe / 100 + doy in
  era * 146097 + doe - 719468.

Fixpoint zeros (n : nat) : string :=
  match n with
  | O => EmptyString
  | S n' => String "0" (zeros n')
  end.

(** Decimal text of a non-negative integer, zero-padded to [width]. *)
Definition pad (width : nat) (z : Z) : string :=
  let s := Z_to_string z in
  String.append (zeros (width - String.length s)) s.

Definition year_text (y : Z) : string :=
  if (0 <=? y) && (y <=? 9999) then pad 4 y
  else String.append (if y <? 0 then "-" else "+") (pad 6 (Z.abs y)).

(** [Date.prototype.toISOString]: YYYY-MM-DDTHH:mm:ss.sssZ, a RangeError
    on an invalid date. *)
Definition toISOString (t : number) : result string :=
  match t with
  | Fin ms =>
      let '(y, m, d) := civil_from_days (ms / msPerDay) in
      let r := ms mod msPerDay in
      Ok (String.concat ""
            [year_text y; "-"; pad 2 m; "-"; pad 2 d; "T";
             pad 2 (r / 3600000); ":"; pad 2 (r / 60000 mod 60); ":";
             pad 2 (r / 1000 mod 60); "."; pad 3 (r mod 1000); "Z"])
  | _ => Err RangeError
  end.

Definition week_day_name (days : Z) : string :=
  nth (Z.to_nat ((days + 4) mod 7))
      ["Sun"; "Mon"; "Tue"; "Wed"; "Thu"; "Fri"; "Sat"] "".

Definition month_name (m : Z) : string :=
  nth (Z.to_nat (m - 1))
      ["Jan"; "Feb"; "Mar"; "Apr"; "May"; "Jun";
       "Jul"; "Aug"; "Sep"; "Oct"; "Nov"; "Dec"] "".

(** [Date.prototype.toString] in the UTC zone. *)
Definition DateToString (t : number) : string :=
  match t with
  | Fin ms =>
      let days := ms / msPerDay in
      let '(y, m, d) := civil_from_days days in
      let r := ms mod msPerDay in
      String.concat ""
        [week_day_name days; " "; month_name m; " "; pad 2 d; " ";
         (if y <? 0 then "-" else ""); pad 4 (Z.abs y); " ";
         pad 2 (r / 3600000); ":"; pad 2 (r / 60000 mod 60); ":";
         pad 2 (r / 1000 mod 60);
         " GMT+0000 (Coordinated Universal Time)"]
  | _ => "Invalid Date"
  end.

(** [TimeClip]. *)
Definition TimeClip (n : number) : number :=
  match n with
  | Fin ms => if Z.abs ms <=? 8640000000000000 then Fin ms else NaN
  | _ => NaN
  end.

(** Reading the date-time string format. *)

Fixpoint take (n : nat) (s : string) : option (string * string) :=
  match n, s with
  | O, _ => Some (EmptyString, s)
  | S _, EmptyString => None
  | S n', String c s' =>
      match take n' s' with
      | Some (h, r) => Some (String c h, r)
      | None => None
      end
  end.

(** Exactly [n] digits at the head of [s]. *)
Definition fixed_digits (n : nat) (s : string) : option (Z * string) :=
  match take n s with
  | Some (h, r) =>
      match digits_value h 0 with
      | Some z => Some (z, r)
      | None => None
      end
  | None => None
  end.

Definition in_range (lo hi z : Z) : bool := (lo <=? z) && (z <=? hi).

(** The year, with the expanded form of six digits and a sign. *)
Definition read_year (s : string) : option (Z * string) :=
  match s with
  | String "+" s' => fixed_digits 6 s'
  | String "-" s' =>
      match fixed_digits 6 s' with
      | Some (y, r) => if y =? 0 then None else Some (- y, r)
      | None => None
      end
  | _ => fixed_digits 4 s
  end.

(** [-MM] and [-DD], each optional; the result is the day number and the
    remaining text. *)
Definition read_date (s : string) : option (Z * string) :=
  match read_year s with
  | Some (y, String "-" r1) =>
      match fixed_digits 2 r1 with
      | Some (m, String "-" r2) =>
          match fixed_digits 2 r2 with
          | Some (d, r3) =>
              if in_range 1 12 m && in_range 1 31 d
              then Some (days_from_civil y m 1 + d - 1, r3) else None
          | None => None
          end
      | Some (m, r2) =>
          if in_range 1 12 m then Some (days_from_civil y m 1, r2) else None
      | None => None
      end
  | Some (y, r1) => Some (days_from_civil y 1 1, r1)
  | None => None
  end.

(** [Z] or [+HH:mm] / [-HH:mm]; the result is the offset in milliseconds. *)
Definition read_offset (s : string) : option Z :=
  match s with
  | EmptyString => Some 0
  | String "Z" EmptyString => Some 0
  | String sign r =>
      if (Ascii.eqb sign "+" || Ascii.eqb sign "-")%bool then
        match fixed_digits 2 r with
        | Some (h, String ":" r1) =>
            match fixed_digits 2 r1 with
            | Some (m, EmptyString) =>
                if in_range 0 23 h && in_range 0 59 m then
                  let off := h * 3600000 + m * 60000 in
                  Some (if Ascii.eqb sign "-" then - off else off)
                else None
            | _ => None
            end
        | _ => None
        end
      else None
  end.

(** [:ss] and [.sss], each optional, then the offset. *)
Definition read_seconds (s : string) : option (Z * string) :=
  match s with
  | String ":" r =>
      match fixed_digits 2 r with
      | Some (sec, String "." r1) =>
          match fixed_digits 3 r1 with
          | Some (ms, r2) =>
              if in_range 0 59 sec then Some (sec * 1000 + ms, r2) else None
          | None => None
          end
      | Some (sec, r1) =>
          if in_range 0 59 sec then Some (sec * 1000, r1) else None
      | None => None
      end
  | _ => Some (0, s)
  end.

(** [THH:mm[:ss[.sss]]] and the offset: milliseconds to add to the day. *)
Definition read_time (s : string) : option Z :=
  match s with
  | EmptyString => Some 0
  | String "T" r =>
      match fixed_digits 2 r with
      | Some (h, String ":" r1) =>
          match fixed_digits 2 r1 with
          | Some (m, r2) =>
              match read_seconds r2 with
              | Some (sms, r3) =>
                  match read_offset r3 with
                  | Some off =>
                      if (in_range 0 23 h && in_range 0 59 m)
                         || ((h =? 24) && (m =? 0) && (sms =? 0))
                      then Some (h * 3600000 + m * 60000 + sms - off)
                      else None
                  | None => None
                  end
              | None => None
              end
          | None => None
          end
      | _ => None
      end
  | _ => None
  end.

(** [Date.parse]. *)
Definition Date_parse (s : string) : number :=
  match read_date s with
  | Some (days, r) =>
      match read_time r with
      | Some ms => TimeClip (Fin (days * msPerDay + ms))
      | None => NaN
      end
  | None => NaN
  end.

(** ** Values *)

#[warnings="-register-all"] Inductive value : Type :=
| VUndefined
| VNull
| VBool (b : bool)
| VNum (n : number)
| VStr (s : string)
| VDate (t : number)
| VRegExp (source flags : string)
| VArr (elems : list value)
| VObj (props : list (string * value)).

(** The key a lodash iteratee receives: a property name of an object, or
    the numeric index of an array-like collection. *)
Inductive key : Type :=
| KStr (s : string)
| KIdx (i : nat).

Definition typeof (v : value) : string :=
  match v with
  | VUndefined => "undefined"
  | VBool _ => "boolean"
  | VNum _ => "number"
  | VStr _ => "string"
  | VNull | VDate _ | VRegExp _ _ | VArr _ | VObj _ => "object"
  end.

Definition ToBoolean (v : value) : bool :=
  match v with
  | VUndefined | VNull => false
  | VBool b => b
  | VNum NaN => false
  | VNum (Fin z) => negb (z =? 0)
  | VNum (Inf _) => true
  | VStr s => negb (String.eqb s "")
  | VDate _ | VRegExp _ _ | VArr _ | VObj _ => true
  end.

Definition isUndefined (v : value) : bool :=
  match v with VUndefined => true | _ => false end.
Definition isNull (v : value) : bool :=
  match v with VNull => true | _ => false end.
Definition isNumber (v : value) : bool :=
  match v with VNum _ => true | _ => false end.
Definition isDate (v : value) : bool :=
  match v with VDate _ => true | _ => false end.
Definition Array_isArray (v : value) : bool :=
  match v with VArr _ => true | _ => false end.
(** lodash [isObject]: any non-null value of type object. *)
Definition isObject (v : value) : bool :=
  match v with
  | VDate _ | VRegExp _ _ | VArr _ | VObj _ => true
  | _ => false
  end.

(** [cloneDeep]: values carry no identity, a deep copy is the value. *)
Definition cloneDeep (v : value) : value := v.

(** [String(v)], and [v.toString()] where [v] is neither null nor
    undefined. An array joins its elements with commas, null and undefined
    elements giving the empty text. *)
Fixpoint ToString (v : value) : string :=
  match v with
  | VUndefined => "undefined"
  | VNull => "null"
  | VBool true => "true"
  | VBool false => "false"
  | VNum n => NumberToString n
  | VStr s => s
  | VDate t => DateToString t
  | VRegExp source flags =>
      String.append "/" (String.append source (String.append "/" flags))
  | VArr elems =>
      let element (e : value) : string :=
        match e with
        | VUndefined | VNull => ""
        | _ => ToString e
        end in
      match elems with
      | [] => ""
      | e :: rest =>
          String.append (element e)
            ((fix join (l : list value) : string :=
                match l with
                | [] => ""
                | x :: l' => String.append "," (String.append (element x) (join l'))
                end) rest)
      end
  | VObj _ => "[object Object]"
  end.

(** [ToPrimitive] with the number hint (relational operators, [Number]). *)
Definition ToPrimitive_number (v : value) : value :=
  match v with
  | VDate t => VNum t
  | VRegExp _ _ | VArr _ | VObj _ => VStr (ToString v)
  | _ => v
  end.

(** [ToPrimitive] with the default hint (the [Date] constructor). *)
Definition ToPrimitive_default (v : value) : value :=
  match v with
  | VDate _ | VRegExp _ _ | VArr _ | VObj _ => VStr (ToString v)
  | _ => v
  end.

(** [Number(v)]. *)
Definition ToNumber (v : value) : number :=
  match ToPrimitive_number v with
  | VUndefined => NaN
  | VNull => Fin 0
  | VBool true => Fin 1
  | VBool false => Fin 0
  | VNum n => n
  | VStr s => StringToNumber s
  | _ => NaN
  end.

(** [a == b] on primitive values; two objects are never the same object. *)
Definition loose_eq (a b : value) : bool :=
  match a, b with
  | (VUndefined | VNull), (VUndefined | VNull) => true
  | (VUndefined | VNull), _ | _, (VUndefined | VNull) => false
  | VStr s, VStr t => String.eqb s t
  | VStr _, (VNum _ | VBool _)
  | (VNum _ | VBool _), (VNum _ | VStr _ | VBool _) =>
      number_eqb (ToNumber a) (ToNumber b)
  | _, _ => false
  end.

(** [a < b]. *)
Definition js_lt (a b : value) : bool :=
  match ToPrimitive_number a, ToPrimitive_number b with
  | VStr s, VStr t => string_ltb s t
  | pa, pb => number_ltb (ToNumber pa) (ToNumber pb)
  end.

(** [a <= b], which is [!(b < a)] unless the comparison is undefined. *)
Definition js_le (a b : value) : bool :=
  match ToPrimitive_number a, ToPrimitive_number b with
  | VStr s, VStr t => negb (string_ltb t s)
  | pa, pb => number_leb (ToNumber pa) (ToNumber pb)
  end.

Definition js_gt (a b : value) : bool := js_lt b a.
Definition js_ge (a b : value) : bool := js_le b a.

(** [v === s] for a string literal [s]. *)
Definition strict_eq_text (v : value) (s : string) : bool :=
  match v with
  | VStr t => String.eqb t s
  | _ => false
  end.

(** [a || b]. *)
Definition js_or (a b : value) : value := if ToBoolean a then a else b.

(** [new Date(v)]. *)
Definition new_Date (v : value) : value :=
  match v with
  | VDate t => VDate t
  | _ =>
      match ToPrimitive_default v with
      | VStr s => VDate (Date_parse s)
      | p => VDate (TimeClip (ToNumber p))
      end
  end.

(** [d.getTime()]. *)
Definition getTime (d : value) : result number :=
  match d with
  | VDate t => Ok t
  | _ => Err TypeError
  end.

(** ** Property access *)

Fixpoint assoc (k : string) (props : list (string * value)) : option value :=
  match props with
  | [] => None
  | (k', v) :: rest => if String.eqb k k' then Some v else assoc k rest
  end.

Definition nat_to_string (n : nat) : string := Z_to_string (Z.of_nat n).

(** The array index a property name denotes, if it is a canonical one. *)
Definition index_of_name (k : string) : option nat :=
  match decimal_literal k with
  | Some z => if String.eqb (Z_to_string z) k then Some (Z.to_nat z) else None
  | None => None
  end.

(** The one-character texts of a string, in order. *)
Fixpoint letters (s : string) : list string :=
  match s with
  | EmptyString => []
  | String c s' => String c EmptyString :: letters s'
  end.

Definition chars (s : string) : list value := map VStr (letters s).

Definition indexed (elems : list value) (k : string) : value :=
  if String.eqb k "length" then VNum (Fin (Z.of_nat (List.length elems)))
  else match index_of_name k with
       | Some i => nth i elems VUndefined
       | None => VUndefined
       end.

(** [o[k]]: a TypeError on null and undefined, [undefined] for a missing
    property. *)
Definition get (o : value) (k : string) : result value :=
  match o with
  | VUndefined | VNull => Err TypeError
  | VObj props =>
      Ok (match assoc k props with Some v => v | None => VUndefined end)
  | VArr elems => Ok (indexed elems k)
  | VStr s => Ok (indexed (chars s) k)
  | _ => Ok VUndefined
  end.

Definition key_name (k : key) : string :=
  match k with
  | KStr s => s
  | KIdx i => nat_to_string i
  end.

(** [o.hasOwnProperty(k)]. *)
Definition hasOwnProperty (o : value) (k : string) : result bool :=
  match o with
  | VUndefined | VNull => Err TypeError
  | VObj props =>
      Ok (match assoc k props with Some _ => true | None => false end)
  | VArr elems =>
      Ok (String.eqb k "length"
          || match index_of_name k with
             | Some i => (i <? List.length elems)%nat
             | None => false
             end)
  | VStr s =>
      Ok (String.eqb k "length"
          || match index_of_name k with
             | Some i => (i <? String.length s)%nat
             | None => false
             end)
  | _ => Ok false
  end.

Fixpoint number_from (i : nat) (elems : list value) : list (nat * value) :=
  match elems with
  | [] => []
  | e :: rest => (i, e) :: number_from (S i) rest
  end.

(** The own enumerable properties of a value, in order. *)
Definition own_entries (o : value) : list (string * value) :=
  match o with
  | VObj props => props
  | VArr elems =>
      map (fun '(i, v) => (nat_to_string i, v)) (number_from 0 elems)
  | VStr s =>
      map (fun '(i, v) => (nat_to_string i, v)) (number_from 0 (chars s))
  | _ => []
  end.

(** [Object.keys(o)]. *)
Definition Object_keys (o : value) : list string :=
  map fst (own_entries o).

Definition MAX_SAFE_INTEGER : Z := 9007199254740991.

(** lodash [isArrayLike]: the length of a value whose [length] property
    is an array length. A dictionary with such a property is array-like. *)
Definition array_like_length (c : value) : option nat :=
  match c with
  | VArr elems => Some (List.length elems)
  | VStr s => Some (String.length s)
  | VObj props =>
      match assoc "length" props with
      | Some (VNum (Fin n)) =>
          if (0 <=? n) && (n <=? MAX_SAFE_INTEGER) then Some (Z.to_nat n)
          else None
      | _ => None
      end
  | _ => None
  end.

(** [c[i]] on a value that is an object. *)
Definition item (c : value) (i : nat) : value :=
  match get c (nat_to_string i) with
  | Ok v => v
  | Err _ => VUndefined
  end.

(** The (key, value) pairs a lodash collection function visits, in order:
    the elements of an array-like value with their indices, the own
    properties of any other object; other values have none. *)
Definition entries (c : value) : list (key * value) :=
  match c with
  | VArr elems => map (fun '(i, v) => (KIdx i, v)) (number_from 0 elems)
  | VStr s => map (fun '(i, v) => (KIdx i, v)) (number_from 0 (chars s))
  | VObj props =>
      match array_like_length c with
      | Some n => map (fun i => (KIdx i, item c i)) (seq 0 n)
      | None => map (fun '(k, v) => (KStr k, v)) props
      end
  | _ => []
  end.

(** ** Regular expressions

    The fragment read here: literal characters, escaped punctuation, the
    dot, the star on a single atom, [^] at the start and [$] at the end;
    the flags [i] and [g]. *)

Inductive atom : Type :=
| AChar (c : ascii)
| ADot.

Inductive piece : Type :=
| POne (a : atom)
| PStar (a : atom).

Record regex : Type := mkRegex {
  anchored_start : bool;
  pieces : list piece;
  anchored_end : bool
}.

Definition is_alnum (c : ascii) : bool :=
  let n := ascii_code c in
  in_range 48 57 n || in_range 65 90 n || in_range 97 122 n || (n =? 95).

Definition is_syntax_char (c : ascii) : bool :=
  existsb (Ascii.eqb c)
    ["^"; "$"; "\"; "."; "*"; "+"; "?"; "("; ")"; "["; "]"; "{"; "}"; "|"]%char.

(** The pieces of a pattern body and whether it ends with [$]. *)
Fixpoint read_pieces (s : string) : option (list piece * bool) :=
  let quantified (a : atom) (r : string) : option (list piece * bool) :=
    match r with
    | String q r' =>
        if Ascii.eqb q "*" then
          match read_pieces r' with
          | Some (ps, e) => Some (PStar a :: ps, e)
          | None => None
          end
        else
          match read_pieces r with
          | Some (ps, e) => Some (POne a :: ps, e)
          | None => None
          end
    | EmptyString => Some ([POne a], false)
    end in
  match s with
  | EmptyString => Some ([], false)
  | String c r =>
      if Ascii.eqb c "$" then
        match r with
        | EmptyString => Some ([], true)
        | String _ _ => None
        end
      else if Ascii.eqb c "\" then
        match r with
        | String e r' => if is_alnum e then None else quantified (AChar e) r'
        | EmptyString => None
        end
      else if Ascii.eqb c "." then quantified ADot r
      else if is_syntax_char c then None
      else quantified (AChar c) r
  end.

Definition read_regex (source : string) : option regex :=
  match source with
  | String "^" body =>
      match read_pieces body with
      | Some (ps, e) => Some (mkRegex true ps e)
      | None => None
      end
  | _ =>
      match read_pieces source with
      | Some (ps, e) => Some (mkRegex false ps e)
      | None => None
      end
  end.

(** The flags: [Some ignoreCase], or [None] outside the fragment. *)
Fixpoint read_flags (flags : string) : option bool :=
  match flags with
  | EmptyString => Some false
  | String "i" r => match read_flags r with Some _ => Some true | None => None end
  | String "g" r => read_flags r
  | _ => None
  end.

Definition is_line_terminator (c : ascii) : bool :=
  (ascii_code c =? 10) || (ascii_code c =? 13).

Definition atom_matches (ignoreCase : bool) (a : atom) (c : ascii) : bool :=
  match a with
  | AChar x =>
      if ignoreCase then Ascii.eqb (lower_char x) (lower_char c)
      else Ascii.eqb x c
  | ADot => negb (is_line_terminator c)
  end.

(** Whether [ps] matches a prefix of [s] (all of [s] under [to_end]). *)
Fixpoint match_pieces (ignoreCase to_end : bool) (ps : list piece) (s : string)
  {struct ps} : bool :=
  match ps with
  | [] => if to_end then String.eqb s "" else true
  | POne a :: ps' =>
      match s with
      | String c s' =>
          atom_matches ignoreCase a c && match_pieces ignoreCase to_end ps' s'
      | EmptyString => false
      end
  | PStar a :: ps' =>
      (fix star (s : string) : bool :=
         match_pieces ignoreCase to_end ps' s
         || match s with
            | String c s' => atom_matches ignoreCase a c && star s'
            | EmptyString => false
            end) s
  end.

Fixpoint search_pieces (ignoreCase to_end : bool) (ps : list piece) (s : string)
  : bool :=
  match_pieces ignoreCase to_end ps s
  || match s with
     | String _ s' => search_pieces ignoreCase to_end ps s'
     | EmptyString => false
     end.

Definition regex_test (ignoreCase : bool) (r : regex) (s : string) : bool :=
  if anchored_start r
  then match_pieces ignoreCase (anchored_end r) (pieces r) s
  else search_pieces ignoreCase (anchored_end r) (pieces r) s.

(** Whether [s.match(re)] is not null, for a RegExp value [re]. *)
Definition String_match (s : string) (re : value) : result bool :=
  match re with
  | VRegExp source flags =>
      match read_regex source, read_flags flags with
      | Some r, Some ignoreCase => Ok (regex_test ignoreCase r s)
      | _, _ => Err SyntaxError
      end
  | _ => Err TypeError
  end.

(** ** lodash collection helpers *)

Section Collections.
Context {A S : Type}.

(** [each]: the iteratee runs on every element, in order. *)
Fixpoint each (f : S -> A -> result S) (l : list A) (s : S) : result S :=
  match l with
  | [] => Ok s
  | x :: l' => bind (f s x) (each f l')
  end.

(** [every]: stops at the first element the predicate rejects. *)
Fixpoint every (f : A -> result bool) (l : list A) : result bool :=
  match l with
  | [] => Ok true
  | x :: l' => bind (f x) (fun b => if b then every f l' else Ok false)
  end.

(** [some]: stops at the first element the predicate accepts. *)
Fixpoint some (f : A -> result bool) (l : list A) : result bool :=
  match l with
  | [] => Ok false
  | x :: l' => bind (f x) (fun b => if b then Ok true else some f l')
  end.

(** [filter], with a predicate that may throw. *)
Fixpoint filter (f : A -> result bool) (l : list A) : result (list A) :=
  match l with
  | [] => Ok []
  | x :: l' =>
      bind (f x) (fun b =>
      bind (filter f l') (fun r => Ok (if b then x :: r else r)))
  end.
End Collections.

Section Lookup.
Context {R : Type}.
Variable f : value -> R.
Variable missing : R.
Variable name : string.

(** [f] on the property called [name], [missing] when there is none. *)
Fixpoint at_name (props : list (string * value)) : R :=
  match props with
  | [] => missing
  | (k, v) :: rest => if String.eqb name k then f v else at_name rest
  end.
End Lookup.

(** The values a lodash collection function visits. *)
Definition collection_values (c : value) : list value :=
  map snd (entries c).

(** The elements [slice] copies: those of an array-like value. A
    dictionary whose [length] is not an array length is taken as empty. *)
Definition elements (c : value) : list value :=
  match array_like_length c with
  | Some _ => collection_values c
  | None => []
  end.

Definition MAX_INTEGER : Z := 2 ^ 1024 - 2 ^ 971.

(** lodash [toInteger]. *)
Definition toInteger (v : value) : Z :=
  if negb (ToBoolean v) then 0
  else match ToNumber v with
       | NaN => 0
       | Inf false => MAX_INTEGER
       | Inf true => - MAX_INTEGER
       | Fin z => z
       end.

(** lodash [baseSlice]. *)
Definition baseSlice (array : list value) (start end_ : Z) : list value :=
  let length := Z.of_nat (List.length array) in
  let start :=
    if start <? 0 then (if length <? - start then 0 else length + start)
    else start in
  let end_ := if length <? end_ then length else end_ in
  let end_ := if end_ <? 0 then end_ + length else end_ in
  let length := if end_ <? start then 0 else end_ - start in
  firstn (Z.to_nat length) (skipn (Z.to_nat start) array).

(** lodash [slice(array, start, end)]; [None] stands for an argument that
    is not passed. *)
Definition slice (array : value) (start end_ : option value) : value :=
  let elems := elements array in
  match elems with
  | [] => VArr []
  | _ =>
      let start :=
        match start with
        | None | Some VUndefined | Some VNull => 0
        | Some v => toInteger v
        end in
      let end_ :=
        match end_ with
        | None | Some VUndefined => Z.of_nat (List.length elems)
        | Some v => toInteger v
        end in
      VArr (baseSlice elems start end_)
  end.

End Host.

Import Host.
Local Open Scope result_scope.

(* ===================================================================== *)
(** * The WHERE filter                                                    *)
(* ===================================================================== *)

Module Where.

Section Pattern.

(** The constant [X_ISO_DATE] is a regular expression this module imports;
    it is used through [s.match(X_ISO_DATE)] only, so it is taken here as
    the predicate "[s] matches the ISO date pattern". *)
Variable X_ISO_DATE : string -> bool.

(** Prepare two values for comparison. *)
Definition normalizeComparison (a b : value) : result (value * value) :=
  let a := if isUndefined a || isNull a then VStr "" else a in
  let b := if isUndefined b || isNull b then VStr "" else b in
  let '(a, b) :=
    match a, b with
    | VStr sa, VStr sb => (VStr (toLowerCase sa), VStr (toLowerCase sb))
    | _, _ => (a, b)
    end in
  match a, b with
  | VDate ta, VDate tb =>
      (* comparing dates: keep them as dates *)
      Ok (VNum ta, VNum tb)
  | _, _ =>
      (* otherwise convert them to ISO strings *)
      a <- match a with
           | VDate t => s <- toISOString t ;; Ok (VStr s)
           | _ => Ok a
           end ;;
      b <- match b with
           | VDate t => s <- toISOString t ;; Ok (VStr s)
           | _ => Ok b
           end ;;
      (* stringify, except for numbers *)
      let a := if isNumber a then a else VStr (ToString a) in
      let b := if isNumber b then b else VStr (ToString b) in
      (* date-like things are treated like dates *)
      match a, b with
      | VStr sa, VStr sb =>
          if X_ISO_DATE sa && X_ISO_DATE sb then
            ta <- getTime (new_Date a) ;;
            tb <- getTime (new_Date b) ;;
            Ok (VNum ta, VNum tb)
          else Ok (a, b)
      | _, _ => Ok (a, b)
      end
  end.

(** The text an operand that is neither a date nor a number is compared
    by: null and undefined give the empty text. *)
Definition operand_text (v : value) : string :=
  ToString (if isUndefined v || isNull v then VStr "" else v).

(** An operand whose conversion to an ISO string fails. *)
Definition is_invalid_date (v : value) : bool :=
  match v with
  | VDate (Fin _) => false
  | VDate _ => true
  | _ => false
  end.

(** The comparison functions, by their key in the [compare] table. *)
Definition compare (op : string) (a b : value) : result bool :=
  '(x0, x1) <- normalizeComparison a b ;;
  if String.eqb op "=" then Ok (loose_eq x0 x1)
  else if String.eqb op "!" then Ok (negb (loose_eq x0 x1))
  else if String.eqb op ">" then Ok (js_gt x0 x1)
  else if String.eqb op ">=" then Ok (js_ge x0 x1)
  else if String.eqb op "<" then Ok (js_lt x0 x1)
  else if String.eqb op "<=" then Ok (js_le x0 x1)
  else Err TypeError.

Definition validAttributes : list string :=
  ["equals"; "not"; "greaterThan"; "lessThan"; "greaterThanOrEqual";
   "lessThanOrEqual"; "<"; "<="; "!"; ">"; ">="; "startsWith"; "endsWith";
   "contains"; "like"].

(** Safer helper for hasOwnProperty checks, on a value that is an object. *)
Definition hasOwnProperty_ (obj : value) (prop : string) : bool :=
  match hasOwnProperty obj prop with
  | Ok b => b
  | Err _ => false
  end.

(** Whether this criteria is valid as an object inside of an attribute. *)
Definition validSubAttrCriteria (c : value) : bool :=
  if negb (isObject c) then false
  else existsb (fun attr => hasOwnProperty_ c attr) validAttributes.

(** The condition the comment of [isNumbery] states: the value can be
    parsed as a finite number. *)
Definition parses_as_finite_number (v : value) : bool :=
  number_is_finite (ToNumber v).

(** Whether this value can be successfully parsed as a finite number. *)
Definition isNumbery (v : value) : bool :=
  if isDate v then false
  else number_ltb (Fin 0) (number_square (ToNumber v)).

(** Whether the schema hint declares the attribute [key] a date: the
    condition under which [matchLiteral] converts both sides to ISO
    strings. *)
Definition declares_date (schema : value) (key : string) : bool :=
  match get schema key with
  | Ok sk =>
      match get sk "type" with
      | Ok ty => ToBoolean schema && ToBoolean sk && strict_eq_text ty "date"
      | Err _ => false
      end
  | Err _ => false
  end.

(** [matchFn] is the function run to check for a match between the two
    literals. *)
Definition matchLiteral (model : value) (key : string) (criterion : value)
    (matchFn : value -> value -> result bool) (schema : value) : result bool :=
  v <- get model key ;;
  let val := cloneDeep v in
  (* schema && schema[key] && schema[key].type *)
  hint <-
    (if ToBoolean schema then
       sk <- get schema key ;;
       if ToBoolean sk then get sk "type" else Ok sk
     else Ok schema) ;;
  '(val, criterion) <-
    (if ToBoolean hint && strict_eq_text hint "date" then
       (* parse both sides into ISO date strings *)
       dv <- getTime (new_Date val) ;;
       sv <- toISOString dv ;;
       dc <- getTime (new_Date criterion) ;;
       sc <- toISOString dc ;;
       Ok (VStr sv, VStr sc)
     else Ok (val, criterion)) ;;
  (* if both are parsable finite numbers, cast them *)
  let '(val, criterion) :=
    if isNumbery criterion && isNumbery val
    then (VNum (ToNumber val), VNum (ToNumber criterion))
    else (val, criterion) in
  (* ensure the key attr exists in model *)
  present <- hasOwnProperty model key ;;
  if negb present then Ok false
  else if isUndefined criterion then Ok false
  else
    m <- matchFn val criterion ;;
    if negb m then Ok false else Ok true.

(** [matchString.replace(/%%%/g, '%')]. *)
Fixpoint unescape_percent (s : string) : string :=
  match s with
  | String "%" (String "%" (String "%" r)) => String "%" (unescape_percent r)
  | String c r => String c (unescape_percent r)
  | EmptyString => EmptyString
  end.

Definition regexp_special (c : ascii) : bool :=
  existsb (Ascii.eqb c)
    ["-"; "["; "]"; "/"; "{"; "}"; "("; ")"; "*"; "+"; "?"; "."; "\"; "^";
     "$"; "|"]%char.

Fixpoint escapeRegExp (str : string) : string :=
  match str with
  | EmptyString => EmptyString
  | String c r =>
      if regexp_special c then String "\" (String c (escapeRegExp r))
      else String c (escapeRegExp r)
  end.

(** The global replace of "a run without percent, a percent, a run without
    percent" by "$1.*$2": the two runs are copied, so every percent sign
    becomes a dot and a star, and the rest of the text stays. *)
Fixpoint percent_to_wildcard (s : string) : string :=
  match s with
  | EmptyString => EmptyString
  | String c r =>
      if Ascii.eqb c "%" then String "." (String "*" (percent_to_wildcard r))
      else String c (percent_to_wildcard r)
  end.

(** What the RegExp built from the text [q] consists of, once the
    escaped percent signs of the pattern are handled: a wildcard for a
    percent sign, the character itself for any other. *)
Fixpoint like_pieces (q : string) : list piece :=
  match q with
  | EmptyString => []
  | String c r =>
      if Ascii.eqb c "%" then PStar ADot :: like_pieces r
      else POne (AChar c) :: like_pieces r
  end.

(** The escaped text of a pattern, with its wildcards and the final [$]. *)
Definition body (q : string) : string :=
  String.append (percent_to_wildcard (escapeRegExp q)) "$".

(** The source of the RegExp that [sqlLikeMatch] builds from a text. *)
Definition translate (p : string) : string :=
  String.append "^"
    (String.append (percent_to_wildcard (escapeRegExp (unescape_percent p)))
                   "$").

Definition sqlLikeMatch (value matchString : value) : result bool :=
  re <-
    match matchString with
    | VRegExp _ _ => Ok matchString
    | VStr s =>
        (* handle escaped percent (%) signs *)
        let s := unescape_percent s in
        (* escape for regex *)
        let s := escapeRegExp s in
        (* replace SQL % match notation *)
        let s := percent_to_wildcard s in
        (* case insensitive by default *)
        let modifiers := "i" in
        Ok (VRegExp (String.append "^" (String.append s "$")) modifiers)
    | _ => Err UnexpectedMatchString
    end ;;
  (* deal with non-strings *)
  match value with
  | VNum n => String_match (NumberToString n) re
  | VBool b => String_match (if b then "true" else "false") re
  | VStr s => String_match s re
  | _ => Ok false
  end.

Definition checkStartsWith (value matchString : value) : result bool :=
  sqlLikeMatch value (VStr (String.append (ToString matchString) "%")).
Definition checkEndsWith (value matchString : value) : result bool :=
  sqlLikeMatch value (VStr (String.append "%" (ToString matchString))).
Definition checkContains (value matchString : value) : result bool :=
  sqlLikeMatch value
    (VStr (String.append "%" (String.append (ToString matchString) "%"))).
Definition checkLike (value matchString : value) : result bool :=
  sqlLikeMatch value matchString.

(** ** The criteria evaluator *)

Definition member (k : string) (l : list string) : bool :=
  existsb (String.eqb k) l.

(** [matchItem] when the key is the numeric index of an array-like
    criteria: in attribute-scoped mode no modifier name is equal to a
    number, and elsewhere a number has no [toLowerCase] method. *)
Definition matchItem_index (parentKey : option string) : result bool :=
  match parentKey with
  | Some (String _ _) => Err InvalidQuerySyntax
  | _ => Err TypeError
  end.

(** [matchSet] on a criteria that is a string: the empty string is falsy,
    any other is visited as an array-like collection. *)
Definition matchSet_text (criteria : string) (parentKey : option string)
  : result bool :=
  match criteria with
  | EmptyString => Ok true
  | String _ _ => matchItem_index parentKey
  end.

Section Recursion.

(** The functions below call [matchSet], which calls them back through
    [matchItem]; they are written over the function they call, and the
    knot is tied by [matchSet] after the section. *)
Variable matchSet : value -> value -> option string -> value -> result bool.

Definition matchOrF (model disjuncts schema : value) : result bool :=
  let push (outcomes : list bool) (matched : result bool) :=
    b <- matched ;; Ok (if b then true :: outcomes else outcomes) in
  outcomes <-
    match disjuncts with
    | VArr elems =>
        each (fun o criteria => push o (matchSet model criteria None schema))
             elems []
    | VObj props =>
        match array_like_length disjuncts with
        | Some n =>
            each (fun o i =>
                    push o (at_name
                              (fun criteria =>
                                 matchSet model criteria None schema)
                              (Ok true) (nat_to_string i) props))
                 (seq 0 n) []
        | None =>
            each (fun o '(_, criteria) =>
                    push o (matchSet model criteria None schema))
                 props []
        end
    | VStr s =>
        each (fun o criteria => push o (matchSet_text criteria None))
             (letters s) []
    | _ => Ok []
    end ;;
  let outcome := if (0 <? List.length outcomes)%nat then true else false in
  Ok outcome.

Definition matchAndF (model conjuncts schema : value) : result bool :=
  let check (outcome : bool) (matched : result bool) :=
    b <- matched ;; Ok (if negb b then false else outcome) in
  match conjuncts with
  | VArr elems =>
      each (fun o criteria => check o (matchSet model criteria None schema))
           elems true
  | VObj props =>
      match array_like_length conjuncts with
      | Some n =>
          each (fun o i =>
                  check o (at_name
                             (fun criteria =>
                                matchSet model criteria None schema)
                             (Ok true) (nat_to_string i) props))
               (seq 0 n) true
      | None =>
          each (fun o '(_, criteria) =>
                  check o (matchSet model criteria None schema))
               props true
      end
  | VStr s =>
      each (fun o criteria => check o (matchSet_text criteria None))
           (letters s) true
  | _ => Ok true
  end.

Definition matchLike (model criteria schema : value) : result bool :=
  every (fun '(key, pattern) =>
           v <- get model key ;;
           checkLike v pattern)
        (own_entries criteria).

Definition matchNotF (model criteria schema : value) : result bool :=
  b <- matchSet model criteria None schema ;; Ok (negb b).

Definition matchItemF (model : value) (key : string) (criterion : value)
    (parentKey : option string) (schema : value) : result bool :=
  let unscoped : result bool :=
    if String.eqb (toLowerCase key) "or" then matchOrF model criterion schema
    else if String.eqb (toLowerCase key) "not" then
      matchNotF model criterion schema
    else if String.eqb (toLowerCase key) "and" then
      matchAndF model criterion schema
    else if String.eqb (toLowerCase key) "like" then
      matchLike model criterion schema
    else
      match criterion with
      | VArr vals =>
          (* IN query *)
          some (fun val => v <- get model key ;; compare "=" v val) vals
      | _ =>
          if isObject criterion && validSubAttrCriteria criterion then
            (* attribute is being checked in a specific way *)
            matchSet model criterion (Some key) schema
          else
            (* otherwise, try a literal match *)
            matchLiteral model key criterion (compare "=") schema
      end in
  match parentKey with
  | Some (String _ _ as parentKey) =>
      (* handle special attr query *)
      if member key ["equals"; "="; "equal"] then
        matchLiteral model parentKey criterion (compare "=") schema
      else if member key ["not"; "!"] then
        match criterion with
        | VArr vals =>
            (* check for Not In *)
            m <- each (fun (m : bool) val =>
                         v <- get model parentKey ;;
                         c <- compare "=" v val ;;
                         Ok (if c then true else m))
                      vals false ;;
            Ok (if m then false else true)
        | _ => matchLiteral model parentKey criterion (compare "!") schema
        end
      else if member key ["greaterThan"; ">"] then
        matchLiteral model parentKey criterion (compare ">") schema
      else if member key ["greaterThanOrEqual"; ">="] then
        matchLiteral model parentKey criterion (compare ">=") schema
      else if member key ["lessThan"; "<"] then
        matchLiteral model parentKey criterion (compare "<") schema
      else if member key ["lessThanOrEqual"; "<="] then
        matchLiteral model parentKey criterion (compare "<=") schema
      else if String.eqb key "startsWith" then
        matchLiteral model parentKey criterion checkStartsWith schema
      else if String.eqb key "endsWith" then
        matchLiteral model parentKey criterion checkEndsWith schema
      else if String.eqb key "contains" then
        matchLiteral model parentKey criterion checkContains schema
      else if String.eqb key "like" then
        matchLiteral model parentKey criterion checkLike schema
      else Err InvalidQuerySyntax
  | _ => unscoped
  end.

End Recursion.

(** Match a model against each criterion in a criteria query. A null
    WHERE query matches everything; entries are treated as AND. *)
Fixpoint matchSet (model criteria : value) (parentKey : option string)
    (schema : value) {struct criteria} : result bool :=
  if negb (ToBoolean criteria) then Ok true
  else
    match criteria with
    | VObj props =>
        match array_like_length criteria with
        | Some O => Ok true
        | Some (S _) => matchItem_index parentKey
        | None =>
            every (fun '(key, criterion) =>
                     matchItemF matchSet model key criterion parentKey schema)
                  props
        end
    | VArr [] => Ok true
    | VArr (_ :: _) => matchItem_index parentKey
    | VStr s => matchSet_text s parentKey
    | _ => Ok true
    end.

(** The keys [matchItem] dispatches on in attribute-scoped mode: those of
    [validAttributes], and the two further spellings of equality. *)
Definition modifier_keys : list string :=
  ["equals"; "="; "equal"; "not"; "!"; "greaterThan"; ">";
   "greaterThanOrEqual"; ">="; "lessThan"; "<"; "lessThanOrEqual"; "<=";
   "startsWith"; "endsWith"; "contains"; "like"].

(** The keys [matchItem] reads as combinators, in any letter case. *)
Definition combinator_keys : list string := ["or"; "not"; "and"; "like"].

Definition matchItem := matchItemF matchSet.
Definition matchOr := matchOrF matchSet.
Definition matchAnd := matchAndF matchSet.
Definition matchNot := matchNotF matchSet.

(** Apply a [where] filter to [data]. *)
Definition where_ (data criteria schema : value) : result value :=
  if negb (ToBoolean data) then Ok data
  else
    let schema := js_or schema (VObj []) in
    let keep (tuple : value) := matchSet tuple criteria None schema in
    r <- filter keep (collection_values data) ;; Ok (VArr r).

End Pattern.

End Where.

(* ===================================================================== *)
(** * LIMIT and SKIP                                                      *)
(* ===================================================================== *)

Module Limit.

(** Apply a [limit] modifier to [data]. *)
Definition limit (data limit : value) : value :=
  if isUndefined limit || negb (ToBoolean data)
     || match limit with VNum (Fin 0) => true | _ => false end
  then data
  else slice data (Some (VNum (Fin 0))) (Some limit).

End Limit.

Module Skip.

(** Apply a [skip] modifier to [data]. *)
Definition skip (data numToSkip : value) : value :=
  if negb (ToBoolean numToSkip) || negb (ToBoolean data) then data
  else
    (* ignore the first [numToSkip] tuples *)
    slice data (Some numToSkip) None.

End Skip.

(* ===================================================================== *)
(** * SORT                                                                *)
(* ===================================================================== *)

Module Sort.

(** The default [when]: null ranks lower than anything else. *)
Definition rankSpecialCase (record : value) (attrName : string)
  : result bool :=
  v <- get record attrName ;;
  if String.eqb (typeof v) "undefined" || isNull v then Ok false
  else Ok true.

Inductive outcome : Type := LESS_THAN | EQUAL | GREATER_THAN.

(** The iteratee of the reduction over the sort vector: the flag so far,
    and one entry of the vector. *)
Definition flag_step (when : value -> string -> result bool) (a b : value)
    (flagSoFar : value) (entry : key * value) : result value :=
  let '(attr, sortDirection) := entry in
  let attrName := key_name attr in
  (* special cases, defined by WHEN *)
  a' <- when a attrName ;;
  b' <- when b attrName ;;
  outcome <-
    (if negb a' && negb b' then Ok EQUAL
     else if negb a' && b' then Ok LESS_THAN
     else if a' && negb b' then Ok GREATER_THAN
     else
       (* general case *)
       a' <- get a attrName ;;
       b' <- get b attrName ;;
       if js_lt a' b' then Ok LESS_THAN
       else if js_gt a' b' then Ok GREATER_THAN
       else Ok EQUAL) ;;
  match outcome with
  | LESS_THAN =>
      Ok (js_or flagSoFar (VNum (number_neg (ToNumber sortDirection))))
  | GREATER_THAN => Ok (js_or flagSoFar sortDirection)
  | EQUAL => Ok flagSoFar
  end.

(** The comparison function handed to [data.sort]: a reduction over the
    entries of the sort vector, from the flag 0. *)
Definition _compare (sortVector : value)
    (when : value -> string -> result bool) (a b : value) : result value :=
  each (flag_step when a b) (entries sortVector) (VNum (Fin 0)).

(** [Array.prototype.sort] with a comparison function. The sort is stable;
    it is modelled by straight insertion, each element going before the
    first one it compares below. Undefined elements go last and are not
    compared. *)
Section ArraySort.
Variable comparefn : value -> value -> result value.

Definition sorts_before (x y : value) : result bool :=
  v <- comparefn x y ;; Ok (number_ltb (ToNumber v) (Fin 0)).

Fixpoint insert (x : value) (sorted : list value) : result (list value) :=
  match sorted with
  | [] => Ok [x]
  | y :: rest =>
      lt <- sorts_before x y ;;
      if lt then Ok (x :: y :: rest)
      else r <- insert x rest ;; Ok (y :: r)
  end.

Definition Array_sort (elems : list value) : result (list value) :=
  let defined := List.filter (fun v => negb (isUndefined v)) elems in
  let undefineds := List.filter isUndefined elems in
  sorted <- each (fun acc x => insert x acc) defined [] ;;
  Ok (sorted ++ undefineds)%list.
End ArraySort.

(** Sort [data] (tuples) using [sortVector]. *)
Definition sortData (data sortVector : value)
    (when : value -> string -> result bool) : result value :=
  match data with
  | VArr elems =>
      r <- Array_sort (_compare sortVector when) elems ;; Ok (VArr r)
  | _ => Err TypeError
  end.

(** Sort the tuples in [data] using [comparator]; [when] is [None] when
    the caller passes no rank function. *)
Definition sort (data comparator : value)
    (when : option (value -> string -> result bool)) : result value :=
  if negb (ToBoolean comparator) || negb (ToBoolean data) then Ok data
  else
    let when :=
      match when with
      | Some f => f
      | None => rankSpecialCase
      end in
    sortData (cloneDeep data) comparator when.

(** A tuple that is a dictionary. *)
Definition is_dictionary (x : value) : Prop := exists props, x = VObj props.

(** A tuple whose attribute [k] is null, undefined or absent. *)
Definition null_or_absent (k : string) (x : value) : bool :=
  match get x k with
  | Ok VUndefined | Ok VNull => true
  | _ => false
  end.

(** Whether the default rank function ranks the attribute [k] of [x]. *)
Definition ranked (k : string) (x : value) : bool :=
  holds (rankSpecialCase x k).

(** A list in which no element outside the class [first] comes before an
    element of the class. *)
Fixpoint class_ordered (first : value -> bool) (l : list value) : Prop :=
  match l with
  | [] => True
  | y :: l' =>
      (first y = false -> Forall (fun z => first z = false) l')
      /\ class_ordered first l'
  end.

End Sort.

(* ===================================================================== *)
(** * SELECT                                                              *)
(* ===================================================================== *)

Module Select.

(** The projection stage deletes a property of the [fields] object it is
    given, and the nested specs of [fields] are objects the recursive
    calls receive in turn. The object a spec refers to is therefore part
    of the state: [select] returns, with its result, the contents of the
    caller's [fields] after the call. Nested specs are taken not to share
    objects with one another. *)

(** [delete o[k]]. *)
Fixpoint remove_prop (k : string) (props : list (string * value))
  : list (string * value) :=
  match props with
  | [] => []
  | (k', v) :: rest =>
      if String.eqb k k' then remove_prop k rest
      else (k', v) :: remove_prop k rest
  end.

(** [o[k] = v] on the properties of an object. *)
Fixpoint set_prop (k : string) (v : value) (props : list (string * value))
  : list (string * value) :=
  match props with
  | [] => [(k, v)]
  | (k', v') :: rest =>
      if String.eqb k k' then (k, v) :: rest
      else (k', v') :: set_prop k v rest
  end.

Definition assign (o : value) (k : string) (v : value) : value :=
  match o with
  | VObj props => VObj (set_prop k v props)
  | _ => o
  end.

(** lodash [pick(object, props)]: a new object with the listed properties
    that [object] has, in the order of the list. *)
Definition pick (object : value) (props : list string) : value :=
  VObj (flat_map (fun k =>
                    match hasOwnProperty object k, get object k with
                    | Ok true, Ok v => [(k, v)]
                    | _, _ => []
                    end) props).

(** lodash [omit(object, predicate)], in the predicate form the call is
    written in: a new object without the properties the predicate
    selects. *)
Definition omit (object : value) (predicate : value -> string -> bool)
  : value :=
  VObj (List.filter (fun '(k, v) => negb (predicate v k))
                    (own_entries object)).

(** The dictionary an array of attribute names is converted to. *)
Definition arrayToDict (names : list value) : value :=
  VObj (fold_left (fun memo attrName => set_prop (ToString attrName)
                                               (VBool true) memo)
                  names []).

Definition includes (l : list string) (k : string) : bool :=
  existsb (String.eqb k) l.

(** The contents of [fields] once the object its property [k] refers to
    has become [v]. *)
Definition store (fields : value) (k : string) (v : value) : value :=
  match fields with
  | VObj props =>
      match assoc k props with
      | Some _ => VObj (set_prop k v props)
      | None => fields
      end
  | _ => fields
  end.

Section Step.

(** The recursive call: it returns the projected tuples and the contents
    of the spec object after the call. *)
Variable select : value -> value -> result (value * value).

(** The recursive step on one entry of [fields], for one tuple. *)
Definition subselect_step (tuple : value) (attrName : string)
    (subselect : value) : result (value * value) :=
  (* this conditional is true when [subselect] is null *)
  if String.eqb (typeof subselect) "object" then
    x <- get tuple attrName ;;
    if Array_isArray x then
      '(r, subselect) <- select x subselect ;;
      Ok (assign tuple attrName r, subselect)
    else if isObject x then
      '(r, subselect) <- select (VArr [x]) subselect ;;
      r0 <- get r "0" ;;
      Ok (assign tuple attrName r0, subselect)
    else Ok (tuple, subselect)
  else Ok (tuple, subselect).

(** The iteratee of [each(fields, ...)], on the tuple and the contents of
    [fields] so far. *)
Definition visit_entry (state : value * value) (attr : key)
  : result (value * value) :=
  let '(tuple, fields) := state in
  let attrName := key_name attr in
  subselect <- get fields attrName ;;
  '(tuple, subselect) <- subselect_step tuple attrName subselect ;;
  Ok (tuple, store fields attrName subselect).

(** The iteratee of [map(tuples, ...)]: the projected tuple, and the
    contents of [fields] as the nested calls leave them. *)
Definition select_tuple (hasSplat : bool)
    (fieldsToExplicitlyOmit : list string) (fields tuple : value)
  : result (value * value) :=
  let tuple :=
    if hasSplat then
      omit tuple (fun _ attrName => includes fieldsToExplicitlyOmit attrName)
    else pick tuple (Object_keys fields) in
  each visit_entry (map fst (entries fields)) (tuple, fields).

(** The projected tuples so far and the contents of [fields], after one
    more tuple. *)
Definition visit_tuple (hasSplat : bool)
    (fieldsToExplicitlyOmit : list string) (state : list value * value)
    (tuple : value) : result (list value * value) :=
  let '(out, fields) := state in
  '(tuple, fields) <-
    select_tuple hasSplat fieldsToExplicitlyOmit fields tuple ;;
  Ok (out ++ [tuple], fields)%list.

Definition select_step (tuples fields : value) : result (value * value) :=
  let passed := fields in
  (* expand splat shortcut syntax *)
  let fields :=
    if strict_eq_text fields "*" then VObj [("*", VBool true)] else fields in
  (* if [fields] is not a dictionary or array, don't modify the output *)
  if negb (String.eqb (typeof fields) "object") then Ok (tuples, passed)
  else
    (* an array of names is converted to a dictionary *)
    let fields :=
      match fields with
      | VArr names => arrayToDict names
      | _ => fields
      end in
    star <- get fields "*" ;;
    let hasSplat := ToBoolean star in
    let fieldsToExplicitlyOmit :=
      List.filter (fun key =>
                     match get fields key with
                     | Ok (VBool false) => true
                     | _ => false
                     end)
                  (Object_keys fields) in
    (* delete fields['*'] *)
    let fields :=
      match fields with
      | VObj props => VObj (remove_prop "*" props)
      | _ => fields
      end in
    '(out, fields) <-
      each (visit_tuple hasSplat fieldsToExplicitlyOmit)
           (collection_values tuples) ([], fields) ;;
    Ok (VArr out,
        match passed with
        | VObj _ => fields
        | _ => passed
        end).

End Step.

(** The recursion follows the nesting of the spec; it is bounded here by
    a number of levels, and [select] gives it one level more than the spec
    has. *)
Fixpoint select_fuel (fuel : nat) (tuples fields : value)
  : result (value * value) :=
  match fuel with
  | O => Err OutOfFuel
  | S fuel' => select_step (select_fuel fuel') tuples fields
  end.

(** The nesting depth of a projection spec. *)
Fixpoint spec_depth (fields : value) : nat :=
  match fields with
  | VObj props => S (list_max (map (fun p => spec_depth (snd p)) props))
  | _ => O
  end.

(** Project [tuples] on [fields]: the result, and the contents of the
    caller's [fields] after the call. *)
Definition select (tuples fields : value) : result (value * value) :=
  select_fuel (S (spec_depth fields)) tuples fields.

(** The keys of a spec that is a dictionary. *)
Definition dict_keys (fields : value) : option (list string) :=
  match fields with
  | VObj props => Some (map fst props)
  | _ => None
  end.

(** The states of a spec in the course of a projection. *)
Definition spec_state (fields : value) : Prop :=
  match fields with
  | VObj _ | VDate _ | VRegExp _ _ => True
  | _ => False
  end.

(** A spec whose nested specs can each be projected on with [m] levels. *)
Definition nested_within (m : nat) (fields : value) : Prop :=
  match fields with
  | VObj props =>
      Forall (fun p => typeof (snd p) = "object" ->
                       (S (spec_depth (snd p)) <= m)%nat) props
  | _ => True
  end.

End Select.

(* ===================================================================== *)
(** * The helpers of the sort stage that guess a type                     *)
(* ===================================================================== *)

Module Coerce.

Section Pattern.

Variable X_ISO_DATE : string -> bool.

(** [n === v] for a number [n]: the operands have the same type and the
    same value, and [NaN] equals nothing. *)
Definition strict_eq_number (n : number) (v : value) : bool :=
  match v with
  | VNum m => number_eqb n m
  | _ => false
  end.

Definition guessType (x : value) : string :=
  match x with
  | VStr s =>
      (* probably meant to be a boolean *)
      if String.eqb s "true" || String.eqb s "false" then "booleanish"
      (* probably meant to be a number *)
      else if strict_eq_number (ToNumber x) x then "numberish"
      (* probably meant to be a date *)
      else if X_ISO_DATE s then "dateish"
      (* just another string *)
      else typeof x
  | _ => typeof x
  end.

(** Coerce a value to its probable intended type for sorting. *)
Definition coerceIntoBestGuessType (x : value) : value :=
  let guess := guessType x in
  if String.eqb guess "booleanish" then VBool (strict_eq_text x "true")
  else if String.eqb guess "numberish" then VNum (ToNumber x)
  else if String.eqb guess "dateish" then new_Date x
  else x.

End Pattern.

End Coerce.

(* ===================================================================== *)
(** * The clause validators                                               *)
(* ===================================================================== *)

Module Validate.

(** What a validator throws: the plain error of a call without a clause,
    or an error flagged with a code. The messages are not modelled; the
    place a flagged error is thrown from is kept instead. *)
Inductive sort_flaw : Type :=
| EmptySortString
| SortIsAnArray
| SortIsNoClause.

Inductive where_flaw : Type :=
| WhereIsNoDictionary
| PredicateWithoutArray
| SubClauseIsNoDictionary
| InItemIsNoEqFilter
| EmptyModifierDictionary
| BlacklistItemIsNoEqFilter
| ArrayAtModifier
| SearchOperandIsNoText
| ModifierOperandIsNoEqFilter
| UnrecognizedModifier
| FilterIsNoEqFilter.

Inductive thrown : Type :=
| UsageError
| E_SORT_CLAUSE_UNPARSEABLE (flaw : sort_flaw)
| E_WHERE_CLAUSE_UNPARSEABLE (flaw : where_flaw).

Definition isString (v : value) : bool :=
  match v with VStr _ => true | _ => false end.
Definition isBoolean (v : value) : bool :=
  match v with VBool _ => true | _ => false end.
(** No value of the model is a function. *)
Definition isFunction (v : value) : bool := false.

(** Check the SORT clause for obviously unsupported usage: [None] when
    the call returns, the error when it throws. *)
Definition validateSortClause (sort : value) : option thrown :=
  if isUndefined sort then Some UsageError
  else if isString sort then
    if negb (ToBoolean sort) then
      Some (E_SORT_CLAUSE_UNPARSEABLE EmptySortString)
    else None
  else if Array_isArray sort then
    Some (E_SORT_CLAUSE_UNPARSEABLE SortIsAnArray)
  else if isObject sort && negb (Array_isArray sort) && negb (isFunction sort)
  then
    (* an empty dictionary is technically allowed *)
    None
  else Some (E_SORT_CLAUSE_UNPARSEABLE SortIsNoClause).

(** Predicate modifiers. *)
Definition PREDICATE_OPERATORS : list string := ["or"; "and"].

(** "Not in" operators. *)
Definition NIN_OPERATORS : list string := ["!"; "not"].

(** Sub-attribute modifiers. *)
Definition SUB_ATTR_MODIFIERS : list string :=
  ["<"; "lessThan"; "<="; "lessThanOrEqual"; ">"; "greaterThan"; ">=";
   "greaterThanOrEqual"; "!"; "not"; "like"; "contains"; "startsWith";
   "endsWith"].

(** String search modifiers. *)
Definition STRING_SEARCH_MODIFIERS : list string :=
  ["like"; "contains"; "startsWith"; "endsWith"].

(** [list.includes(k)] for the key an iteratee receives: an index is a
    number, and equals none of the names. *)
Definition includes_key (l : list string) (k : key) : bool :=
  match k with
  | KStr s => Where.member s l
  | KIdx _ => false
  end.

Section FirstThrown.
Context {A : Type}.
Variable check : A -> option thrown.

(** [each] with an iteratee that may throw: the first error, in order. *)
Fixpoint first_thrown (l : list A) : option thrown :=
  match l with
  | [] => None
  | x :: l' =>
      match check x with
      | Some e => Some e
      | None => first_thrown l'
      end
  end.
End FirstThrown.

Section EqFilter.

(** The helper [isEqFilter] is required from a private module that is
    not among the sources; the validator is written over it. *)
Variable isEqFilter : value -> bool.

Definition eq_filter_or (flaw : where_flaw) (v : value) : option thrown :=
  if negb (isEqFilter v) then Some (E_WHERE_CLAUSE_UNPARSEABLE flaw)
  else None.

(** The check of one entry of a dictionary of sub-attribute modifiers. *)
Definition check_modifier (entry : key * value) : option thrown :=
  let '(subAttrModifierKey, subFilter) := entry in
  if includes_key SUB_ATTR_MODIFIERS subAttrModifierKey then
    match subFilter with
    | VArr blacklist =>
        (* an array is only allowed for the "not in" operators *)
        if includes_key NIN_OPERATORS subAttrModifierKey then
          first_thrown (eq_filter_or BlacklistItemIsNoEqFilter) blacklist
        else Some (E_WHERE_CLAUSE_UNPARSEABLE ArrayAtModifier)
    | _ =>
        if includes_key STRING_SEARCH_MODIFIERS subAttrModifierKey then
          if negb (isString subFilter) && negb (isNumber subFilter)
             && negb (isBoolean subFilter)
          then Some (E_WHERE_CLAUSE_UNPARSEABLE SearchOperandIsNoText)
          else None
        else eq_filter_or ModifierOperandIsNoEqFilter subFilter
    end
  else Some (E_WHERE_CLAUSE_UNPARSEABLE UnrecognizedModifier).

Section Step.

Variable _recursiveStep : value -> option thrown.

(** The check of one entry of a clause. *)
Definition check_entry (key : key) (rhs : value) : option thrown :=
  if includes_key PREDICATE_OPERATORS key then
    (* an OR or AND predicate: its right-hand side is an array of
       dictionaries *)
    match rhs with
    | VArr subClauses =>
        first_thrown
          (fun subClause =>
             if negb (isObject subClause) || Array_isArray subClause
                || isFunction subClause
             then Some (E_WHERE_CLAUSE_UNPARSEABLE SubClauseIsNoDictionary)
             else _recursiveStep subClause)
          subClauses
    | _ => Some (E_WHERE_CLAUSE_UNPARSEABLE PredicateWithoutArray)
    end
  else
    match rhs with
    | VArr subFilters =>
        (* an IN filter: each item is an equivalency filter *)
        first_thrown (eq_filter_or InItemIsNoEqFilter) subFilters
    | _ =>
        if isObject rhs && negb (Array_isArray rhs) && negb (isFunction rhs)
        then
          (* a dictionary of sub-attribute modifiers *)
          if (List.length (Object_keys rhs) =? 0)%nat then
            Some (E_WHERE_CLAUSE_UNPARSEABLE EmptyModifierDictionary)
          else first_thrown check_modifier (entries rhs)
        else
          (* a normal equivalency filter *)
          eq_filter_or FilterIsNoEqFilter rhs
    end.

End Step.

(** The recursive step over a clause, starting with each top-level key.
    It is only called on values that are objects and no arrays. *)
Fixpoint _recursiveStep (clause : value) : option thrown :=
  match clause with
  | VObj props =>
      match array_like_length clause with
      | Some n =>
          first_thrown
            (fun i =>
               at_name (check_entry _recursiveStep (KIdx i))
                       (check_entry _recursiveStep (KIdx i) VUndefined)
                       (nat_to_string i) props)
            (seq 0 n)
      | None =>
          first_thrown
            (fun '(key, rhs) => check_entry _recursiveStep (KStr key) rhs)
            props
      end
  | _ => None
  end.

(** Check the WHERE clause for obviously unsupported usage: [None] when
    the call returns, the error when it throws. *)
Definition validateWhereClause (where_ : value) : option thrown :=
  if isUndefined where_ then Some UsageError
  else if negb (isObject where_) || Array_isArray where_ || isFunction where_
  then Some (E_WHERE_CLAUSE_UNPARSEABLE WhereIsNoDictionary)
  else _recursiveStep where_.

End EqFilter.

End Validate.

(* ===================================================================== *)
(** * Notions the properties are stated with                              *)
(* ===================================================================== *)

Module Notions.

(** Whether a text holds a percent sign. *)
Fixpoint has_percent (s : string) : bool :=
  match s with
  | EmptyString => false
  | String c r => Ascii.eqb c "%" || has_percent r
  end.

(** The pieces of a RegExp that reads a text character by character. *)
Fixpoint literal_pieces (s : string) : list piece :=
  match s with
  | EmptyString => []
  | String c r => POne (AChar c) :: literal_pieces r
  end.

(** A text without a line terminator. *)
Fixpoint single_line (s : string) : bool :=
  match s with
  | EmptyString => true
  | String c r => negb (is_line_terminator c) && single_line r
  end.

(** What is left of [v] after the prefix [p], letter case ignored. *)
Fixpoint after_prefix (p v : string) : option string :=
  match p, v with
  | EmptyString, _ => Some v
  | String _ _, EmptyString => None
  | String a p', String b v' =>
      if Ascii.eqb (lower_char a) (lower_char b) then after_prefix p' v'
      else None
  end.

(** The integer a tuple holds under the attribute [k]. *)
Definition number_at (k : string) (x : value) : option Z :=
  match x with
  | VObj props =>
      match assoc k props with
      | Some (VNum (Fin z)) => Some z
      | _ => None
      end
  | _ => None
  end.

(** [x] may come before [y]: both have a rank, and that of [x] is not
    the greater. *)
Definition ordered_by (rank : value -> option Z) (x y : value) : Prop :=
  match rank x, rank y with
  | Some a, Some b => a <= b
  | _, _ => False
  end.

(** Whether [x] has the rank [z]. *)
Definition ranked_as (rank : value -> option Z) (z : Z) (x : value) : bool :=
  match rank x with
  | Some a => a =? z
  | None => false
  end.

(** The rank of a tuple when sorting by the attribute [k] in the
    direction [d]: the number it holds, times the direction. *)
Definition directed (k : string) (d : Z) (x : value) : option Z :=
  option_map (Z.mul d) (number_at k x).

(** A tuple that is a dictionary without an attribute named by an index
    below [n]. *)
Definition unnumbered (n : nat) (x : value) : bool :=
  match x with
  | VObj props =>
      forallb (fun i => match assoc (nat_to_string i) props with
                        | Some _ => false
                        | None => true
                        end) (seq 0 n)
  | _ => false
  end.

(** A projection spec without nested specs: no value of it has the type
    object. *)
Definition flat_spec (props : list (string * value)) : bool :=
  forallb (fun p => negb (String.eqb (typeof (snd p)) "object")) props.

(** Whether the spec holds exactly [false] under [k]. *)
Definition explicitly_false (props : list (string * value)) (k : string)
  : bool :=
  match assoc k props with
  | Some (VBool false) => true
  | _ => false
  end.

(** A criteria that is not a non-empty text, array or dictionary. *)
Definition visits_nothing (criteria : value) : bool :=
  match criteria with
  | VStr (String _ _) | VArr (_ :: _) | VObj (_ :: _) => false
  | _ => true
  end.

(** One operand is an invalid date and the other is not a date. *)
Definition lone_invalid_date (a b : value) : bool :=
  (Where.is_invalid_date a && negb (isDate b))
  || (Where.is_invalid_date b && negb (isDate a)).

(** A value that is neither an array nor a dictionary. *)
Definition is_leaf (v : value) : bool :=
  match v with
  | VArr _ | VObj _ => false
  | _ => true
  end.

(** A value that is no dictionary and, if an array, holds neither arrays
    nor dictionaries. *)
Definition shallow (v : value) : bool :=
  match v with
  | VObj _ => false
  | VArr elems => forallb is_leaf elems
  | _ => true
  end.

End Notions.

(* ===================================================================== *)
(** * An instance of the date pattern, and sample data                    *)
(* ===================================================================== *)

Module Samples.

(** Whether [s] starts with [template], where the letter d of the
    template stands for any digit; the remaining text is returned. *)
Fixpoint starts_with (template s : string) : option string :=
  match template, s with
  | EmptyString, _ => Some s
  | String _ _, EmptyString => None
  | String t template', String c s' =>
      if (if Ascii.eqb t "d" then is_digit c else Ascii.eqb t c)
      then starts_with template' s' else None
  end.

Fixpoint skip_digits (s : string) : string :=
  match s with
  | String c s' => if is_digit c then skip_digits s' else s
  | EmptyString => EmptyString
  end.

(** Modelled from the spec: the constant [X_ISO_DATE] is required by the
    comparator but is not among the sources, and the spec says of it only
    that it is "an ISO-8601 date pattern". This instance accepts a date
    and a time of day, an optional fraction of a second, and a zone that
    is either Z or a signed hours:minutes offset. The properties of the
    comparator are stated for any pattern; this one is used where a
    concrete pattern is called for. *)
Definition iso_date_pattern (s : string) : bool :=
  match starts_with "dddd-dd-ddTdd:dd:dd" s with
  | Some r =>
      let zone :=
        match r with
        | String "." (String c r') =>
            if is_digit c then skip_digits r' else r
        | _ => r
        end in
      match zone with
      | String "Z" EmptyString => true
      | String sign offset =>
          (Ascii.eqb sign "+" || Ascii.eqb sign "-")
          && match starts_with "dd:dd" offset with
             | Some EmptyString => true
             | _ => false
             end
      | EmptyString => false
      end
  | None => false
  end.

(** Modelled from the spec: the helper [isEqFilter] is required by the
    clause validator but is not among the sources. The messages of the
    validator say of the values it accepts that they are "primitive
    values like strings, numbers, booleans, and null"; this instance
    accepts exactly those. The properties of the validator are stated for
    any helper; this one is used where a concrete helper is called for. *)
Definition primitive_eq_filter (v : value) : bool :=
  match v with
  | VStr _ | VNum _ | VBool _ | VNull => true
  | _ => false
  end.

Definition num (z : Z) : value := VNum (Fin z).
Definition obj1 (k : string) (v : value) : value := VObj [(k, v)].

(** The tuples of the null-ranking example. *)
Definition a_two_null_one : value :=
  VArr [obj1 "a" (num 2); obj1 "a" VNull; obj1 "a" (num 1)].

(** A schema hint declaring attribute [a] a date. *)
Definition schema_a_date : value := obj1 "a" (obj1 "type" (VStr "date")).

(** Three tuples with an age. *)
Definition ages : value :=
  VArr [obj1 "age" (num 20); obj1 "age" (num 30); obj1 "age" (num 40)].

(** A tuple for the criteria examples. *)
Definition kermit : value := VObj [("name", VStr "kermit"); ("age", num 30)].

(** A tuple with two attributes, and a spec that keeps all but [b]. *)
Definition tuple_ab : value := VObj [("a", num 1); ("b", num 2)].
Definition all_but_b : value := VObj [("*", VBool true); ("b", VBool false)].

(** Two tuples with a nested [pet], and a spec that keeps, of the pet, all
    but its [name]. *)
Definition pet (name : string) (age : Z) : value :=
  obj1 "pet" (VObj [("name", VStr name); ("age", num age)]).
Definition pet_all_but_name : value :=
  obj1 "pet" (VObj [("*", VBool true); ("name", VBool false)]).

End Samples.

Import Where Sort Limit Skip Select Coerce Validate Notions Samples.

(* ===================================================================== *)
(** * The stages on the examples of the specification                     *)
(* ===================================================================== *)

Section Examples.

Example empty_criteria_match_everything :
  matchSet iso_date_pattern kermit (VObj []) None (VObj []) = Ok true
  /\ matchSet iso_date_pattern kermit VNull None (VObj []) = Ok true.
Proof. split; reflexivity. Qed.

Example comparator_ignores_case :
  compare iso_date_pattern "=" (VStr "Foo") (VStr "foo") = Ok true.
Proof. reflexivity. Qed.

Example not_in_list :
  matchSet iso_date_pattern kermit
    (obj1 "name" (obj1 "!" (VArr [VStr "kermit"; VStr "piggy"])))
    None (VObj []) = Ok false
  /\ matchSet iso_date_pattern kermit
       (obj1 "name" (obj1 "!" (VArr [VStr "gonzo"; VStr "piggy"])))
       None (VObj []) = Ok true.
Proof. split; reflexivity. Qed.

Example skip_after_limit :
  skip (limit (VArr (map num [0; 1; 2; 3; 4; 5; 6])) (num 5)) (num 2)
  = VArr (map num [2; 3; 4]).
Proof. reflexivity. Qed.

Example filter_sort_limit :
  where_ iso_date_pattern ages (obj1 "age" (obj1 ">=" (num 30))) VUndefined
  = Ok (VArr [obj1 "age" (num 30); obj1 "age" (num 40)])
  /\ sort (VArr [obj1 "age" (num 30); obj1 "age" (num 40)])
          (obj1 "age" (num (-1))) None
     = Ok (VArr [obj1 "age" (num 40); obj1 "age" (num 30)])
  /\ limit (VArr [obj1 "age" (num 40); obj1 "age" (num 30)]) (num 1)
     = VArr [obj1 "age" (num 40)].
Proof. repeat split; reflexivity. Qed.

Example projection_then_splat :
  select (VArr [tuple_ab; kermit]) (VObj [("a", VBool true); ("b", VBool true)])
  = Ok (VArr [tuple_ab; VObj []],
        VObj [("a", VBool true); ("b", VBool true)])
  /\ select (VArr [tuple_ab; VObj []]) (VStr "*")
     = Ok (VArr [tuple_ab; VObj []], VStr "*").
Proof. split; reflexivity. Qed.

End Examples.

(* ===================================================================== *)
(** * Properties of the host fragment                                     *)
(* ===================================================================== *)

Section HostProperties.

Lemma get_error o k e : get o k = Err e -> e = TypeError.
Proof. destruct o; cbn; congruence. Qed.

Lemma hasOwnProperty_error o k e : hasOwnProperty o k = Err e -> e = TypeError.
Proof. destruct o; cbn; congruence. Qed.

Lemma toISOString_error t e : toISOString t = Err e -> e = RangeError.
Proof. destruct t; cbn; congruence. Qed.

Lemma toISOString_finite z : exists s, toISOString (Fin z) = Ok s.
Proof.
  unfold toISOString. destruct (civil_from_days _) as [[y m] d]. eauto.
Qed.

Lemma getTime_new_Date v : exists t, getTime (new_Date v) = Ok t.
Proof. destruct v; cbn; eauto. Qed.

Lemma assoc_In k props v : assoc k props = Some v -> In (k, v) props.
Proof.
  induction props as [|[k' v'] props IH]; cbn; [discriminate|].
  destruct (String.eqb_spec k k') as [->|Hk].
  - intros [= ->]. now left.
  - intros H. right. auto.
Qed.

End HostProperties.

(* ===================================================================== *)
(** * Properties of the collection helpers                                *)
(* ===================================================================== *)

Section CollectionProperties.

Context {A : Type}.
Variable f : A -> result bool.

Lemma holds_true (m : result bool) : holds m = true <-> m = Ok true.
Proof.
  destruct m as [[|]|e]; cbn; split; congruence.
Qed.

Lemma some_total (l : list A) :
  Forall (fun x => is_ok (f x) = true) l ->
  some f l = Ok (existsb (fun x => holds (f x)) l).
Proof.
  induction 1 as [|x l Hx _ IH]; [reflexivity|].
  cbn. destruct (f x) as [[|]|e]; cbn in *; try discriminate.
  - reflexivity.
  - exact IH.
Qed.

Lemma every_total (l : list A) :
  Forall (fun x => is_ok (f x) = true) l ->
  every f l = Ok (forallb (fun x => holds (f x)) l).
Proof.
  induction 1 as [|x l Hx _ IH]; [reflexivity|].
  cbn. destruct (f x) as [[|]|e]; cbn in *; try discriminate.
  - exact IH.
  - reflexivity.
Qed.

(** [every] stops with the error of the first element that raises one,
    when the elements before it are accepted. *)
Lemma every_reaches (before after : list A) (x : A) (e : error) :
  Forall (fun y => f y = Ok true) before ->
  f x = Err e ->
  every f (before ++ x :: after) = Err e.
Proof.
  intros Hb Hx. induction Hb as [|y l Hy _ IH]; cbn.
  - now rewrite Hx.
  - now rewrite Hy.
Qed.

(** The two accumulations of [matchOr] and [matchAnd]. *)
Lemma each_push_total (l : list A) (acc : list bool) :
  Forall (fun x => is_ok (f x) = true) l ->
  exists out,
    each (fun o x => bind (f x) (fun b => Ok (if b then true :: o else o)))
         l acc = Ok out
    /\ (0 <? List.length out)%nat
       = ((0 <? List.length acc)%nat || existsb (fun x => holds (f x)) l).
Proof.
  intros H. revert acc.
  induction H as [|x l Hx _ IH]; intros acc; cbn.
  - exists acc. now rewrite Bool.orb_false_r.
  - destruct (f x) as [[|]|e]; cbn in *; try discriminate.
    + destruct (IH (true :: acc)) as [out [Hout Hlen]].
      exists out. split; [exact Hout|].
      rewrite Hlen. cbn. now rewrite Bool.orb_true_r.
    + exact (IH acc).
Qed.

Lemma each_check_total (l : list A) (acc : bool) :
  Forall (fun x => is_ok (f x) = true) l ->
  each (fun o x => bind (f x) (fun b => Ok (if negb b then false else o)))
       l acc
  = Ok (acc && forallb (fun x => holds (f x)) l).
Proof.
  intros H. revert acc.
  induction H as [|x l Hx _ IH]; intros acc; cbn.
  - now rewrite Bool.andb_true_r.
  - destruct (f x) as [[|]|e]; cbn in *; try discriminate.
    + exact (IH acc).
    + rewrite IH. cbn. now rewrite Bool.andb_false_r.
Qed.

End CollectionProperties.

(* ===================================================================== *)
(** * Properties of the pattern matcher                                   *)
(* ===================================================================== *)

Section PatternProperties.

Lemma sqlLikeMatch_text (v p : string) :
  sqlLikeMatch (VStr v) (VStr p) = String_match v (VRegExp (translate p) "i").
Proof. reflexivity. Qed.

Lemma special_cases c :
  regexp_special c = true ->
  Ascii.eqb c "%" = false /\ is_alnum c = false.
Proof.
  unfold regexp_special. cbn [existsb]. intros H.
  repeat (apply Bool.orb_true_iff in H; destruct H as [H|H]);
    try discriminate;
    apply Ascii.eqb_eq in H; subst c; split; reflexivity.
Qed.

Lemma ordinary_cases c :
  regexp_special c = false ->
  Ascii.eqb c "$" = false /\ Ascii.eqb c "\" = false
  /\ Ascii.eqb c "." = false /\ Ascii.eqb c "*" = false
  /\ is_syntax_char c = false.
Proof.
  unfold regexp_special, is_syntax_char. cbn [existsb]. intros H.
  repeat (apply Bool.orb_false_elim in H; destruct H as [? H]).
  repeat match goal with E : Ascii.eqb c _ = false |- _ => rewrite E; clear E end.
  auto.
Qed.

(** What follows an atom of the escaped text is never a bare star. *)
Lemma body_head q :
  match body q with
  | String h _ => Ascii.eqb h "*" = false
  | EmptyString => False
  end.
Proof.
  unfold body. destruct q as [|c q]; [reflexivity|].
  cbn [escapeRegExp].
  destruct (regexp_special c) eqn:Hs; cbn [percent_to_wildcard].
  - reflexivity.
  - destruct (Ascii.eqb c "%"); cbn; [reflexivity|].
    now apply ordinary_cases.
Qed.

Lemma read_body q : read_pieces (body q) = Some (like_pieces q, true).
Proof.
  induction q as [|c q IH]; [reflexivity|].
  pose proof (body_head q) as Hh. fold (body q) in IH.
  unfold body in *. cbn [escapeRegExp].
  destruct (regexp_special c) eqn:Hs.
  - destruct (special_cases c Hs) as [Hp Ha].
    cbn [percent_to_wildcard String.append]. change (Ascii.eqb "\" "%") with false.
    cbn iota. rewrite Hp. cbn [String.append read_pieces like_pieces].
    change (Ascii.eqb "\" "$") with false.
    change (Ascii.eqb "\" "\") with true. cbn iota. rewrite Ha, Hp.
    destruct (String.append _ "$") as [|h rest]; [contradiction|].
    rewrite Hh, IH. reflexivity.
  - destruct (ordinary_cases c Hs) as (H1 & H2 & H3 & H4 & H5).
    cbn [percent_to_wildcard like_pieces].
    destruct (Ascii.eqb c "%") eqn:Hp.
    + cbn [String.append read_pieces].
      change (Ascii.eqb "." "$") with false.
      change (Ascii.eqb "." "\") with false.
      change (Ascii.eqb "." ".") with true.
      change (Ascii.eqb "*" "*") with true. cbn iota.
      now rewrite IH.
    + cbn [String.append read_pieces]. rewrite H1, H2, H3, H5.
      destruct (String.append _ "$") as [|h rest]; [contradiction|].
      rewrite Hh, IH. reflexivity.
Qed.

Lemma read_translation p :
  read_regex (translate p)
  = Some (mkRegex true (like_pieces (unescape_percent p)) true).
Proof.
  unfold translate, read_regex. cbn [String.append].
  fold (body (unescape_percent p)). now rewrite read_body.
Qed.

(** The pattern matcher on two texts: a full-string, case-insensitive
    match of the text against the pieces of the pattern, every percent
    sign left by the handling of escapes being a wildcard. *)
Lemma sqlLikeMatch_pieces (v p : string) :
  sqlLikeMatch (VStr v) (VStr p)
  = Ok (match_pieces true true (like_pieces (unescape_percent p)) v).
Proof.
  rewrite sqlLikeMatch_text. unfold String_match.
  rewrite read_translation. reflexivity.
Qed.

(** C3. On two texts the pattern matcher is a full-string,
    case-insensitive match against the translation of the pattern, in
    which the metacharacters are escaped and every percent sign is a
    wildcard: "hello%" and "%world" match "hello world". The sequence of
    three percent signs is first rewritten to one percent sign, and that
    sign is then turned into a wildcard like any other: "a%%%b%c" is
    translated as "a%b%c" is, and it matches "abc" and "aXbc", neither of
    which holds a percent sign. *)
Theorem escaped_percent_is_a_wildcard :
  (forall v p : string,
      sqlLikeMatch (VStr v) (VStr p)
      = Ok (match_pieces true true (like_pieces (unescape_percent p)) v))
  /\ sqlLikeMatch (VStr "hello world") (VStr "hello%") = Ok true
  /\ sqlLikeMatch (VStr "hello world") (VStr "%world") = Ok true
  /\ unescape_percent "a%%%b%c" = "a%b%c"
  /\ translate "a%%%b%c" = "^a.*b.*c$"
  /\ like_pieces (unescape_percent "a%%%b%c")
     = [POne (AChar "a"); PStar ADot; POne (AChar "b"); PStar ADot;
        POne (AChar "c")]
  /\ sqlLikeMatch (VStr "abc") (VStr "a%%%b%c") = Ok true
  /\ sqlLikeMatch (VStr "aXbc") (VStr "a%%%b%c") = Ok true
  /\ sqlLikeMatch (VStr "a%bc") (VStr "a%%%b%c") = Ok true.
Proof.
  split; [exact sqlLikeMatch_pieces|].
  repeat split; reflexivity.
Qed.

End PatternProperties.

(* ===================================================================== *)
(** * Properties of the literal match                                     *)
(* ===================================================================== *)

Section LiteralProperties.

Variable X_ISO_DATE : string -> bool.

(** Without a schema hint, a missing attribute is a soft mismatch. *)
Lemma matchLiteral_absent_without_hint props key criterion matchFn :
  assoc key props = None ->
  matchLiteral (VObj props) key criterion matchFn (VObj []) = Ok false.
Proof.
  intros Habs. unfold matchLiteral, get, hasOwnProperty. rewrite Habs. cbn.
  rewrite Bool.andb_false_r. reflexivity.
Qed.

Lemma date_hint schema key :
  declares_date schema key = true ->
  (if ToBoolean schema then
     bind (get schema key)
          (fun sk => if ToBoolean sk then get sk "type" else Ok sk)
   else Ok schema) = Ok (VStr "date").
Proof.
  unfold declares_date.
  destruct (get schema key) as [sk|e]; [|discriminate].
  destruct (get sk "type") as [ty|e] eqn:Hget; [|discriminate].
  intros H. apply Bool.andb_true_iff in H. destruct H as [H Hty].
  apply Bool.andb_true_iff in H. destruct H as [-> Hsk].
  cbn [bind]. rewrite Hsk, Hget.
  destruct ty; try discriminate. unfold strict_eq_text in Hty.
  apply String.eqb_eq in Hty. now subst.
Qed.

(** C6. With a schema hint that declares the attribute a date, the
    literal match converts the attribute value and the criterion to ISO
    strings before it looks for the attribute: on a tuple without the
    attribute, and on an undefined criterion, the conversion of an invalid
    date raises a RangeError and no boolean is returned. *)
Theorem matchLiteral_date_hint_raises :
  (forall props key criterion matchFn schema,
      declares_date schema key = true ->
      assoc key props = None ->
      matchLiteral (VObj props) key criterion matchFn schema
      = Err RangeError)
  /\ (forall props key matchFn schema,
        declares_date schema key = true ->
        matchLiteral (VObj props) key VUndefined matchFn schema
        = Err RangeError)
  /\ (forall criterion matchFn,
        matchLiteral (VObj []) "a" criterion matchFn schema_a_date
        = Err RangeError)
  /\ (forall matchFn,
        matchLiteral (obj1 "a" (VStr "2020-01-01")) "a" VUndefined matchFn
          schema_a_date = Err RangeError).
Proof.
  split; [|split; [|split; reflexivity]].
  - intros props key criterion matchFn schema Hs Ha.
    unfold matchLiteral. cbn [get]. rewrite Ha. cbn [bind].
    rewrite (date_hint schema key Hs). reflexivity.
  - intros props key matchFn schema Hs.
    unfold matchLiteral. cbn [get bind].
    rewrite (date_hint schema key Hs). cbn [bind].
    change (ToBoolean (VStr "date") && strict_eq_text (VStr "date") "date")
      with true.
    cbv iota. unfold cloneDeep.
    destruct (getTime_new_Date
                (match assoc key props with Some v => v | None => VUndefined end))
      as [t ->].
    cbn [bind]. destruct (toISOString t) as [iso|e] eqn:Hiso; cbn [bind].
    + reflexivity.
    + now rewrite (toISOString_error _ _ Hiso).
Qed.

(** C2. [isNumbery] squares the number and tests the square to be
    positive, so it rejects 0: the texts "0" and "00" both denote the
    finite number 0 and are compared as texts, not as numbers, and the
    equality filter does not match; "3" and "03", and 3 and "3", are cast
    and match. The infinities pass the test. *)
Theorem isNumbery_rejects_zero
    (Hzero : X_ISO_DATE "0" = false) :
  ToNumber (VStr "0") = Fin 0 /\ ToNumber (VStr "00") = Fin 0
  /\ parses_as_finite_number (VStr "0") = true
  /\ parses_as_finite_number (VStr "00") = true
  /\ isNumbery (VStr "0") = false /\ isNumbery (num 0) = false
  /\ matchLiteral (obj1 "a" (VStr "0")) "a" (VStr "00")
       (compare X_ISO_DATE "=") (VObj []) = Ok false
  /\ matchLiteral (obj1 "a" (VStr "3")) "a" (VStr "03")
       (compare X_ISO_DATE "=") (VObj []) = Ok true
  /\ matchLiteral (obj1 "a" (num 3)) "a" (VStr "3")
       (compare X_ISO_DATE "=") (VObj []) = Ok true
  /\ parses_as_finite_number (VNum (Inf false)) = false
  /\ isNumbery (VNum (Inf false)) = true
  /\ (forall v, ToNumber v = Fin 0 ->
                 parses_as_finite_number v = true /\ isNumbery v = false).
Proof.
  repeat split; try reflexivity.
  - unfold matchLiteral, compare, normalizeComparison. cbn.
    rewrite Hzero. reflexivity.
  - unfold parses_as_finite_number. now rewrite H.
  - unfold isNumbery. rewrite H. now destruct (isDate v).
Qed.

End LiteralProperties.

Lemma isNumbery_rejects_zero_witness :
  iso_date_pattern "0" = false
  /\ matchLiteral (obj1 "a" (VStr "0")) "a" (VStr "00")
       (compare iso_date_pattern "=") (VObj []) = Ok false.
Proof.
  split; [reflexivity|].
  apply (isNumbery_rejects_zero iso_date_pattern). reflexivity.
Defined.

(* ===================================================================== *)
(** * Properties of the criteria evaluator                                *)
(* ===================================================================== *)

Section EvaluatorProperties.

Variable X_ISO_DATE : string -> bool.

Local Abbreviation matchSet := (Where.matchSet X_ISO_DATE).
Local Abbreviation matchItem := (Where.matchItem X_ISO_DATE).
Local Abbreviation matchOr := (Where.matchOr X_ISO_DATE).
Local Abbreviation matchAnd := (Where.matchAnd X_ISO_DATE).
Local Abbreviation compare := (Where.compare X_ISO_DATE).
Local Abbreviation normalizeComparison := (Where.normalizeComparison X_ISO_DATE).

(** A dictionary is visited entry by entry unless it is array-like. *)
Lemma matchSet_dictionary model props parentKey schema :
  array_like_length (VObj props) = None ->
  matchSet model (VObj props) parentKey schema
  = every (fun '(key, criterion) =>
             matchItem model key criterion parentKey schema) props.
Proof.
  intros H. cbn [Where.matchSet ToBoolean negb]. now rewrite H.
Qed.

Lemma single_not_array_like key criterion :
  isNumber criterion = false ->
  array_like_length (obj1 key criterion) = None.
Proof.
  intros H. unfold obj1, array_like_length. cbn [assoc].
  destruct (String.eqb "length" key); [|reflexivity].
  destruct criterion; try reflexivity. discriminate.
Qed.

Lemma matchSet_single model key criterion parentKey schema :
  array_like_length (obj1 key criterion) = None ->
  matchSet model (obj1 key criterion) parentKey schema
  = bind (matchItem model key criterion parentKey schema) Ok.
Proof.
  intros H. unfold obj1 in *.
  rewrite matchSet_dictionary by exact H.
  cbn [every].
  destruct (matchItem model key criterion parentKey schema) as [[|]|e];
    reflexivity.
Qed.

Lemma matchOr_list model L schema :
  Forall (fun c => is_ok (matchSet model c None schema) = true) L ->
  matchOr model (VArr L) schema
  = Ok (existsb (fun c => holds (matchSet model c None schema)) L).
Proof.
  intros H. unfold Where.matchOr, matchOrF.
  destruct (each_push_total (fun c => matchSet model c None schema) L [] H)
    as [out [Hout Hlen]].
  rewrite Hout. unfold bind. rewrite Hlen.
  change ((0 <? List.length (@nil bool))%nat) with false.
  now destruct (existsb _ L).
Qed.

Lemma matchAnd_list model L schema :
  Forall (fun c => is_ok (matchSet model c None schema) = true) L ->
  matchAnd model (VArr L) schema
  = Ok (forallb (fun c => holds (matchSet model c None schema)) L).
Proof.
  intros H. unfold Where.matchAnd, matchAndF.
  now rewrite (each_check_total (fun c => matchSet model c None schema) L true H).
Qed.

Lemma existsb_false_iff {B : Type} (p : B -> bool) (l : list B) :
  existsb p l = false <-> forall x, In x l -> p x = false.
Proof.
  split.
  - intros H x Hx. destruct (p x) eqn:E; [|reflexivity].
    assert (existsb p l = true) by (apply existsb_exists; eauto). congruence.
  - intros H. destruct (existsb p l) eqn:E; [|reflexivity].
    apply existsb_exists in E. destruct E as [x [Hx Hp]].
    rewrite (H x Hx) in Hp. discriminate.
Qed.

Lemma forallb_false_iff {B : Type} (p : B -> bool) (l : list B) :
  forallb p l = false <-> exists x, In x l /\ p x = false.
Proof.
  induction l as [|y l IH]; cbn.
  - split; [discriminate|]. intros [x [[] _]].
  - rewrite Bool.andb_false_iff, IH. split.
    + intros [H|[x [Hx Hp]]]; eauto.
    + intros [x [[->|Hx] Hp]]; eauto.
Qed.

(** C4. On a tuple [t] and a list [L] of criteria that each evaluate to a
    boolean, the criterion {or: L} matches iff some criterion of [L]
    matches, and does not match when [L] is empty; the criterion {and: L}
    matches iff every criterion of [L] matches, and matches when [L] is
    empty. *)
Theorem or_and_over_lists (t schema : value) (L : list value)
    (Hok : Forall (fun c => is_ok (matchSet t c None schema) = true) L) :
  let matches c := matchSet t c None schema in
  (matches (obj1 "or" (VArr L)) = Ok true
   <-> exists c, In c L /\ matches c = Ok true)
  /\ (matches (obj1 "or" (VArr L)) = Ok false
      <-> forall c, In c L -> matches c = Ok false)
  /\ matches (obj1 "or" (VArr [])) = Ok false
  /\ (matches (obj1 "and" (VArr L)) = Ok true
      <-> forall c, In c L -> matches c = Ok true)
  /\ (matches (obj1 "and" (VArr L)) = Ok false
      <-> exists c, In c L /\ matches c = Ok false)
  /\ matches (obj1 "and" (VArr [])) = Ok true.
Proof.
  intros matches.
  assert (Hor : matches (obj1 "or" (VArr L))
                = Ok (existsb (fun c => holds (matches c)) L)).
  { unfold matches. rewrite matchSet_single by reflexivity.
    change (matchItem t "or" (VArr L) None schema)
      with (matchOr t (VArr L) schema).
    now rewrite matchOr_list. }
  assert (Hand : matches (obj1 "and" (VArr L))
                 = Ok (forallb (fun c => holds (matches c)) L)).
  { unfold matches. rewrite matchSet_single by reflexivity.
    change (matchItem t "and" (VArr L) None schema)
      with (matchAnd t (VArr L) schema).
    now rewrite matchAnd_list. }
  assert (Hbool : forall c, In c L ->
            (holds (matches c) = false <-> matches c = Ok false)).
  { intros c Hc. rewrite Forall_forall in Hok. specialize (Hok c Hc).
    fold (matches c) in Hok.
    destruct (matches c) as [[|]|e]; cbn in *; split; congruence. }
  repeat split.
  - rewrite Hor. intros [= H]. apply existsb_exists in H.
    destruct H as [c [Hc H]]. exists c. split; [exact Hc|].
    now apply holds_true.
  - intros [c [Hc H]]. rewrite Hor. f_equal. apply existsb_exists.
    exists c. split; [exact Hc|]. now apply holds_true.
  - rewrite Hor. intros [= H] c Hc. apply Hbool; [exact Hc|].
    revert c Hc. now apply existsb_false_iff.
  - intros H. rewrite Hor. f_equal. apply existsb_false_iff.
    intros c Hc. apply Hbool; auto.
  - rewrite Hand. intros [= H] c Hc. apply holds_true.
    revert c Hc. now apply forallb_forall.
  - intros H. rewrite Hand. f_equal. apply forallb_forall.
    intros c Hc. apply holds_true. auto.
  - rewrite Hand. intros [= H]. apply forallb_false_iff in H.
    destruct H as [c [Hc H]]. exists c. split; [exact Hc|].
    now apply Hbool.
  - intros [c [Hc H]]. rewrite Hand. f_equal. apply forallb_false_iff.
    exists c. split; [exact Hc|]. now apply Hbool.
Qed.

(** The criterion {not: c} negates [c]. *)
Lemma not_negates t c schema :
  matchSet t (obj1 "not" c) None schema
  = bind (matchSet t c None schema) (fun b => Ok (negb b)).
Proof.
  rewrite matchSet_single by reflexivity.
  change (matchItem t "not" c None schema)
    with (Where.matchNot X_ISO_DATE t c schema).
  unfold Where.matchNot, matchNotF.
  now destruct (matchSet t c None schema).
Qed.

(** *** Attribute-scoped mode *)

Lemma matchItem_unknown_modifier model key criterion parentKey schema :
  parentKey <> "" ->
  member key modifier_keys = false ->
  matchItem model key criterion (Some parentKey) schema
  = Err InvalidQuerySyntax.
Proof.
  intros Hpk H. destruct parentKey as [|p0 parentKey]; [congruence|].
  unfold member, modifier_keys in H. cbn [existsb] in H.
  repeat (apply Bool.orb_false_elim in H; destruct H as [? H]).
  unfold Where.matchItem, matchItemF, member. cbn [existsb].
  repeat match goal with
         | E : String.eqb key _ = false |- _ => rewrite E; clear E
         end.
  reflexivity.
Qed.

Lemma not_combinator key :
  member (toLowerCase key) combinator_keys = false ->
  String.eqb (toLowerCase key) "or" = false
  /\ String.eqb (toLowerCase key) "not" = false
  /\ String.eqb (toLowerCase key) "and" = false
  /\ String.eqb (toLowerCase key) "like" = false.
Proof.
  unfold member, combinator_keys. cbn [existsb]. intros H.
  repeat (apply Bool.orb_false_elim in H; destruct H as [? H]).
  auto.
Qed.

Lemma matchItem_enters_scoped_mode model attr props schema :
  member (toLowerCase attr) combinator_keys = false ->
  validSubAttrCriteria (VObj props) = true ->
  matchItem model attr (VObj props) None schema
  = matchSet model (VObj props) (Some attr) schema.
Proof.
  intros Hc Hv. apply not_combinator in Hc.
  destruct Hc as (H1 & H2 & H3 & H4).
  unfold Where.matchItem, matchItemF.
  rewrite H1, H2, H3, H4, Hv. reflexivity.
Qed.

Lemma matchItem_literal_when_unrecognized model attr props schema :
  member (toLowerCase attr) combinator_keys = false ->
  validSubAttrCriteria (VObj props) = false ->
  matchItem model attr (VObj props) None schema
  = matchLiteral model attr (VObj props) (compare "=") schema.
Proof.
  intros Hc Hv. apply not_combinator in Hc.
  destruct Hc as (H1 & H2 & H3 & H4).
  unfold Where.matchItem, matchItemF.
  rewrite H1, H2, H3, H4, Hv. reflexivity.
Qed.

(** The errors of the comparator and of the literal match. *)

Lemma normalizeComparison_error a b e :
  normalizeComparison a b = Err e -> e = RangeError.
Proof.
  unfold Where.normalizeComparison.
  destruct a as [| | | | | ta | | |], b as [| | | | | tb | | |];
    cbn -[toISOString ToString toLowerCase Date_parse];
    repeat match goal with
           | |- context [toISOString ?t] =>
               let E := fresh "E" in
               destruct (toISOString t) eqn:E;
               [|apply toISOString_error in E];
               cbn -[toISOString ToString toLowerCase Date_parse]
           | |- context [if ?c then _ else _] => destruct c
           end;
    congruence.
Qed.

Lemma compare_error op a b e :
  compare op a b = Err e -> e = RangeError \/ e = TypeError.
Proof.
  unfold Where.compare.
  destruct (normalizeComparison a b) as [[x0 x1]|e'] eqn:E; cbn.
  - repeat match goal with
           | |- context [if ?c then _ else _] => destruct c
           end; intros [= <-]; auto.
  - intros [= <-]. left. eapply normalizeComparison_error; eauto.
Qed.

Ltac split_error H :=
  repeat match type of H with
         | bind ?m _ = Err _ =>
             let E := fresh "E" in destruct m eqn:E; cbn [bind] in H
         | (if ?c then _ else _) = Err _ => destruct c
         | (let '(_, _) := ?p in _) = Err _ => destruct p
         | (let '(_, _) := (if ?c then _ else _) in _) = Err _ => destruct c
         end.

Lemma matchLiteral_error model key criterion matchFn schema e :
  (forall v c e', matchFn v c = Err e' -> e' = RangeError \/ e' = TypeError) ->
  matchLiteral model key criterion matchFn schema = Err e ->
  e = RangeError \/ e = TypeError.
Proof.
  intros Hfn H. unfold matchLiteral in H.
  destruct (get model key) as [v|e0] eqn:Eg; cbn [bind] in H;
    [|injection H as <-; right; eapply get_error; eauto].
  match type of H with
  | bind ?m _ = _ => destruct m as [hint|e0] eqn:Eh; cbn [bind] in H
  end.
  2:{ injection H as <-. right. split_error Eh; try discriminate.
      - eauto using get_error.
      - injection Eh as <-. eauto using get_error. }
  match type of H with
  | bind ?m _ = _ => destruct m as [[val c]|e0] eqn:Ec; cbn [bind] in H
  end.
  2:{ injection H as <-. left. split_error Ec; try discriminate;
      injection Ec as <-;
      match goal with
      | E : toISOString _ = Err _ |- _ => eapply toISOString_error; exact E
      | E : getTime (new_Date ?x) = Err _ |- _ =>
          destruct (getTime_new_Date x); congruence
      end. }
  split_error H; try discriminate;
    injection H as <-;
    first [ now eauto | right; eauto using hasOwnProperty_error ].
Qed.

(** *** The IN filter *)

Lemma normalizeComparison_absent v :
  X_ISO_DATE "" = false ->
  is_invalid_date v = false ->
  exists y, normalizeComparison VUndefined v = Ok (VStr "", y).
Proof.
  intros HX Hv. unfold Where.normalizeComparison.
  destruct v as [| | | | | [|neg|z] | | |]; try discriminate;
    cbn -[toISOString Date_parse];
    try rewrite HX; cbn [andb]; eauto.
  destruct (toISOString_finite z) as [iso ->].
  cbn -[Date_parse]. eauto.
Qed.

Lemma compare_eq_absent v :
  X_ISO_DATE "" = false ->
  is_invalid_date v = false ->
  exists y, normalizeComparison VUndefined v = Ok (VStr "", y)
            /\ compare "=" VUndefined v = Ok (loose_eq (VStr "") y).
Proof.
  intros HX Hv. destruct (normalizeComparison_absent v HX Hv) as [y Hy].
  exists y. split; [exact Hy|]. unfold Where.compare. now rewrite Hy.
Qed.

Lemma matchItem_in_filter model k L schema :
  member (toLowerCase k) combinator_keys = false ->
  matchItem model k (VArr L) None schema
  = some (fun val => bind (get model k) (fun v => compare "=" v val)) L.
Proof.
  intros Hc. apply not_combinator in Hc.
  destruct Hc as (H1 & H2 & H3 & H4).
  unfold Where.matchItem, matchItemF.
  now rewrite H1, H2, H3, H4.
Qed.

(** C9. On a tuple without the attribute [k], the IN filter {k: L} makes
    no presence check: each element of [L] is compared with the undefined
    value, which the comparator normalizes to the empty text, and the
    filter matches exactly when some element, once normalized, is loosely
    equal to the empty text; so it matches when [L] holds null or the
    empty text. The equality filter {k: null} on the same tuple does not
    match. (The elements of [L] are values the comparator accepts, and the
    empty text is not a date for the pattern.) *)
Theorem in_filter_on_absent_attribute
    (props : list (string * value)) (k : string) (L : list value)
    (schema : value)
    (Habsent : assoc k props = None)
    (Hattr : member (toLowerCase k) combinator_keys = false)
    (Hempty : X_ISO_DATE "" = false)
    (Hvalid : Forall (fun v => is_invalid_date v = false) L) :
  let t := VObj props in
  (exists b, matchSet t (obj1 k (VArr L)) None schema = Ok b)
  /\ (matchSet t (obj1 k (VArr L)) None schema = Ok true
      <-> exists v y, In v L
                      /\ normalizeComparison VUndefined v = Ok (VStr "", y)
                      /\ loose_eq (VStr "") y = true)
  /\ (In VNull L \/ In (VStr "") L ->
      matchSet t (obj1 k (VArr L)) None schema = Ok true)
  /\ matchSet t (obj1 k VNull) None (VObj []) = Ok false
  /\ matchSet t (obj1 k (VStr "")) None (VObj []) = Ok false.
Proof.
  intros t.
  assert (Hin : matchSet t (obj1 k (VArr L)) None schema
                = Ok (existsb (fun v => holds (compare "=" VUndefined v)) L)).
  { rewrite matchSet_single by now apply single_not_array_like.
    rewrite matchItem_in_filter by assumption.
    unfold t, get. rewrite Habsent. cbn [bind].
    rewrite some_total; [reflexivity|].
    eapply Forall_impl; [|exact Hvalid]. intros v Hv.
    destruct (compare_eq_absent v Hempty Hv) as [y [_ ->]]. reflexivity. }
  assert (Hiff : matchSet t (obj1 k (VArr L)) None schema = Ok true
                 <-> exists v y, In v L
                      /\ normalizeComparison VUndefined v = Ok (VStr "", y)
                      /\ loose_eq (VStr "") y = true).
  { rewrite Hin. split.
    - intros [= H]. apply existsb_exists in H. destruct H as [v [Hv H]].
      rewrite Forall_forall in Hvalid.
      destruct (compare_eq_absent v Hempty (Hvalid v Hv)) as [y [Hy Hc]].
      exists v, y. apply holds_true in H. rewrite Hc in H.
      injection H as H. auto.
    - intros (v & y & Hv & Hy & Hl). f_equal. apply existsb_exists.
      exists v. split; [exact Hv|].
      rewrite Forall_forall in Hvalid.
      destruct (compare_eq_absent v Hempty (Hvalid v Hv)) as [y' [Hy' Hc]].
      rewrite Hy in Hy'. injection Hy' as <-.
      now rewrite Hc, Hl. }
  split; [eauto|]. split; [exact Hiff|]. split; [|split].
  - intros [H|H]; apply Hiff.
    + exists VNull, (VStr ""). split; [exact H|].
      unfold Where.normalizeComparison. cbn. rewrite Hempty. auto.
    + exists (VStr ""), (VStr ""). split; [exact H|].
      unfold Where.normalizeComparison. cbn. rewrite Hempty. auto.
  - rewrite matchSet_single by now apply single_not_array_like.
    assert (Hlit : matchItem t k VNull None (VObj [])
                   = matchLiteral t k VNull (compare "=") (VObj [])).
    { apply not_combinator in Hattr. destruct Hattr as (H1 & H2 & H3 & H4).
      unfold Where.matchItem, matchItemF. now rewrite H1, H2, H3, H4. }
    rewrite Hlit. unfold t.
    now rewrite matchLiteral_absent_without_hint.
  - rewrite matchSet_single by now apply single_not_array_like.
    assert (Hlit : matchItem t k (VStr "") None (VObj [])
                   = matchLiteral t k (VStr "") (compare "=") (VObj [])).
    { apply not_combinator in Hattr. destruct Hattr as (H1 & H2 & H3 & H4).
      unfold Where.matchItem, matchItemF. now rewrite H1, H2, H3, H4. }
    rewrite Hlit. unfold t.
    now rewrite matchLiteral_absent_without_hint.
Qed.

(** *** Dates and date-like texts *)

Lemma normalizeComparison_lone_date a t iso :
  isDate a = false -> isNumber a = false ->
  toISOString (Fin t) = Ok iso ->
  X_ISO_DATE (operand_text a) = true -> X_ISO_DATE iso = true ->
  normalizeComparison a (VDate (Fin t))
  = Ok (VNum (Date_parse (operand_text a)), VNum (Date_parse iso))
  /\ normalizeComparison (VDate (Fin t)) a
     = Ok (VNum (Date_parse iso), VNum (Date_parse (operand_text a))).
Proof.
  intros Hd Hn Hiso Ha Hi. unfold Where.normalizeComparison, operand_text in *.
  destruct a; try discriminate;
    cbn -[toISOString Date_parse] in *; rewrite Hiso;
    cbn -[Date_parse]; rewrite Ha, Hi; split; reflexivity.
Qed.

(** C5. When one operand is a date and the other is neither a date nor
    a number, the date is converted to its ISO string and the other
    operand to its text; if both texts match the ISO date pattern, both are
    parsed again as dates and the comparator works on the two time values.
    Under a pattern that accepts the ISO text of midnight, 1 January 2020,
    that text is equal to the date made from "2020-01-01". *)
Theorem date_like_texts_compare_as_dates :
  (forall a t iso,
      isDate a = false -> isNumber a = false ->
      toISOString (Fin t) = Ok iso ->
      X_ISO_DATE (operand_text a) = true -> X_ISO_DATE iso = true ->
      normalizeComparison a (VDate (Fin t))
      = Ok (VNum (Date_parse (operand_text a)), VNum (Date_parse iso))
      /\ normalizeComparison (VDate (Fin t)) a
         = Ok (VNum (Date_parse iso), VNum (Date_parse (operand_text a)))
      /\ compare "=" a (VDate (Fin t))
         = Ok (number_eqb (Date_parse (operand_text a)) (Date_parse iso)))
  /\ (X_ISO_DATE "2020-01-01T00:00:00.000Z" = true ->
      compare "=" (VStr "2020-01-01T00:00:00.000Z")
                  (new_Date (VStr "2020-01-01")) = Ok true).
Proof.
  assert (G : forall a t iso,
      isDate a = false -> isNumber a = false ->
      toISOString (Fin t) = Ok iso ->
      X_ISO_DATE (operand_text a) = true -> X_ISO_DATE iso = true ->
      normalizeComparison a (VDate (Fin t))
      = Ok (VNum (Date_parse (operand_text a)), VNum (Date_parse iso))
      /\ normalizeComparison (VDate (Fin t)) a
         = Ok (VNum (Date_parse iso), VNum (Date_parse (operand_text a)))
      /\ compare "=" a (VDate (Fin t))
         = Ok (number_eqb (Date_parse (operand_text a)) (Date_parse iso))).
  { intros a t iso Hd Hn Hiso Ha Hi.
    destruct (normalizeComparison_lone_date a t iso Hd Hn Hiso Ha Hi)
      as [H1 H2].
    repeat split; [exact H1|exact H2|].
    unfold Where.compare. rewrite H1. reflexivity. }
  split; [exact G|].
  intros HX.
  destruct (G (VStr "2020-01-01T00:00:00.000Z") 1577836800000
              "2020-01-01T00:00:00.000Z") as (_ & _ & Hc);
    try reflexivity; try exact HX.
  exact Hc.
Qed.

End EvaluatorProperties.

(** The instances of the evaluator properties on sample data. *)

Lemma or_and_over_lists_witness :
  let L := [obj1 "name" (VStr "Kermit"); obj1 "age" (VStr "40")] in
  Forall (fun c => is_ok (matchSet iso_date_pattern kermit c None (VObj []))
                   = true) L
  /\ (matchSet iso_date_pattern kermit (obj1 "or" (VArr L)) None (VObj [])
      = Ok true
      <-> exists c, In c L
                    /\ matchSet iso_date_pattern kermit c None (VObj [])
                       = Ok true).
Proof.
  intros L. assert (H : Forall
    (fun c => is_ok (matchSet iso_date_pattern kermit c None (VObj []))
              = true) L) by (repeat constructor).
  split; [exact H|].
  exact (proj1 (or_and_over_lists iso_date_pattern kermit (VObj []) L H)).
Defined.

Lemma in_filter_on_absent_attribute_witness :
  matchSet iso_date_pattern kermit
    (obj1 "species" (VArr [VStr "frog"; VNull])) None (VObj [])
  = Ok true.
Proof.
  apply (in_filter_on_absent_attribute iso_date_pattern
           [("name", VStr "kermit"); ("age", num 30)] "species"
           [VStr "frog"; VNull] (VObj [])).
  - reflexivity.
  - reflexivity.
  - reflexivity.
  - repeat constructor.
  - left. right. left. reflexivity.
Defined.

Lemma date_like_texts_compare_as_dates_witness :
  iso_date_pattern "2020-01-01T00:00:00.000Z" = true
  /\ compare iso_date_pattern "=" (VStr "2020-01-01T00:00:00.000Z")
       (new_Date (VStr "2020-01-01")) = Ok true.
Proof.
  split; [reflexivity|].
  apply (proj2 (date_like_texts_compare_as_dates iso_date_pattern)).
  reflexivity.
Defined.

(* ===================================================================== *)
(** * Properties of the sort stage                                        *)
(* ===================================================================== *)

Section InsertionByClass.

(** Insertion keeps the elements of a class in front of the others, as
    soon as the comparison function puts each element of the class before
    each of the others; nothing is asked of it within a class. *)

Variable comparefn : value -> value -> result value.
Variable dom : value -> Prop.
Variable first : value -> bool.

Hypothesis comparefn_total :
  forall x y, dom x -> dom y -> exists b, sorts_before comparefn x y = Ok b.
Hypothesis class_goes_before :
  forall x y, dom x -> dom y -> first x = true -> first y = false ->
              sorts_before comparefn x y = Ok true.
Hypothesis others_go_after :
  forall x y, dom x -> dom y -> first x = false -> first y = true ->
              sorts_before comparefn x y = Ok false.
Hypothesis dom_defined : forall x, dom x -> isUndefined x = false.

Lemma insert_by_class x l :
  dom x -> Forall dom l -> class_ordered first l ->
  exists l', insert comparefn x l = Ok l'
             /\ Permutation (x :: l) l'
             /\ class_ordered first l'.
Proof.
  intros Hx Hl. induction Hl as [|y l Hy Hl IH]; intros Hord.
  - exists [x]. cbn. repeat split; auto.
  - destruct Hord as [Hhead Hord]. cbn [insert].
    destruct (comparefn_total x y Hx Hy) as [[|] Hb]; rewrite Hb; cbn [bind].
    + exists (x :: y :: l). split; [reflexivity|]. split; [apply Permutation_refl|].
      cbn [class_ordered]. repeat split; auto.
      intros Hfx. destruct (first y) eqn:Hfy.
      * rewrite (others_go_after x y Hx Hy Hfx Hfy) in Hb. discriminate.
      * constructor; auto.
    + destruct (IH Hord) as [r [Hr [Hperm Hordr]]].
      rewrite Hr. cbn [bind]. exists (y :: r).
      split; [reflexivity|]. split.
      * rewrite perm_swap. now apply perm_skip.
      * cbn [class_ordered]. split; [|exact Hordr].
        intros Hfy. eapply Permutation_Forall; [exact Hperm|].
        constructor; [|auto].
        destruct (first x) eqn:Hfx; [|reflexivity].
        rewrite (class_goes_before x y Hx Hy Hfx Hfy) in Hb. discriminate.
Qed.

Lemma insert_all_by_class l acc :
  Forall dom l -> Forall dom acc -> class_ordered first acc ->
  exists out, each (fun acc x => insert comparefn x acc) l acc = Ok out
              /\ Permutation (l ++ acc) out
              /\ class_ordered first out.
Proof.
  intros Hl. revert acc. induction Hl as [|x l Hx Hl IH]; intros acc Hacc Hord.
  - exists acc. cbn. auto.
  - cbn [each].
    destruct (insert_by_class x acc Hx Hacc Hord) as [acc' [Hi [Hp Ho]]].
    rewrite Hi. cbn [bind].
    destruct (IH acc') as [out [He [Hpo Hoo]]]; [|exact Ho|].
    + eapply Permutation_Forall; [exact Hp|]. now constructor.
    + exists out. split; [exact He|]. split; [|exact Hoo].
      rewrite <- Hpo. cbn. rewrite <- Hp. apply Permutation_middle.
Qed.

Lemma filter_defined l :
  Forall dom l ->
  List.filter (fun v => negb (isUndefined v)) l = l
  /\ List.filter isUndefined l = [].
Proof.
  induction 1 as [|x l Hx _ [IH1 IH2]]; [auto|].
  cbn. rewrite (dom_defined x Hx). cbn. now rewrite IH1, IH2.
Qed.

Lemma Array_sort_by_class l :
  Forall dom l ->
  exists out, Array_sort comparefn l = Ok out
              /\ Permutation l out
              /\ class_ordered first out.
Proof.
  intros Hl. unfold Array_sort.
  destruct (filter_defined l Hl) as [-> ->].
  destruct (insert_all_by_class l [] Hl) as [out [He [Hp Ho]]];
    [constructor|exact I|].
  rewrite He. cbn [bind]. exists (out ++ [])%list.
  rewrite !app_nil_r in *. auto.
Qed.

Lemma class_ordered_split l :
  class_ordered first l ->
  exists lo hi, l = (lo ++ hi)%list
                /\ Forall (fun x => first x = true) lo
                /\ Forall (fun x => first x = false) hi.
Proof.
  induction l as [|y l IH]; intros Hord.
  - exists [], []. auto.
  - destruct Hord as [Hhead Hord]. destruct (first y) eqn:Hfy.
    + destruct (IH Hord) as (lo & hi & -> & Hlo & Hhi).
      exists (y :: lo), hi. repeat split; auto.
    + exists [], (y :: l). repeat split; auto.
Qed.

End InsertionByClass.

Section SortProperties.

Lemma rank_of_dictionary props k :
  rankSpecialCase (VObj props) k = Ok (ranked k (VObj props)).
Proof.
  unfold ranked, rankSpecialCase. cbn [get bind].
  now destruct (_ || _).
Qed.

Lemma flag_step_dictionary pa pb flag attr dir :
  exists v,
    flag_step rankSpecialCase (VObj pa) (VObj pb) flag (KStr attr, dir) = Ok v
    /\ (ToBoolean flag = true -> v = flag).
Proof.
  unfold flag_step. cbn [key_name]. rewrite !rank_of_dictionary.
  cbn [bind get]. unfold js_or.
  destruct (ranked attr (VObj pa)), (ranked attr (VObj pb)); cbn [negb andb bind];
    repeat match goal with
           | |- context [if ?c then _ else _] => destruct c eqn:?
           end;
    cbn [bind]; eexists; split; try reflexivity; congruence.
Qed.

Lemma reduce_dictionary pa pb l flag :
  exists v,
    each (flag_step rankSpecialCase (VObj pa) (VObj pb))
         (map (fun '(k, v) => (KStr k, v)) l) flag = Ok v
    /\ (ToBoolean flag = true -> v = flag).
Proof.
  revert flag. induction l as [|[attr dir] l IH]; intros flag; cbn [map each].
  - eauto.
  - destruct (flag_step_dictionary pa pb flag attr dir) as [v [Hv Hkeep]].
    rewrite Hv. cbn [bind]. destruct (IH v) as [w [Hw Hkeep']].
    exists w. split; [exact Hw|]. intros Hflag.
    rewrite (Hkeep Hflag) in *. auto.
Qed.

Lemma compare_dictionaries_total vec x y :
  array_like_length (VObj vec) = None ->
  is_dictionary x -> is_dictionary y ->
  exists b, sorts_before (_compare (VObj vec) rankSpecialCase) x y = Ok b.
Proof.
  intros Hvec [pa ->] [pb ->]. unfold sorts_before, _compare, entries.
  rewrite Hvec.
  destruct (reduce_dictionary pa pb vec (VNum (Fin 0))) as [v [-> _]].
  cbn [bind]. eauto.
Qed.

(** On the first key of the vector, a tuple the rank function does not
    rank is LESS THAN one it ranks, and the direction of the key is
    applied to that outcome. *)
Lemma compare_unranked_ranked k d rest x y :
  array_like_length (VObj ((k, num d) :: rest)) = None ->
  d <> 0 -> is_dictionary x -> is_dictionary y ->
  ranked k x = false -> ranked k y = true ->
  _compare (VObj ((k, num d) :: rest)) rankSpecialCase x y = Ok (num (- d))
  /\ _compare (VObj ((k, num d) :: rest)) rankSpecialCase y x = Ok (num d).
Proof.
  intros Hvec Hd [pa ->] [pb ->] Hx Hy. unfold _compare, entries.
  rewrite Hvec. cbn [map each]. unfold flag_step at 1 3. cbn [key_name].
  rewrite !rank_of_dictionary, Hx, Hy. cbn [negb andb bind].
  assert (Hneg : ToBoolean (num (- d)) = true).
  { cbn. apply Bool.negb_true_iff, Z.eqb_neq. lia. }
  assert (Hpos : ToBoolean (num d) = true).
  { cbn. apply Bool.negb_true_iff, Z.eqb_neq. lia. }
  split.
  - change (js_or (VNum (Fin 0)) (VNum (number_neg (ToNumber (num d)))))
      with (num (- d)).
    destruct (reduce_dictionary pa pb rest (num (- d))) as [v [-> Hv]].
    now rewrite (Hv Hneg).
  - change (js_or (VNum (Fin 0)) (num d)) with (num d).
    destruct (reduce_dictionary pb pa rest (num d)) as [v [-> Hv]].
    now rewrite (Hv Hpos).
Qed.

Lemma Forall_negb_false (p : value -> bool) (l : list value) :
  Forall (fun x => negb (p x) = false) l -> Forall (fun x => p x = true) l.
Proof.
  apply Forall_impl. intros x. now destruct (p x).
Qed.

Lemma Forall_negb_true (p : value -> bool) (l : list value) :
  Forall (fun x => negb (p x) = true) l -> Forall (fun x => p x = false) l.
Proof.
  apply Forall_impl. intros x. now destruct (p x).
Qed.

Lemma dictionaries (tuples : list (list (string * value))) :
  Forall is_dictionary (map VObj tuples).
Proof.
  induction tuples; cbn; constructor; auto. now eexists.
Qed.

Lemma ranked_dictionary k x :
  is_dictionary x -> ranked k x = negb (null_or_absent k x).
Proof.
  intros [props ->]. unfold ranked, null_or_absent, rankSpecialCase.
  cbn [get bind]. destruct (assoc k props) as [[]|]; reflexivity.
Qed.

Lemma no_length_key props :
  ~ In "length" (map fst props) -> array_like_length (VObj props) = None.
Proof.
  intros H. unfold array_like_length.
  replace (assoc "length" props) with (@None value); [reflexivity|].
  induction props as [|[k v] props IH]; [reflexivity|].
  cbn [assoc]. destruct (String.eqb_spec "length" k) as [E|Hk].
  - exfalso. apply H. now left.
  - apply IH. intros Hin. apply H. now right.
Qed.

(** C1, as the code has it. With the default rank function, a tuple
    whose sort-key attribute is null or absent ranks lower than one whose
    attribute is present, and the direction of the key applies to that
    outcome as to any other: under an ascending first key (direction 1)
    the output is the tuples with a null or absent attribute followed by
    the others, under a descending first key (direction -1) it is the
    others followed by the tuples with a null or absent attribute.
    Sorting [{a:2},{a:null},{a:1}] by {a: 1} yields
    [{a:null},{a:1},{a:2}], and by {a: -1} it yields
    [{a:2},{a:1},{a:null}]. (No key of the sort vector is called
    "length": the reduction over a vector with an array length visits
    indices, not keys.) *)
Theorem nulls_rank_lowest
    (k : string) (rest : list (string * value))
    (tuples : list (list (string * value)))
    (Hvec : ~ In "length" (k :: map fst rest)) :
  let data := map VObj tuples in
  (exists lo hi,
      sort (VArr data) (VObj ((k, num 1) :: rest)) None
      = Ok (VArr (lo ++ hi))
      /\ Permutation data (lo ++ hi)
      /\ Forall (fun x => null_or_absent k x = true) lo
      /\ Forall (fun x => null_or_absent k x = false) hi)
  /\ (exists hi lo,
        sort (VArr data) (VObj ((k, num (-1)) :: rest)) None
        = Ok (VArr (hi ++ lo))
        /\ Permutation data (hi ++ lo)
        /\ Forall (fun x => null_or_absent k x = false) hi
        /\ Forall (fun x => null_or_absent k x = true) lo)
  /\ sort a_two_null_one (obj1 "a" (num 1)) None
     = Ok (VArr [obj1 "a" VNull; obj1 "a" (num 1); obj1 "a" (num 2)])
  /\ sort a_two_null_one (obj1 "a" (num (-1))) None
     = Ok (VArr [obj1 "a" (num 2); obj1 "a" (num 1); obj1 "a" VNull]).
Proof.
  intros data.
  assert (Hup : array_like_length (VObj ((k, num 1) :: rest)) = None)
    by now apply no_length_key.
  assert (Hdown : array_like_length (VObj ((k, num (-1)) :: rest)) = None)
    by now apply no_length_key.
  assert (Hlow : forall x, is_dictionary x ->
            null_or_absent k x = true -> ranked k x = false).
  { intros x Hx H. rewrite (ranked_dictionary k x Hx), H. reflexivity. }
  assert (Hhigh : forall x, is_dictionary x ->
            null_or_absent k x = false -> ranked k x = true).
  { intros x Hx H. rewrite (ranked_dictionary k x Hx), H. reflexivity. }
  split; [|split; [|split; reflexivity]].
  - destruct (Array_sort_by_class
                (_compare (VObj ((k, num 1) :: rest)) rankSpecialCase)
                is_dictionary (null_or_absent k))
      with (l := data) as [out [Hs [Hp Ho]]].
    + intros x y. now apply compare_dictionaries_total.
    + intros x y Hx Hy Hfx Hfy. unfold sorts_before.
      destruct (compare_unranked_ranked k 1 rest x y) as [-> _];
        auto; discriminate.
    + intros x y Hx Hy Hfx Hfy. unfold sorts_before.
      destruct (compare_unranked_ranked k 1 rest y x) as [_ ->];
        auto; discriminate.
    + now intros x [props ->].
    + apply dictionaries.
    + destruct (class_ordered_split _ out Ho) as (lo & hi & -> & Hlo & Hhi).
      exists lo, hi. unfold sort, sortData, cloneDeep. cbn [ToBoolean negb orb].
      rewrite Hs. cbn [bind]. auto.
  - assert (Hdata : Forall is_dictionary data) by apply dictionaries.
    destruct (Array_sort_by_class
                (_compare (VObj ((k, num (-1)) :: rest)) rankSpecialCase)
                is_dictionary (fun x => negb (null_or_absent k x)))
      with (l := data) as [out [Hs [Hp Ho]]].
    + intros x y. now apply compare_dictionaries_total.
    + intros x y Hx Hy Hfx Hfy. unfold sorts_before.
      apply Bool.negb_true_iff in Hfx. apply Bool.negb_false_iff in Hfy.
      destruct (compare_unranked_ranked k (-1) rest y x) as [_ ->];
        auto; discriminate.
    + intros x y Hx Hy Hfx Hfy. unfold sorts_before.
      apply Bool.negb_false_iff in Hfx. apply Bool.negb_true_iff in Hfy.
      destruct (compare_unranked_ranked k (-1) rest x y) as [-> _];
        auto; discriminate.
    + now intros x [props ->].
    + exact Hdata.
    + destruct (class_ordered_split _ out Ho) as (hi & lo & -> & Hhi & Hlo).
      exists hi, lo. unfold sort, sortData, cloneDeep. cbn [ToBoolean negb orb].
      rewrite Hs. cbn [bind].
      repeat split; auto using Forall_negb_false, Forall_negb_true.
Qed.

(** The order the spec gives for the null-ranking example is not the one
    the sort stage produces: under the ascending key the tuple with the
    null attribute comes first, not last. *)
Lemma nulls_last_when_ascending_fails :
  sort a_two_null_one (obj1 "a" (num 1)) None
  <> Ok (VArr [obj1 "a" (num 1); obj1 "a" (num 2); obj1 "a" VNull]).
Proof. discriminate. Qed.

End SortProperties.

Lemma nulls_rank_lowest_witness :
  ~ In "length" ["age"; "name"]
  /\ exists lo hi,
       sort (VArr (map VObj [[("name", VStr "b")];
                             [("age", num 7); ("name", VStr "a")]]))
            (VObj [("age", num 1); ("name", num 1)]) None
       = Ok (VArr (lo ++ hi))
       /\ Forall (fun x => null_or_absent "age" x = true) lo
       /\ Forall (fun x => null_or_absent "age" x = false) hi.
Proof.
  assert (H : ~ In "length" ["age"; "name"]).
  { intros [H|[H|[]]]; discriminate. }
  split; [exact H|].
  destruct (proj1 (nulls_rank_lowest "age" [("name", num 1)]
                     [[("name", VStr "b")];
                      [("age", num 7); ("name", VStr "a")]] H))
    as (lo & hi & Hs & _ & Hlo & Hhi).
  exists lo, hi. auto.
Defined.
(* ===================================================================== *)
(** * Properties of the pagination stage                                  *)
(* ===================================================================== *)

Section LimitProperties.

Lemma baseSlice_to_zero (array : list value) : baseSlice array 0 0 = [].
Proof.
  unfold baseSlice.
  assert (H : (Z.of_nat (List.length array) <? 0) = false)
    by (apply Z.ltb_ge; lia).
  cbn. rewrite H. reflexivity.
Qed.

(** C10. A null count is not exempted by the guard of the limit stage: it
    reaches [slice], whose end bound becomes 0, and the result is the
    empty sequence for every array of tuples. The guard exempts an
    undefined count, the count 0 and absent data only. *)
Theorem limit_null_is_empty (T : list value) :
  limit (VArr T) VNull = VArr []
  /\ limit (VArr T) VUndefined = VArr T
  /\ limit (VArr T) (num 0) = VArr T
  /\ (forall n, limit VUndefined n = VUndefined /\ limit VNull n = VNull).
Proof.
  repeat split.
  - unfold limit, slice. cbn.
    destruct T as [|t T']; [reflexivity|].
    change (toInteger VNull) with 0.
    now rewrite baseSlice_to_zero.
  - destruct n; reflexivity.
  - destruct n; reflexivity.
Qed.

End LimitProperties.

(* ===================================================================== *)
(** * Properties of the projection stage                                  *)
(* ===================================================================== *)

Section SelectTotality.

(** The bound [select] gives to the recursion is never reached, and the
    spec a call leaves behind is no deeper than the one it was given. *)

Local Abbreviation depths props := (map (fun p : string * value => spec_depth (snd p)) props).

Lemma remove_prop_incl k props p : In p (remove_prop k props) -> In p props.
Proof.
  induction props as [|[k' v'] props IH]; cbn; [auto|].
  destruct (String.eqb k k'); cbn; intuition.
Qed.

Lemma set_prop_Forall (P : string * value -> Prop) k v props :
  Forall P props -> P (k, v) -> Forall P (set_prop k v props).
Proof.
  intros H Hv. induction H as [|[k' v'] props Hp H IH]; cbn.
  - constructor; auto.
  - destruct (String.eqb k k'); constructor; auto.
Qed.

Lemma set_prop_depth k v old props :
  assoc k props = Some old ->
  (spec_depth v <= spec_depth old)%nat ->
  (list_max (depths (set_prop k v props)) <= list_max (depths props))%nat.
Proof.
  induction props as [|[k' v'] props IH]; cbn [assoc]; [discriminate|].
  cbn [set_prop]. destruct (String.eqb k k').
  - intros [= ->] Hle. cbn [map list_max fold_right snd].
    now apply Nat.max_le_compat_r.
  - intros Ha Hle. specialize (IH Ha Hle).
    cbn [map list_max fold_right snd] in *.
    now apply Nat.max_le_compat_l.
Qed.

Lemma remove_prop_depth k props :
  (list_max (depths (remove_prop k props)) <= list_max (depths props))%nat.
Proof.
  induction props as [|[k' v'] props IH]; cbn [remove_prop]; [auto|].
  destruct (String.eqb k k'); cbn [map list_max fold_right snd] in *.
  - etransitivity; [exact IH|]. apply Nat.le_max_r.
  - now apply Nat.max_le_compat_l.
Qed.

Lemma nested_within_depth m fields :
  (spec_depth fields <= m)%nat -> nested_within m fields.
Proof.
  destruct fields; cbn [nested_within]; auto.
  cbn [spec_depth]. intros H. apply Forall_forall. intros p Hin _.
  assert (Hle : (spec_depth (snd p) <= list_max (depths props))%nat).
  { assert (Hall := proj1 (list_max_le (depths props) _) (Nat.le_refl _)).
    rewrite Forall_forall in Hall. apply Hall.
    apply in_map_iff. eauto. }
  lia.
Qed.

Section OneLevel.

Variable m : nat.
Variable rec : value -> value -> result (value * value).
Hypothesis rec_total :
  forall tuples fields,
    (S (spec_depth fields) <= m)%nat ->
    rec tuples fields <> Err OutOfFuel
    /\ forall r f, rec tuples fields = Ok (r, f) ->
                   (spec_depth f <= spec_depth fields)%nat.

Lemma subselect_step_total tuple attrName subselect :
  (typeof subselect = "object" -> (S (spec_depth subselect) <= m)%nat) ->
  subselect_step rec tuple attrName subselect <> Err OutOfFuel
  /\ forall t s,
       subselect_step rec tuple attrName subselect = Ok (t, s) ->
       (spec_depth s <= spec_depth subselect)%nat
       /\ (typeof s = "object" -> (S (spec_depth s) <= m)%nat).
Proof.
  intros H. unfold subselect_step.
  destruct (String.eqb (typeof subselect) "object") eqn:Ht.
  - apply String.eqb_eq in Ht. specialize (H Ht).
    destruct (get tuple attrName) as [x|e] eqn:Hg; cbn [bind].
    2:{ apply get_error in Hg. subst e. split; [discriminate|discriminate]. }
    destruct (Array_isArray x).
    + destruct (rec_total x subselect H) as [Hne Hle].
      destruct (rec x subselect) as [[r s']|e]; cbn [bind].
      * split; [discriminate|]. intros t s [= <- <-].
        specialize (Hle _ _ eq_refl). split; [exact Hle|]. intros _. lia.
      * split; [congruence|discriminate].
    + destruct (isObject x).
      * destruct (rec_total (VArr [x]) subselect H) as [Hne Hle].
        destruct (rec (VArr [x]) subselect) as [[r s']|e]; cbn [bind].
        -- destruct (get r "0") as [r0|e] eqn:Hr0; cbn [bind].
           ++ split; [discriminate|]. intros t s [= <- <-].
              specialize (Hle _ _ eq_refl). split; [exact Hle|]. intros _. lia.
           ++ apply get_error in Hr0. subst e. split; discriminate.
        -- split; [congruence|discriminate].
      * split; [discriminate|]. intros t s [= <- <-]. split; [lia|auto].
  - split; [discriminate|]. intros t s [= <- <-]. split; [lia|].
    intros Hs. rewrite Hs in Ht. discriminate.
Qed.

Lemma fields_get fields k :
  spec_state fields -> nested_within m fields ->
  exists v, get fields k = Ok v
            /\ (typeof v = "object" -> (S (spec_depth v) <= m)%nat).
Proof.
  destruct fields; cbn [spec_state]; try contradiction; intros _ Hn;
    cbn [get]; try (eexists; split; [reflexivity|discriminate]).
  destruct (assoc k props) as [v|] eqn:Ha.
  - exists v. split; [reflexivity|].
    cbn [nested_within] in Hn. rewrite Forall_forall in Hn.
    exact (Hn _ (assoc_In _ _ _ Ha)).
  - eexists; split; [reflexivity|discriminate].
Qed.

Lemma store_state fields k old s :
  spec_state fields -> nested_within m fields ->
  get fields k = Ok old ->
  (spec_depth s <= spec_depth old)%nat ->
  (typeof s = "object" -> (S (spec_depth s) <= m)%nat) ->
  spec_state (store fields k s)
  /\ nested_within m (store fields k s)
  /\ (spec_depth (store fields k s) <= spec_depth fields)%nat.
Proof.
  destruct fields; cbn [spec_state]; try contradiction; intros _ Hn Hg Hd Hs;
    cbn [store];
    try (split; [exact I|split; [exact Hn|apply Nat.le_refl]]).
  cbn [get] in Hg. destruct (assoc k props) as [v|] eqn:Ha.
  - injection Hg as ->. split; [exact I|]. split.
    + cbn [nested_within] in *. now apply set_prop_Forall.
    + cbn [spec_depth]. apply le_n_S.
      now apply set_prop_depth with (old := old).
  - split; [exact I|]. split; [exact Hn|apply Nat.le_refl].
Qed.

Lemma visit_entries_total names tuple fields :
  spec_state fields -> nested_within m fields ->
  each (visit_entry rec) names (tuple, fields) <> Err OutOfFuel
  /\ forall t f,
       each (visit_entry rec) names (tuple, fields) = Ok (t, f) ->
       spec_state f /\ nested_within m f
       /\ (spec_depth f <= spec_depth fields)%nat.
Proof.
  revert tuple fields.
  induction names as [|attr names IH]; intros tuple fields Hst Hn; cbn [each].
  - split; [discriminate|]. intros t f [= <- <-]. auto.
  - unfold visit_entry at 1 3.
    destruct (fields_get fields (key_name attr) Hst Hn) as [v [Hg Hv]].
    rewrite Hg. cbn [bind].
    destruct (subselect_step_total tuple (key_name attr) v Hv) as [Hne Hle].
    destruct (subselect_step rec tuple (key_name attr) v) as [[t' s']|e];
      cbn [bind].
    + destruct (Hle _ _ eq_refl) as [Hd Hs].
      destruct (store_state fields (key_name attr) v s' Hst Hn Hg Hd Hs)
        as (Hst' & Hn' & Hd').
      destruct (IH t' (store fields (key_name attr) s') Hst' Hn')
        as [Hne' Hle'].
      split; [exact Hne'|]. intros t f Hf.
      destruct (Hle' _ _ Hf) as (? & ? & ?). repeat split; auto. lia.
    + split; [congruence|discriminate].
Qed.

Lemma select_tuple_total hasSplat omitted fields tuple :
  spec_state fields -> nested_within m fields ->
  select_tuple rec hasSplat omitted fields tuple <> Err OutOfFuel
  /\ forall t f,
       select_tuple rec hasSplat omitted fields tuple = Ok (t, f) ->
       spec_state f /\ nested_within m f
       /\ (spec_depth f <= spec_depth fields)%nat.
Proof.
  intros Hst Hn. unfold select_tuple. now apply visit_entries_total.
Qed.

Lemma visit_tuples_total hasSplat omitted tuples out fields :
  spec_state fields -> nested_within m fields ->
  each (visit_tuple rec hasSplat omitted) tuples (out, fields)
  <> Err OutOfFuel
  /\ forall o f,
       each (visit_tuple rec hasSplat omitted) tuples (out, fields)
       = Ok (o, f) ->
       (spec_depth f <= spec_depth fields)%nat.
Proof.
  revert out fields.
  induction tuples as [|tuple tuples IH]; intros out fields Hst Hn; cbn [each].
  - split; [discriminate|]. intros o f [= <- <-]. auto.
  - unfold visit_tuple at 1 3.
    destruct (select_tuple_total hasSplat omitted fields tuple Hst Hn)
      as [Hne Hle].
    destruct (select_tuple rec hasSplat omitted fields tuple) as [[t' f']|e];
      cbn [bind].
    + destruct (Hle _ _ eq_refl) as (Hst' & Hn' & Hd').
      destruct (IH (out ++ [t'])%list f' Hst' Hn') as [Hne' Hle'].
      split; [exact Hne'|]. intros o f Hf. specialize (Hle' _ _ Hf). lia.
    + split; [congruence|discriminate].
Qed.

Lemma arrayToDict_values names :
  exists props, arrayToDict names = VObj props
                /\ Forall (fun p => snd p = VBool true) props.
Proof.
  unfold arrayToDict. eexists. split; [reflexivity|].
  assert (G : forall acc : list (string * value),
             Forall (fun p => snd p = VBool true) acc ->
             Forall (fun p => snd p = VBool true)
                    (fold_left (fun memo attrName =>
                                  set_prop (ToString attrName) (VBool true) memo)
                               names acc)).
  { induction names as [|a names IH]; intros acc Hacc; cbn [fold_left].
    - exact Hacc.
    - apply IH. now apply set_prop_Forall. }
  apply G. constructor.
Qed.

Lemma projection_total hasSplat omitted tuples state passed :
  spec_state state -> nested_within m state ->
  match passed with
  | VObj _ => (spec_depth state <= spec_depth passed)%nat
  | _ => True
  end ->
  let run :=
    bind (each (visit_tuple rec hasSplat omitted) (collection_values tuples)
               ([], state))
         (fun '(out, fields) =>
            Ok (VArr out,
                match passed with
                | VObj _ => fields
                | _ => passed
                end)) in
  run <> Err OutOfFuel
  /\ forall r f, run = Ok (r, f) -> (spec_depth f <= spec_depth passed)%nat.
Proof.
  intros Hst Hn Hd run. subst run.
  destruct (visit_tuples_total hasSplat omitted (collection_values tuples) []
              state Hst Hn) as [Hne Hle].
  destruct (each _ _ _) as [[out f']|e]; cbn [bind].
  - split; [discriminate|]. intros r f [= <- <-].
    specialize (Hle _ _ eq_refl).
    destruct passed; try apply Nat.le_refl. lia.
  - split; [congruence|discriminate].
Qed.

Lemma select_step_total tuples fields :
  (spec_depth fields <= m)%nat ->
  select_step rec tuples fields <> Err OutOfFuel
  /\ forall r f, select_step rec tuples fields = Ok (r, f) ->
                 (spec_depth f <= spec_depth fields)%nat.
Proof.
  intros Hd. unfold select_step.
  assert (Hplain : forall t f : value,
             Ok (t, f) <> @Err (value * value) OutOfFuel
             /\ forall r f', Ok (t, f) = Ok (r, f') ->
                             (spec_depth f' <= spec_depth f)%nat).
  { intros t f. split; [discriminate|]. intros r f' [= <- <-]. auto. }
  destruct fields as [| | b | n | s | t | source flags | names | props];
    cbn [strict_eq_text typeof String.eqb Ascii.eqb Bool.eqb negb];
    try apply Hplain.
  - (* null *)
    cbn. split; discriminate.
  - (* a text: the splat or nothing *)
    destruct (String.eqb s "*") eqn:Hs; cbn; [|apply Hplain].
    apply (projection_total true [] tuples (VObj []) (VStr s));
      cbn; auto.
  - (* a date *)
    cbn -[each]. apply (projection_total false [] tuples (VDate t) (VDate t));
      cbn; auto.
  - (* a regular expression *)
    cbn -[each].
    apply (projection_total false [] tuples (VRegExp source flags)
             (VRegExp source flags)); cbn; auto.
  - (* an array of names *)
    destruct (arrayToDict_values names) as [props [-> Hvals]].
    cbn [get bind]. 
    apply (projection_total _ _ tuples (VObj (remove_prop "*" props))
             (VArr names)); cbn [spec_state nested_within]; auto.
    rewrite Forall_forall in *. intros p Hp Ht.
    rewrite (Hvals p (remove_prop_incl _ _ _ Hp)) in Ht. discriminate.
  - (* a dictionary *)
    cbn [get bind].
    apply (projection_total _ _ tuples (VObj (remove_prop "*" props))
             (VObj props)); cbn [spec_state]; auto.
    + pose proof (nested_within_depth m (VObj props) Hd) as Hn.
      cbn [nested_within] in *. rewrite Forall_forall in *.
      intros p Hp. apply Hn. eapply remove_prop_incl; eauto.
    + cbn [spec_depth]. apply le_n_S, remove_prop_depth.
Qed.

End OneLevel.

Lemma select_fuel_total n tuples fields :
  (S (spec_depth fields) <= n)%nat ->
  select_fuel n tuples fields <> Err OutOfFuel
  /\ forall r f, select_fuel n tuples fields = Ok (r, f) ->
                 (spec_depth f <= spec_depth fields)%nat.
Proof.
  revert tuples fields. induction n as [|n IH]; intros tuples fields Hd.
  - lia.
  - cbn [select_fuel]. apply (select_step_total n (select_fuel n) IH). lia.
Qed.

(** The projection stage returns: a result, or one of the errors of the
    host. *)
Lemma select_total tuples fields : select tuples fields <> Err OutOfFuel.
Proof.
  unfold select. now apply select_fuel_total.
Qed.

End SelectTotality.

Section SelectProperties.

(** The nested calls change the values of a spec, never its keys. *)

Variable rec : value -> value -> result (value * value).

Lemma set_prop_keys k v old props :
  assoc k props = Some old -> map fst (set_prop k v props) = map fst props.
Proof.
  induction props as [|[k' v'] props IH]; cbn [assoc]; [discriminate|].
  cbn [set_prop]. destruct (String.eqb_spec k k') as [->|Hk].
  - reflexivity.
  - intros H. cbn. now rewrite IH.
Qed.

Lemma store_keys fields k s : dict_keys (store fields k s) = dict_keys fields.
Proof.
  destruct fields; try reflexivity. cbn [store].
  destruct (assoc k props) as [old|] eqn:Ha; [|reflexivity].
  cbn. f_equal. now apply set_prop_keys with (old := old).
Qed.

Lemma visit_entries_keys names tuple fields t f :
  each (visit_entry rec) names (tuple, fields) = Ok (t, f) ->
  dict_keys f = dict_keys fields.
Proof.
  revert tuple fields. induction names as [|attr names IH];
    intros tuple fields; cbn [each].
  - now intros [= <- <-].
  - unfold visit_entry at 1.
    destruct (get fields (key_name attr)) as [v|e]; cbn [bind]; [|discriminate].
    destruct (subselect_step rec tuple (key_name attr) v) as [[t' s']|e];
      cbn [bind]; [|discriminate].
    intros H. rewrite (IH _ _ H). apply store_keys.
Qed.

Lemma visit_tuples_keys hasSplat omitted tuples out fields o f :
  each (visit_tuple rec hasSplat omitted) tuples (out, fields) = Ok (o, f) ->
  dict_keys f = dict_keys fields.
Proof.
  revert out fields. induction tuples as [|tuple tuples IH];
    intros out fields; cbn [each].
  - now intros [= <- <-].
  - unfold visit_tuple at 1, select_tuple.
    destruct (each (visit_entry rec) _ _) as [[t' f']|e] eqn:He;
      cbn [bind]; [|discriminate].
    intros H. rewrite (IH _ _ H). eapply visit_entries_keys; eauto.
Qed.

Lemma remove_prop_keys k props : ~ In k (map fst (remove_prop k props)).
Proof.
  induction props as [|[k' v'] props IH]; cbn [remove_prop]; [auto|].
  destruct (String.eqb_spec k k') as [->|Hk]; [exact IH|].
  cbn. intros [H|H]; [congruence|auto].
Qed.

Lemma select_step_keys tuples props r f :
  select_step rec tuples (VObj props) = Ok (r, f) ->
  dict_keys f = Some (map fst (remove_prop "*" props)).
Proof.
  unfold select_step. cbn [strict_eq_text typeof String.eqb Ascii.eqb Bool.eqb
                           negb get bind].
  destruct (each _ _ _) as [[out f']|e] eqn:He; cbn [bind]; [|discriminate].
  intros [= <- <-]. now apply visit_tuples_keys in He.
Qed.

End SelectProperties.

Section SelectDefect.

(** C8. The projection stage deletes the '*' key of the dictionary it is
    given: whenever it returns, the caller's spec is left without that
    key, so a spec that had one is not what it was. After projecting one
    tuple on the spec "all but b", the spec is {b: false}. A nested spec
    is changed in the same way by the first tuple that reaches it, so
    that the second pet below is projected on "name only" where the first
    was projected on "all but name". *)
Theorem select_deletes_splat :
  (forall tuples props r f,
      In "*" (map fst props) ->
      select tuples (VObj props) = Ok (r, f) ->
      dict_keys f = Some (map fst (remove_prop "*" props))
      /\ f <> VObj props)
  /\ select (VArr [tuple_ab]) all_but_b
     = Ok (VArr [obj1 "a" (num 1)], obj1 "b" (VBool false))
  /\ select (VArr [pet "rex" 3; pet "tom" 5]) pet_all_but_name
     = Ok (VArr [obj1 "pet" (obj1 "age" (num 3));
                 obj1 "pet" (obj1 "name" (VStr "tom"))],
           obj1 "pet" (obj1 "name" (VBool false))).
Proof.
  split; [|split; reflexivity].
  intros tuples props r f Hstar Hsel. unfold select in Hsel.
  cbn [select_fuel] in Hsel. apply select_step_keys in Hsel.
  split; [exact Hsel|].
  intros ->. cbn [dict_keys] in Hsel. injection Hsel as Hk.
  apply (remove_prop_keys "*" props). now rewrite <- Hk.
Qed.

End SelectDefect.

Lemma select_deletes_splat_witness :
  In "*" ["*"; "b"]
  /\ select (VArr [tuple_ab]) all_but_b
     <> Ok (VArr [obj1 "a" (num 1)], all_but_b).
Proof.
  assert (H : In "*" ["*"; "b"]) by now left.
  split; [exact H|].
  intros Hsel.
  exact (proj2 (proj1 select_deletes_splat (VArr [tuple_ab])
                  [("*", VBool true); ("b", VBool false)]
                  (VArr [obj1 "a" (num 1)]) all_but_b H Hsel) eq_refl).
Defined.


(* ===================================================================== *)
(** * Further properties of the pagination stage                          *)
(* ===================================================================== *)

Section PaginationProperties.

Lemma number_from_values (elems : list value) (i : nat) :
  map snd (map (fun '(i, v) => (KIdx i, v)) (number_from i elems)) = elems.
Proof.
  revert i. induction elems as [|e elems IH]; intros i; [reflexivity|].
  cbn. now rewrite IH.
Qed.

Lemma array_values (elems : list value) :
  collection_values (VArr elems) = elems.
Proof. apply number_from_values. Qed.

Lemma array_elements (elems : list value) : elements (VArr elems) = elems.
Proof. apply number_from_values. Qed.

Lemma toInteger_count (n : Z) : toInteger (num n) = n.
Proof.
  unfold toInteger, num. cbn [ToBoolean ToNumber ToPrimitive_number].
  destruct (Z.eqb_spec n 0) as [->|Hn]; reflexivity.
Qed.

Lemma slice_array (T : list value) (a b : Z) :
  slice (VArr T) (Some (num a)) (Some (num b)) = VArr (baseSlice T a b).
Proof.
  unfold slice. rewrite array_elements.
  destruct T as [|t T]; [|now rewrite !toInteger_count].
  unfold baseSlice. now rewrite skipn_nil, firstn_nil.
Qed.

Lemma slice_array_from (T : list value) (a : Z) :
  slice (VArr T) (Some (num a)) None
  = VArr (baseSlice T a (Z.of_nat (List.length T))).
Proof.
  unfold slice. rewrite array_elements.
  destruct T as [|t T]; [|now rewrite toInteger_count].
  unfold baseSlice. now rewrite skipn_nil, firstn_nil.
Qed.

Lemma baseSlice_prefix (T : list value) (n : Z) :
  0 < n -> baseSlice T 0 n = firstn (Z.to_nat n) T.
Proof.
  intros Hn. unfold baseSlice. cbn [Z.ltb Z.compare skipn Z.to_nat].
  destruct (Z.ltb_spec (Z.of_nat (List.length T)) n) as [Hlt|Hge].
  - destruct (Z.ltb_spec (Z.of_nat (List.length T)) 0); [lia|].
    destruct (Z.ltb_spec (Z.of_nat (List.length T)) 0); [lia|].
    rewrite Z.sub_0_r, Nat2Z.id.
    rewrite !firstn_all2; [reflexivity|lia|lia].
  - destruct (Z.ltb_spec n 0); [lia|].
    destruct (Z.ltb_spec n 0); [lia|].
    now rewrite Z.sub_0_r.
Qed.

Lemma baseSlice_suffix (T : list value) (n : Z) :
  0 < n ->
  baseSlice T n (Z.of_nat (List.length T)) = skipn (Z.to_nat n) T.
Proof.
  intros Hn. unfold baseSlice.
  destruct (Z.ltb_spec n 0); [lia|].
  rewrite Z.ltb_irrefl.
  destruct (Z.ltb_spec (Z.of_nat (List.length T)) 0); [lia|].
  destruct (Z.ltb_spec (Z.of_nat (List.length T)) n) as [Hlt|Hge].
  - cbn [Z.to_nat firstn]. symmetry. apply skipn_all2. lia.
  - apply firstn_all2. rewrite length_skipn. lia.
Qed.

Lemma limit_positive (T : list value) (n : Z) :
  0 < n -> limit (VArr T) (num n) = VArr (firstn (Z.to_nat n) T).
Proof.
  intros Hn. unfold limit. cbn [isUndefined num ToBoolean negb orb].
  destruct n as [|p|p]; try lia.
  change (VNum (Fin 0)) with (num 0). change (VNum (Fin (Z.pos p))) with (num (Z.pos p)).
  rewrite slice_array. now rewrite baseSlice_prefix.
Qed.

Lemma skip_positive (T : list value) (n : Z) :
  0 < n -> skip (VArr T) (num n) = VArr (skipn (Z.to_nat n) T).
Proof.
  intros Hn. unfold skip. cbn [num ToBoolean negb orb].
  destruct (Z.eqb_spec n 0) as [->|_]; [lia|]. cbn [negb orb].
  change (VNum (Fin n)) with (num n).
  rewrite slice_array_from. now rewrite baseSlice_suffix.
Qed.

(** X1. On an array of tuples, a positive count [n] makes the limit
    stage return the first [n] tuples (all of them when there are fewer),
    and a negative count [-n] makes it drop the last [n] tuples. *)
Theorem limit_takes_a_prefix (T : list value) (n : Z) (Hn : 0 < n) :
  limit (VArr T) (num n) = VArr (firstn (Z.to_nat n) T)
  /\ limit (VArr T) (num (- n))
     = VArr (firstn (List.length T - Z.to_nat n) T).
Proof.
  split; [now apply limit_positive|].
  unfold limit. cbn [isUndefined num ToBoolean negb orb].
  destruct n as [|p|p]; try lia. cbn [Z.opp].
  change (VNum (Fin 0)) with (num 0).
  change (VNum (Fin (Z.neg p))) with (num (Z.neg p)).
  rewrite slice_array. f_equal. unfold baseSlice.
  cbn [Z.ltb Z.compare skipn Z.to_nat].
  destruct (Z.ltb_spec (Z.of_nat (List.length T)) (Z.neg p)); [lia|].
  destruct (Z.ltb_spec (Z.neg p) 0); [|lia].
  destruct (Z.ltb_spec (Z.neg p + Z.of_nat (List.length T)) 0) as [Hlt|Hge].
  - replace (List.length T - Pos.to_nat p)%nat with 0%nat by lia.
    reflexivity.
  - f_equal. lia.
Qed.

(** X2. On an array of tuples, a positive count [n] makes the skip
    stage drop the first [n] tuples, and a negative count [-n] makes it
    keep the last [n] tuples only. *)
Theorem skip_drops_a_prefix (T : list value) (n : Z) (Hn : 0 < n) :
  skip (VArr T) (num n) = VArr (skipn (Z.to_nat n) T)
  /\ skip (VArr T) (num (- n))
     = VArr (skipn (List.length T - Z.to_nat n) T).
Proof.
  split; [now apply skip_positive|].
  unfold skip. cbn [num ToBoolean negb orb].
  destruct (Z.eqb_spec (- n) 0) as [E|_]; [lia|]. cbn [negb orb].
  change (VNum (Fin (- n))) with (num (- n)).
  rewrite slice_array_from. f_equal. unfold baseSlice.
  destruct (Z.ltb_spec (- n) 0); [|lia].
  rewrite Z.ltb_irrefl.
  destruct (Z.ltb_spec (Z.of_nat (List.length T)) 0); [lia|].
  destruct (Z.ltb_spec (Z.of_nat (List.length T)) (- - n)) as [Hlt|Hge].
  - destruct (Z.ltb_spec (Z.of_nat (List.length T)) 0); [lia|].
    replace (List.length T - Z.to_nat n)%nat with 0%nat by lia.
    cbn [Z.to_nat skipn]. apply firstn_all2. lia.
  - destruct (Z.ltb_spec (Z.of_nat (List.length T))
                         (Z.of_nat (List.length T) + - n)); [lia|].
    replace (Z.to_nat (Z.of_nat (List.length T) + - n))
      with (List.length T - Z.to_nat n)%nat by lia.
    apply firstn_all2. rewrite length_skipn. lia.
Qed.

(** X3. For a positive count [n], the tuples the limit stage keeps
    followed by the tuples the skip stage keeps are the input: the two
    stages cut the sequence at the same place. With the count 0 each
    stage returns the whole input. *)
Theorem limit_and_skip_partition (T : list value) (n : Z) (Hn : 0 < n) :
  (exists kept rest,
      limit (VArr T) (num n) = VArr kept
      /\ skip (VArr T) (num n) = VArr rest
      /\ (kept ++ rest)%list = T)
  /\ limit (VArr T) (num 0) = VArr T
  /\ skip (VArr T) (num 0) = VArr T.
Proof.
  split; [|split; reflexivity].
  exists (firstn (Z.to_nat n) T), (skipn (Z.to_nat n) T).
  rewrite limit_positive, skip_positive by assumption.
  auto using firstn_skipn.
Qed.

(** X4. A page is the same whether the sequence is first limited to
    the end of the page and then skipped to its start, or first skipped
    and then limited to the page size. *)
Theorem page_by_limit_or_by_skip (T : list value) (offset size : Z)
    (Hoffset : 0 < offset) (Hsize : 0 < size) :
  skip (limit (VArr T) (num (offset + size))) (num offset)
  = limit (skip (VArr T) (num offset)) (num size).
Proof.
  rewrite (limit_positive T) by lia.
  rewrite !skip_positive, limit_positive by assumption.
  f_equal. rewrite firstn_skipn_comm. f_equal. f_equal. lia.
Qed.

End PaginationProperties.

Lemma limit_takes_a_prefix_witness :
  limit (VArr [num 1; num 2; num 3]) (num 2) = VArr [num 1; num 2]
  /\ limit (VArr [num 1; num 2; num 3]) (num (- 2)) = VArr [num 1].
Proof. apply (limit_takes_a_prefix [num 1; num 2; num 3] 2). lia. Defined.

Lemma skip_drops_a_prefix_witness :
  skip (VArr [num 1; num 2; num 3]) (num 2) = VArr [num 3]
  /\ skip (VArr [num 1; num 2; num 3]) (num (- 2)) = VArr [num 2; num 3].
Proof. apply (skip_drops_a_prefix [num 1; num 2; num 3] 2). lia. Defined.

Lemma limit_and_skip_partition_witness :
  exists kept rest,
    limit (VArr [num 1; num 2; num 3]) (num 2) = VArr kept
    /\ skip (VArr [num 1; num 2; num 3]) (num 2) = VArr rest
    /\ (kept ++ rest)%list = [num 1; num 2; num 3].
Proof.
  apply (proj1 (limit_and_skip_partition [num 1; num 2; num 3] 2 eq_refl)).
Defined.

Lemma page_by_limit_or_by_skip_witness :
  skip (limit (VArr [num 1; num 2; num 3; num 4]) (num (1 + 2))) (num 1)
  = limit (skip (VArr [num 1; num 2; num 3; num 4]) (num 1)) (num 2).
Proof.
  apply (page_by_limit_or_by_skip [num 1; num 2; num 3; num 4] 1 2); lia.
Defined.

(* ===================================================================== *)
(** * Further properties of the sort stage                                *)
(* ===================================================================== *)

Section SortPermutes.

Variable comparefn : value -> value -> result value.

Lemma insert_permutes x l l' :
  insert comparefn x l = Ok l' -> Permutation (x :: l) l'.
Proof.
  revert l'. induction l as [|y l IH]; intros l' H; cbn [insert] in H.
  - injection H as <-. reflexivity.
  - destruct (sorts_before comparefn x y) as [[|]|e]; cbn [bind] in H;
      try discriminate.
    + injection H as <-. reflexivity.
    + destruct (insert comparefn x l) as [r|e]; cbn [bind] in H;
        try discriminate.
      injection H as <-. rewrite perm_swap. constructor. now apply IH.
Qed.

Lemma insert_all_permutes l acc out :
  each (fun acc x => insert comparefn x acc) l acc = Ok out ->
  Permutation (l ++ acc) out.
Proof.
  revert acc out. induction l as [|x l IH]; intros acc out H; cbn [each] in H.
  - injection H as <-. reflexivity.
  - destruct (insert comparefn x acc) as [acc'|e] eqn:Hi; cbn [bind] in H;
      try discriminate.
    apply IH in H. apply insert_permutes in Hi.
    rewrite <- H. cbn [app]. rewrite <- Hi. apply Permutation_middle.
Qed.

Lemma partition_by (p : value -> bool) (l : list value) :
  Permutation l (List.filter (fun v => negb (p v)) l ++ List.filter p l).
Proof.
  induction l as [|x l IH]; [reflexivity|]. cbn [List.filter].
  destruct (p x); cbn [negb app].
  - rewrite <- Permutation_middle. now constructor.
  - now constructor.
Qed.

Lemma Array_sort_permutes l out :
  Array_sort comparefn l = Ok out -> Permutation l out.
Proof.
  unfold Array_sort. intros H.
  destruct (each _ _ _) as [sorted|e] eqn:He; cbn [bind] in H;
    try discriminate.
  injection H as <-. apply insert_all_permutes in He.
  rewrite app_nil_r in He. rewrite <- He. apply partition_by.
Qed.

End SortPermutes.

(** X5. Whatever the sort vector and the rank function, when the sort
    stage returns on an array of tuples it returns an array holding the
    same tuples, each as many times as in the input. *)
Theorem sort_permutes_the_tuples (T : list value) (comparator : value)
    (when : option (value -> string -> result bool)) (r : value)
    (Hsort : sort (VArr T) comparator when = Ok r) :
  exists out, r = VArr out /\ Permutation T out.
Proof.
  unfold sort, sortData, cloneDeep in Hsort.
  destruct (negb (ToBoolean comparator) || negb (ToBoolean (VArr T))).
  - injection Hsort as <-. now exists T.
  - destruct (Array_sort _ T) as [out|e] eqn:Hs; cbn [bind] in Hsort;
      try discriminate.
    injection Hsort as <-. exists out. split; [reflexivity|].
    now apply Array_sort_permutes in Hs.
Qed.

Lemma sort_permutes_the_tuples_witness :
  exists out,
    VArr [obj1 "age" (num 20); obj1 "age" (num 30); obj1 "age" (num 40)]
    = VArr out
    /\ Permutation [obj1 "age" (num 30); obj1 "age" (num 40);
                    obj1 "age" (num 20)] out.
Proof.
  apply (sort_permutes_the_tuples
           [obj1 "age" (num 30); obj1 "age" (num 40); obj1 "age" (num 20)]
           (obj1 "age" (num 1)) None).
  reflexivity.
Defined.

Section InsertionByRank.

(** Insertion into a list ordered by a rank, under a comparison function
    that puts [x] before [y] exactly when the rank of [x] is the lower. *)

Variable comparefn : value -> value -> result value.
Variable rank : value -> option Z.

Hypothesis before_iff_lower :
  forall x y a b, rank x = Some a -> rank y = Some b ->
                  sorts_before comparefn x y = Ok (a <? b).
Hypothesis ranked_defined :
  forall x, rank x <> None -> isUndefined x = false.

Lemma insert_by_rank x a l :
  rank x = Some a ->
  Forall (fun y => rank y <> None) l ->
  StronglySorted (ordered_by rank) l ->
  exists l1 l2,
    l = (l1 ++ l2)%list
    /\ insert comparefn x l = Ok (l1 ++ x :: l2)%list
    /\ Forall (fun y => ordered_by rank y x) l1
    /\ Forall (fun y => exists b, rank y = Some b /\ a < b) l2.
Proof.
  intros Hx Hl Hs. induction l as [|y l IH].
  - exists [], []. repeat split; constructor.
  - inversion Hl as [|? ? Hy Hl']; subst.
    apply StronglySorted_inv in Hs. destruct Hs as [Hs Hy'].
    destruct (rank y) as [b|] eqn:Hb; [|contradiction]. clear Hy.
    cbn [insert]. rewrite (before_iff_lower x y a b Hx Hb). cbn [bind].
    destruct (Z.ltb_spec a b) as [Hlt|Hge].
    + exists [], (y :: l). repeat split; try constructor.
      * exists b. auto.
      * apply (Forall_impl _ (P := ordered_by rank y)); [|exact Hy'].
        intros c Hc. unfold ordered_by in Hc. rewrite Hb in Hc.
        destruct (rank c) as [c'|]; [|contradiction].
        exists c'. split; [reflexivity|lia].
    + destruct (IH Hl' Hs) as (l1 & l2 & -> & Hi & H1 & H2).
      exists (y :: l1), l2. rewrite Hi. cbn [bind app].
      repeat split; auto.
      constructor; [|exact H1]. unfold ordered_by. now rewrite Hb, Hx.
Qed.

Lemma sorted_with_inserted x a l1 l2 :
  rank x = Some a ->
  StronglySorted (ordered_by rank) (l1 ++ l2) ->
  Forall (fun y => ordered_by rank y x) l1 ->
  Forall (fun y => exists b, rank y = Some b /\ a < b) l2 ->
  StronglySorted (ordered_by rank) (l1 ++ x :: l2).
Proof.
  intros Hx Hs H1 H2.
  assert (Hafter : Forall (ordered_by rank x) l2).
  { apply (Forall_impl _ (P := fun y => exists b, rank y = Some b /\ a < b));
      [|exact H2].
    intros y (b & Hb & Hlt). unfold ordered_by. rewrite Hx, Hb. lia. }
  induction l1 as [|y l1 IH]; cbn [app] in *.
  - now constructor.
  - apply StronglySorted_inv in Hs. destruct Hs as [Hs Hy].
    inversion H1 as [|? ? Hyx H1']; subst.
    constructor; [now apply IH|].
    apply Forall_app in Hy. destruct Hy as [Hy1 Hy2].
    apply Forall_app. split; [exact Hy1|]. now constructor.
Qed.

Lemma filter_with_inserted x a l1 l2 z :
  rank x = Some a ->
  Forall (fun y => exists b, rank y = Some b /\ a < b) l2 ->
  List.filter (ranked_as rank z) (l1 ++ x :: l2)
  = (List.filter (ranked_as rank z) (l1 ++ l2)
     ++ List.filter (ranked_as rank z) [x])%list.
Proof.
  intros Hx H2. rewrite !filter_app. cbn [List.filter].
  assert (Hz : ranked_as rank z x = (a =? z))
    by (unfold ranked_as; now rewrite Hx).
  rewrite Hz.
  destruct (Z.eqb_spec a z) as [->|Hne].
  - replace (List.filter (ranked_as rank z) l2) with (@nil value).
    + now rewrite !app_nil_r.
    + symmetry. induction H2 as [|y l2 (b & Hb & Hlt) _ IH]; [reflexivity|].
      cbn [List.filter]. unfold ranked_as at 1. rewrite Hb.
      destruct (Z.eqb_spec b z); [lia|exact IH].
  - now rewrite !app_nil_r.
Qed.

Lemma insert_all_by_rank l :
  forall done acc,
    Forall (fun y => rank y <> None) l ->
    Forall (fun y => rank y <> None) acc ->
    StronglySorted (ordered_by rank) acc ->
    Permutation done acc ->
    (forall z, List.filter (ranked_as rank z) acc
               = List.filter (ranked_as rank z) done) ->
    exists out,
      each (fun acc x => insert comparefn x acc) l acc = Ok out
      /\ StronglySorted (ordered_by rank) out
      /\ Permutation (done ++ l) out
      /\ (forall z, List.filter (ranked_as rank z) out
                    = List.filter (ranked_as rank z) (done ++ l)).
Proof.
  induction l as [|x l IH]; intros done acc Hl Hacc Hs Hp Hf.
  - exists acc. rewrite app_nil_r. auto.
  - inversion Hl as [|? ? Hx Hl']; subst.
    destruct (rank x) as [a|] eqn:Ha; [|contradiction]. clear Hx.
    destruct (insert_by_rank x a acc Ha Hacc Hs)
      as (l1 & l2 & -> & Hi & H1 & H2).
    cbn [each]. rewrite Hi. cbn [bind].
    destruct (IH (done ++ [x])%list (l1 ++ x :: l2)%list) as (out & He & Ho & Hpo & Hfo).
    + exact Hl'.
    + apply Forall_app in Hacc. destruct Hacc as [Ha1 Ha2].
      apply Forall_app. split; [exact Ha1|]. constructor; [|exact Ha2].
      now rewrite Ha.
    + now apply (sorted_with_inserted x a).
    + apply Permutation_trans with (x :: done).
      * apply Permutation_app_comm.
      * apply Permutation_trans with (x :: l1 ++ l2)%list;
          [now constructor|apply Permutation_middle].
    + intros z. rewrite (filter_with_inserted x a l1 l2 z Ha H2).
      now rewrite Hf, filter_app.
    + exists out. rewrite <- app_assoc in Hpo, Hfo. auto.
Qed.

Lemma Array_sort_by_rank l :
  Forall (fun y => rank y <> None) l ->
  exists out,
    Array_sort comparefn l = Ok out
    /\ StronglySorted (ordered_by rank) out
    /\ Permutation l out
    /\ (forall z, List.filter (ranked_as rank z) out
                  = List.filter (ranked_as rank z) l).
Proof.
  intros Hl. unfold Array_sort.
  assert (Hd : List.filter (fun v => negb (isUndefined v)) l = l
               /\ List.filter isUndefined l = []).
  { induction Hl as [|y l Hy _ [IH1 IH2]]; [now split|].
    cbn [List.filter]. rewrite (ranked_defined y Hy). cbn [negb].
    now rewrite IH1, IH2. }
  destruct Hd as [-> ->].
  destruct (insert_all_by_rank l [] []) as (out & He & Ho & Hp & Hf);
    auto; try constructor.
  rewrite He. cbn [bind]. exists out. rewrite app_nil_r. auto.
Qed.

End InsertionByRank.

Section SortByNumber.

Lemma number_at_dictionary k x z :
  number_at k x = Some z ->
  exists props, x = VObj props /\ assoc k props = Some (VNum (Fin z)).
Proof.
  unfold number_at. destruct x as [| | | | | | | |props]; try discriminate.
  destruct (assoc k props) as [[| | |[| |z']| | | | |]|] eqn:E;
    try discriminate.
  intros [= ->]. now exists props.
Qed.

(** One step of the reduction from the flag 0, on two tuples that hold a
    number under the key. *)
Lemma flag_step_numbers k d a b za zb :
  number_at k a = Some za -> number_at k b = Some zb ->
  flag_step rankSpecialCase a b (num 0) (KStr k, num d)
  = Ok (if za <? zb then num (- d) else if zb <? za then num d else num 0).
Proof.
  intros Ha Hb.
  destruct (number_at_dictionary k a za Ha) as (pa & -> & Hpa).
  destruct (number_at_dictionary k b zb Hb) as (pb & -> & Hpb).
  unfold flag_step, rankSpecialCase. cbn [key_name get bind].
  rewrite Hpa, Hpb. cbn [typeof isNull bind].
  change (String.eqb "number" "undefined") with false.
  cbn [orb negb andb bind js_lt js_gt ToPrimitive_number ToNumber number_ltb].
  destruct (za <? zb); [reflexivity|].
  destruct (zb <? za); reflexivity.
Qed.

Lemma single_key_entries k v :
  k <> "length" -> entries (obj1 k v) = [(KStr k, v)].
Proof.
  intros Hk. unfold entries, obj1, array_like_length. cbn [assoc].
  destruct (String.eqb_spec "length" k) as [E|_]; [now subst|reflexivity].
Qed.

Lemma compare_by_number k d a b za zb :
  k <> "length" ->
  number_at k a = Some za -> number_at k b = Some zb ->
  _compare (obj1 k (num d)) rankSpecialCase a b
  = Ok (if za <? zb then num (- d) else if zb <? za then num d else num 0).
Proof.
  intros Hk Ha Hb. unfold _compare. rewrite (single_key_entries k _ Hk).
  cbn [each]. change (VNum (Fin 0)) with (num 0).
  rewrite (flag_step_numbers k d a b za zb Ha Hb). reflexivity.
Qed.

Lemma directed_number k d x a :
  directed k d x = Some a -> exists z, number_at k x = Some z /\ a = d * z.
Proof.
  unfold directed. destruct (number_at k x) as [z|]; [|discriminate].
  intros [= <-]. now exists z.
Qed.

Lemma before_by_number k d x y a b :
  k <> "length" -> d <> 0 ->
  directed k d x = Some a -> directed k d y = Some b ->
  sorts_before (_compare (obj1 k (num d)) rankSpecialCase) x y = Ok (a <? b).
Proof.
  intros Hk Hd Hx Hy.
  destruct (directed_number k d x a Hx) as (za & Ha & ->).
  destruct (directed_number k d y b Hy) as (zb & Hb & ->).
  unfold sorts_before. rewrite (compare_by_number k d x y za zb Hk Ha Hb).
  cbn [bind]. f_equal.
  destruct (Z.ltb_spec za zb) as [H1|H1];
    [|destruct (Z.ltb_spec zb za) as [H2|H2]];
    cbn [num ToNumber ToPrimitive_number number_ltb];
    destruct (Z.ltb_spec (d * za) (d * zb));
    match goal with |- (?u <? 0) = _ => destruct (Z.ltb_spec u 0) end;
    try reflexivity; nia.
Qed.

Lemma directed_defined k d x : directed k d x <> None -> isUndefined x = false.
Proof.
  unfold directed, number_at. destruct x; try reflexivity. now intros [].
Qed.

Lemma numbers_directed k d T :
  Forall (fun x => number_at k x <> None) T ->
  Forall (fun x => directed k d x <> None) T.
Proof.
  apply Forall_impl. intros x Hx. unfold directed.
  destruct (number_at k x); [discriminate|contradiction].
Qed.

Lemma sort_by_number k d T :
  k <> "length" -> d <> 0 ->
  Forall (fun x => number_at k x <> None) T ->
  exists out,
    sort (VArr T) (obj1 k (num d)) None = Ok (VArr out)
    /\ StronglySorted (ordered_by (directed k d)) out
    /\ Permutation T out
    /\ (forall z, List.filter (ranked_as (directed k d) z) out
                  = List.filter (ranked_as (directed k d) z) T).
Proof.
  intros Hk Hd HT.
  destruct (Array_sort_by_rank
              (_compare (obj1 k (num d)) rankSpecialCase) (directed k d))
    with (l := T) as (out & Hs & Ho & Hp & Hf).
  - intros x y a b. now apply before_by_number.
  - apply directed_defined.
  - now apply numbers_directed.
  - exists out. unfold sort, sortData, cloneDeep.
    cbn [obj1 ToBoolean negb orb]. rewrite Hs. cbn [bind]. auto.
Qed.

(** X6. Sorting by one numeric attribute orders the tuples: on an
    array of dictionaries that all hold an integer under [k], the sort
    stage with the sort vector {k: d}, [d] not 0, returns the same tuples
    ordered by that integer times [d], that is in ascending order of the
    attribute for a positive direction and in descending order for a
    negative one. *)
Theorem sort_orders_by_a_numeric_key (k : string) (d : Z) (T : list value)
    (Hk : k <> "length") (Hd : d <> 0)
    (Hnum : Forall (fun x => number_at k x <> None) T) :
  exists out,
    sort (VArr T) (obj1 k (num d)) None = Ok (VArr out)
    /\ Permutation T out
    /\ StronglySorted (ordered_by (directed k d)) out.
Proof.
  destruct (sort_by_number k d T Hk Hd Hnum) as (out & Hs & Ho & Hp & _).
  now exists out.
Qed.

(** X7. The sort stage is stable: on an array of dictionaries that
    all hold an integer under [k], the tuples holding the same integer
    come out of a sort by {k: d} in the order they had in the input. *)
Theorem sort_keeps_ties_in_input_order (k : string) (d : Z)
    (T out : list value) (z : Z)
    (Hk : k <> "length") (Hd : d <> 0)
    (Hnum : Forall (fun x => number_at k x <> None) T)
    (Hsort : sort (VArr T) (obj1 k (num d)) None = Ok (VArr out)) :
  List.filter (ranked_as (number_at k) z) out
  = List.filter (ranked_as (number_at k) z) T.
Proof.
  destruct (sort_by_number k d T Hk Hd Hnum) as (out' & Hs & _ & _ & Hf).
  rewrite Hs in Hsort. injection Hsort as ->.
  assert (E : forall x, ranked_as (number_at k) z x
                        = ranked_as (directed k d) (d * z) x).
  { intros x. unfold ranked_as, directed.
    destruct (number_at k x) as [a|]; [|reflexivity]. cbn [option_map].
    destruct (Z.eqb_spec a z), (Z.eqb_spec (d * a) (d * z));
      try reflexivity; nia. }
  rewrite !(filter_ext _ _ E). apply Hf.
Qed.

(** X8. The keys of a sort vector apply in order. For two
    dictionaries that hold integers under the first key [k], the
    comparison function of the sort stage returns minus the direction of
    [k] when the first holds the lower integer and the direction when it
    holds the greater one, whatever the later keys say; when the two
    integers are equal it returns what the later keys alone give. *)
Theorem earlier_key_decides (k : string) (d : Z)
    (rest : list (string * value)) (a b : value) (za zb : Z)
    (Hvec : ~ In "length" (k :: map fst rest)) (Hd : d <> 0)
    (Ha : number_at k a = Some za) (Hb : number_at k b = Some zb) :
  let vec := VObj ((k, num d) :: rest) in
  (za < zb -> _compare vec rankSpecialCase a b = Ok (num (- d)))
  /\ (zb < za -> _compare vec rankSpecialCase a b = Ok (num d))
  /\ (za = zb -> _compare vec rankSpecialCase a b
                 = _compare (VObj rest) rankSpecialCase a b).
Proof.
  intros vec.
  assert (Hv : array_like_length vec = None) by now apply no_length_key.
  assert (Hr : array_like_length (VObj rest) = None).
  { apply no_length_key. intros Hin. apply Hvec. now right. }
  assert (Hstep := flag_step_numbers k d a b za zb Ha Hb).
  destruct (number_at_dictionary k a za Ha) as (pa & -> & _).
  destruct (number_at_dictionary k b zb Hb) as (pb & -> & _).
  assert (Hstay : forall flag, ToBoolean flag = true ->
            each (flag_step rankSpecialCase (VObj pa) (VObj pb))
                 (map (fun '(k, v) => (KStr k, v)) rest) flag = Ok flag).
  { intros flag Hflag.
    destruct (reduce_dictionary pa pb rest flag) as (v & -> & Hvf).
    now rewrite (Hvf Hflag). }
  unfold _compare, entries. fold vec. rewrite Hv, Hr.
  unfold vec. cbn [map each]. change (VNum (Fin 0)) with (num 0).
  rewrite Hstep. cbn [bind].
  repeat split.
  - intros Hlt. destruct (Z.ltb_spec za zb); [|lia].
    apply Hstay. cbn. destruct (Z.eqb_spec (- d) 0); [lia|reflexivity].
  - intros Hlt. destruct (Z.ltb_spec za zb); [lia|].
    destruct (Z.ltb_spec zb za); [|lia].
    apply Hstay. cbn. destruct (Z.eqb_spec d 0); [lia|reflexivity].
  - intros ->. now rewrite Z.ltb_irrefl.
Qed.

End SortByNumber.

Lemma sort_orders_by_a_numeric_key_witness :
  exists out,
    sort (VArr [obj1 "age" (num 30); obj1 "age" (num 40); obj1 "age" (num 20)])
         (obj1 "age" (num (-1))) None = Ok (VArr out)
    /\ Permutation [obj1 "age" (num 30); obj1 "age" (num 40);
                    obj1 "age" (num 20)] out
    /\ StronglySorted (ordered_by (directed "age" (-1))) out.
Proof.
  apply (sort_orders_by_a_numeric_key "age" (-1)
           [obj1 "age" (num 30); obj1 "age" (num 40); obj1 "age" (num 20)]).
  - discriminate.
  - discriminate.
  - repeat constructor; discriminate.
Defined.

Lemma sort_keeps_ties_in_input_order_witness :
  List.filter (ranked_as (number_at "age") 30)
    [VObj [("age", num 20); ("name", VStr "c")];
     VObj [("age", num 30); ("name", VStr "b")];
     VObj [("age", num 30); ("name", VStr "a")]]
  = List.filter (ranked_as (number_at "age") 30)
      [VObj [("age", num 30); ("name", VStr "b")];
       VObj [("age", num 20); ("name", VStr "c")];
       VObj [("age", num 30); ("name", VStr "a")]].
Proof.
  apply (sort_keeps_ties_in_input_order "age" 1
           [VObj [("age", num 30); ("name", VStr "b")];
            VObj [("age", num 20); ("name", VStr "c")];
            VObj [("age", num 30); ("name", VStr "a")]]).
  - discriminate.
  - discriminate.
  - repeat constructor; discriminate.
  - reflexivity.
Defined.

Lemma earlier_key_decides_witness :
  _compare (VObj [("age", num 1); ("name", num 1)]) rankSpecialCase
    (VObj [("age", num 20); ("name", VStr "z")])
    (VObj [("age", num 30); ("name", VStr "a")])
  = Ok (num (- 1)).
Proof.
  assert (Hvec : ~ In "length" ["age"; "name"]).
  { intros [H|[H|[]]]; discriminate. }
  apply (proj1 (earlier_key_decides "age" 1 [("name", num 1)]
                  (VObj [("age", num 20); ("name", VStr "z")])
                  (VObj [("age", num 30); ("name", VStr "a")])
                  20 30 Hvec ltac:(discriminate) eq_refl eq_refl)).
  reflexivity.
Defined.

Section TextSortClause.

Lemma chars_length (s : string) : List.length (chars s) = String.length s.
Proof.
  unfold chars. rewrite length_map.
  induction s as [|c s IH]; cbn; congruence.
Qed.

Lemma unnumbered_absent n x :
  unnumbered n x = true ->
  exists props, x = VObj props
    /\ forall i, (i < n)%nat -> assoc (nat_to_string i) props = None.
Proof.
  unfold unnumbered. destruct x as [| | | | | | | |props]; try discriminate.
  intros H. exists props. split; [reflexivity|]. intros i Hi.
  rewrite forallb_forall in H. specialize (H i).
  destruct (assoc (nat_to_string i) props); [|reflexivity].
  discriminate H. apply in_seq. lia.
Qed.

Lemma flag_step_unnumbered pa pb flag i dir :
  assoc (nat_to_string i) pa = None ->
  assoc (nat_to_string i) pb = None ->
  flag_step rankSpecialCase (VObj pa) (VObj pb) flag (KIdx i, dir) = Ok flag.
Proof.
  intros Ha Hb. unfold flag_step, rankSpecialCase.
  cbn [key_name get bind]. rewrite Ha, Hb. reflexivity.
Qed.

Lemma compare_text_clause s x y :
  unnumbered (String.length s) x = true ->
  unnumbered (String.length s) y = true ->
  _compare (VStr s) rankSpecialCase x y = Ok (num 0).
Proof.
  intros Hx Hy.
  destruct (unnumbered_absent _ x Hx) as (pa & -> & Ha).
  destruct (unnumbered_absent _ y Hy) as (pb & -> & Hb).
  unfold _compare, entries. change (VNum (Fin 0)) with (num 0).
  rewrite <- chars_length in Ha, Hb.
  assert (H : forall l j flag,
             (j + List.length l <= List.length (chars s))%nat ->
             each (flag_step rankSpecialCase (VObj pa) (VObj pb))
                  (map (fun '(i, v) => (KIdx i, v)) (number_from j l)) flag
             = Ok flag).
  { induction l as [|e l IH]; intros j flag Hj; [reflexivity|].
    cbn [number_from map each List.length] in *.
    rewrite flag_step_unnumbered by (try apply Ha; try apply Hb; lia).
    cbn [bind]. apply IH. lia. }
  apply H. lia.
Qed.

(** X9. A sort clause given as a text is accepted by the validator
    when it is not empty, and the sort stage sorts nothing by it: its
    characters are visited as sort directions under their indices, so on
    dictionaries that have no attribute named by such an index every
    comparison is a tie and the tuples come back in input order. *)
Theorem text_sort_clause_sorts_nothing (s : string) (T : list value)
    (Hs : s <> "")
    (HT : Forall (fun x => unnumbered (String.length s) x = true) T) :
  validateSortClause (VStr s) = None
  /\ sort (VArr T) (VStr s) None = Ok (VArr T).
Proof.
  assert (Hne : String.eqb s "" = false) by now apply String.eqb_neq.
  split.
  { unfold validateSortClause. cbn [isUndefined Validate.isString ToBoolean].
    now rewrite Hne. }
  pose (rank := fun x => if unnumbered (String.length s) x
                         then Some 0 else @None Z).
  assert (Hall : forall l, Forall (fun x => unnumbered (String.length s) x
                                            = true) l ->
                           List.filter (ranked_as rank 0) l = l).
  { induction 1 as [|x l Hx _ IH]; [reflexivity|].
    cbn [List.filter]. unfold ranked_as at 1, rank at 1. rewrite Hx.
    cbn. now rewrite IH. }
  destruct (Array_sort_by_rank (_compare (VStr s) rankSpecialCase) rank)
    with (l := T) as (out & Hsort & _ & Hp & Hf).
  - intros x y a b Hx Hy. unfold rank in Hx, Hy.
    destruct (unnumbered _ x) eqn:Ux; [|discriminate].
    destruct (unnumbered _ y) eqn:Uy; [|discriminate].
    injection Hx as <-. injection Hy as <-.
    unfold sorts_before. now rewrite compare_text_clause.
  - intros x Hx. unfold rank in Hx.
    destruct (unnumbered _ x) eqn:Ux; [|contradiction].
    now destruct (unnumbered_absent _ x Ux) as (props & -> & _).
  - apply (Forall_impl _ (P := fun x => unnumbered (String.length s) x
                                       = true)); [|exact HT].
    intros x Hx. unfold rank. now rewrite Hx.
  - unfold sort, sortData, cloneDeep. cbn [ToBoolean negb orb].
    rewrite Hne. cbn [negb orb]. rewrite Hsort. cbn [bind].
    specialize (Hf 0). rewrite (Hall T HT) in Hf.
    rewrite Hall in Hf; [now rewrite Hf|].
    apply (Permutation_Forall Hp HT).
Qed.

End TextSortClause.

Lemma text_sort_clause_sorts_nothing_witness :
  sort (VArr [obj1 "name" (VStr "b"); obj1 "name" (VStr "a")])
       (VStr "name ASC") None
  = Ok (VArr [obj1 "name" (VStr "b"); obj1 "name" (VStr "a")]).
Proof.
  apply (proj2 (text_sort_clause_sorts_nothing "name ASC"
                  [obj1 "name" (VStr "b"); obj1 "name" (VStr "a")]
                  ltac:(discriminate)
                  ltac:(repeat constructor))).
Defined.

(* ===================================================================== *)
(** * Further properties of the filter stage                              *)
(* ===================================================================== *)

Section FilterProperties.

Context {A : Type}.
Variable f : A -> result bool.

Lemma filter_total (l : list A) :
  Forall (fun x => is_ok (f x) = true) l ->
  filter f l = Ok (List.filter (fun x => holds (f x)) l).
Proof.
  induction 1 as [|x l Hx _ IH]; [reflexivity|].
  cbn [filter List.filter]. rewrite IH.
  destruct (f x) as [[|]|e]; try discriminate; reflexivity.
Qed.

Lemma filter_is_ok (l : list A) :
  is_ok (filter f l) = forallb (fun x => is_ok (f x)) l.
Proof.
  induction l as [|x l IH]; [reflexivity|].
  cbn [filter forallb]. rewrite <- IH.
  destruct (f x) as [b|e]; [|reflexivity]. cbn [bind is_ok andb].
  now destruct (filter f l).
Qed.

Lemma filter_again (l r : list A) : filter f l = Ok r -> filter f r = Ok r.
Proof.
  revert r. induction l as [|x l IH]; intros r H; cbn [filter] in H.
  - now injection H as <-.
  - destruct (f x) as [b|e] eqn:Hx; cbn [bind] in H; [|discriminate].
    destruct (filter f l) as [r'|e]; cbn [bind] in H; [|discriminate].
    injection H as <-. specialize (IH r' eq_refl).
    destruct b; [|exact IH].
    cbn [filter]. now rewrite Hx, IH.
Qed.

Lemma filter_no_error (l : list A) (e : error) :
  Forall (fun x => f x <> Err e) l -> filter f l <> Err e.
Proof.
  induction 1 as [|x l Hx _ IH]; [discriminate|].
  cbn [filter]. destruct (f x) as [b|e0]; cbn [bind];
    [|intros [= ->]; now apply Hx].
  destruct (filter f l) as [r|e1]; cbn [bind]; [discriminate|exact IH].
Qed.

End FilterProperties.

Section WhereProperties.

Variable X_ISO_DATE : string -> bool.

Local Abbreviation matchSet := (Where.matchSet X_ISO_DATE).
Local Abbreviation matchItem := (Where.matchItem X_ISO_DATE).
Local Abbreviation compare := (Where.compare X_ISO_DATE).
Local Abbreviation where_ := (Where.where_ X_ISO_DATE).

Lemma where_array T criteria schema :
  where_ (VArr T) criteria schema
  = bind (filter (fun t => matchSet t criteria None (js_or schema (VObj [])))
                 T)
         (fun r => Ok (VArr r)).
Proof. unfold Where.where_. cbn [ToBoolean negb]. now rewrite array_values. Qed.

Lemma where_matching T criteria schema :
  Forall (fun t => is_ok (matchSet t criteria None (js_or schema (VObj [])))
                   = true) T ->
  where_ (VArr T) criteria schema
  = Ok (VArr (List.filter
                (fun t => holds (matchSet t criteria None
                                   (js_or schema (VObj [])))) T)).
Proof. intros Hok. rewrite where_array, (filter_total _ T Hok). reflexivity. Qed.

(** X10. When the criteria evaluate to a boolean on every tuple of an
    array, the filter stage returns the tuples the criteria match, and
    only those, in their input order. The schema the criteria are
    evaluated with is the one given, or the empty dictionary when that
    one is falsy. *)
Theorem where_keeps_the_matching_tuples (T : list value)
    (criteria schema : value)
    (Hok : Forall (fun t => is_ok (matchSet t criteria None
                                     (js_or schema (VObj []))) = true) T) :
  where_ (VArr T) criteria schema
  = Ok (VArr (List.filter
                (fun t => holds (matchSet t criteria None
                                   (js_or schema (VObj [])))) T)).
Proof.
  rewrite where_array.
  assert (Hf := filter_total
                  (fun t => matchSet t criteria None (js_or schema (VObj [])))
                  T Hok).
  cbv beta in Hf. now rewrite Hf.
Qed.

(** X11. The filter stage on an array returns a result exactly when
    the criteria evaluate without an error on every tuple: one tuple on
    which the evaluation raises makes the whole stage raise, whatever
    the other tuples are. *)
Theorem where_raises_when_a_tuple_raises (T : list value)
    (criteria schema : value) :
  is_ok (where_ (VArr T) criteria schema)
  = forallb (fun t => is_ok (matchSet t criteria None
                               (js_or schema (VObj [])))) T.
Proof.
  rewrite where_array, <- filter_is_ok.
  now destruct (filter _ T).
Qed.

(** X12. Filtering is idempotent: filtering the result of the filter
    stage again, by the same criteria and schema, returns it unchanged. *)
Theorem where_is_idempotent (T : list value) (criteria schema r : value)
    (Hr : where_ (VArr T) criteria schema = Ok r) :
  where_ r criteria schema = Ok r.
Proof.
  rewrite where_array in Hr.
  destruct (filter _ T) as [out|e] eqn:Hf; cbn [bind] in Hr; [|discriminate].
  injection Hr as <-. rewrite where_array.
  now rewrite (filter_again _ T out Hf).
Qed.

Lemma filter_filter (p q : value -> bool) (l : list value) :
  List.filter q (List.filter p l) = List.filter (fun x => p x && q x) l.
Proof.
  induction l as [|x l IH]; [reflexivity|]. cbn [List.filter].
  destruct (p x); cbn [andb List.filter]; [|exact IH].
  destruct (q x); now rewrite IH.
Qed.

Lemma Forall_filter (P : value -> Prop) (p : value -> bool) (l : list value) :
  Forall P l -> Forall P (List.filter p l).
Proof.
  induction 1 as [|x l Hx _ IH]; [constructor|]. cbn [List.filter].
  destruct (p x); auto.
Qed.

(** X13. Filtering by one criteria and then by another is filtering
    by their conjunction: when both criteria evaluate to a boolean on
    every tuple, the filter stage applied with [c1] and then with [c2]
    returns what it returns with the criteria {and: [c1, c2]}. *)
Theorem filtering_twice_is_filtering_by_and (T : list value)
    (c1 c2 schema : value)
    (H1 : Forall (fun t => is_ok (matchSet t c1 None (js_or schema (VObj [])))
                           = true) T)
    (H2 : Forall (fun t => is_ok (matchSet t c2 None (js_or schema (VObj [])))
                           = true) T) :
  bind (where_ (VArr T) c1 schema) (fun r => where_ r c2 schema)
  = where_ (VArr T) (obj1 "and" (VArr [c1; c2])) schema.
Proof.
  set (s := js_or schema (VObj [])) in *.
  assert (Hand : forall t, In t T ->
            matchSet t (obj1 "and" (VArr [c1; c2])) None s
            = Ok (holds (matchSet t c1 None s)
                  && holds (matchSet t c2 None s))).
  { intros t Ht. rewrite Forall_forall in H1, H2.
    rewrite (matchSet_single X_ISO_DATE)
      by now apply single_not_array_like.
    change (Where.matchItem X_ISO_DATE t "and" (VArr [c1; c2]) None s)
      with (Where.matchAnd X_ISO_DATE t (VArr [c1; c2]) s).
    rewrite (matchAnd_list X_ISO_DATE).
    - cbn [bind forallb]. now rewrite Bool.andb_true_r.
    - repeat constructor; auto. }
  rewrite (where_matching T c1 schema H1). cbn [bind].
  rewrite where_matching by now apply Forall_filter.
  rewrite where_matching.
  - fold s. rewrite filter_filter. do 2 f_equal.
    apply filter_ext_in. intros t Ht. rewrite (Hand t Ht).
    now destruct (holds _ && holds _).
  - fold s. apply Forall_forall. intros t Ht. now rewrite (Hand t Ht).
Qed.

(** X14. A criteria that is not a non-empty text, array or dictionary
    (null, undefined, a number, a boolean, a date, the empty text, the
    empty array, the empty dictionary) matches every value, so the filter
    stage returns the whole array. *)
Theorem criteria_without_entries_keep_everything (T : list value)
    (criteria schema : value)
    (Hc : visits_nothing criteria = true) :
  (forall model parentKey,
      matchSet model criteria parentKey schema = Ok true)
  /\ where_ (VArr T) criteria schema = Ok (VArr T).
Proof.
  assert (Hm : forall model parentKey s,
             matchSet model criteria parentKey s = Ok true).
  { intros model parentKey s.
    destruct criteria as [| |[|]|[| |z]|[|c0 s0]| | |[|e l]|[|p l]];
      try discriminate Hc; try reflexivity.
    cbn. now destruct (z =? 0). }
  split; [intros; apply Hm|].
  rewrite where_matching.
  - f_equal. f_equal. induction T as [|t T IH]; [reflexivity|].
    cbn [List.filter]. rewrite Hm. cbn [holds]. now rewrite IH.
  - apply Forall_forall. intros t _. now rewrite Hm.
Qed.

End WhereProperties.

Lemma where_keeps_the_matching_tuples_witness :
  where_ iso_date_pattern ages (obj1 "age" (obj1 ">" (num 25))) VUndefined
  = Ok (VArr [obj1 "age" (num 30); obj1 "age" (num 40)]).
Proof.
  apply (where_keeps_the_matching_tuples iso_date_pattern
           [obj1 "age" (num 20); obj1 "age" (num 30); obj1 "age" (num 40)]
           (obj1 "age" (obj1 ">" (num 25))) VUndefined).
  repeat constructor.
Defined.

Lemma where_is_idempotent_witness :
  where_ iso_date_pattern (VArr [obj1 "age" (num 30); obj1 "age" (num 40)])
    (obj1 "age" (obj1 ">" (num 25))) VUndefined
  = Ok (VArr [obj1 "age" (num 30); obj1 "age" (num 40)]).
Proof.
  apply (where_is_idempotent iso_date_pattern
           [obj1 "age" (num 20); obj1 "age" (num 30); obj1 "age" (num 40)]).
  reflexivity.
Defined.

Lemma filtering_twice_is_filtering_by_and_witness :
  bind (where_ iso_date_pattern ages (obj1 "age" (obj1 ">" (num 25)))
          VUndefined)
       (fun r => where_ iso_date_pattern r (obj1 "age" (obj1 "<" (num 35)))
                   VUndefined)
  = where_ iso_date_pattern ages
      (obj1 "and" (VArr [obj1 "age" (obj1 ">" (num 25));
                         obj1 "age" (obj1 "<" (num 35))])) VUndefined.
Proof.
  apply (filtering_twice_is_filtering_by_and iso_date_pattern
           [obj1 "age" (num 20); obj1 "age" (num 30); obj1 "age" (num 40)]);
    repeat constructor.
Defined.

Lemma criteria_without_entries_keep_everything_witness :
  where_ iso_date_pattern ages (VObj []) VUndefined = Ok ages.
Proof.
  apply (proj2 (criteria_without_entries_keep_everything iso_date_pattern
                  [obj1 "age" (num 20); obj1 "age" (num 30);
                   obj1 "age" (num 40)]
                  (VObj []) VUndefined eq_refl)).
Defined.

(* ===================================================================== *)
(** * Further properties of the comparator                                *)
(* ===================================================================== *)

Section ComparatorProperties.

Variable X_ISO_DATE : string -> bool.

Local Abbreviation compare := (Where.compare X_ISO_DATE).
Local Abbreviation normalizeComparison := (Where.normalizeComparison X_ISO_DATE).

Lemma number_eqb_sym a b : number_eqb a b = number_eqb b a.
Proof.
  destruct a as [|[]|x], b as [|[]|y]; try reflexivity. apply Z.eqb_sym.
Qed.

Lemma loose_eq_sym a b : loose_eq a b = loose_eq b a.
Proof.
  destruct a, b; try reflexivity; unfold loose_eq;
    first [apply number_eqb_sym | apply String.eqb_sym].
Qed.

Lemma normalizeComparison_swap a b :
  normalizeComparison b a
  = bind (normalizeComparison a b) (fun '(x, y) => Ok (y, x)).
Proof.
  unfold Where.normalizeComparison.
  destruct a as [| | | | | ta | | |], b as [| | | | | tb | | |];
    cbn -[toISOString ToString toLowerCase Date_parse];
    repeat match goal with
           | |- context [X_ISO_DATE ?s] => destruct (X_ISO_DATE s)
           | |- context [toISOString ?t] =>
               destruct (toISOString t);
               cbn -[toISOString ToString toLowerCase Date_parse]
           end;
    reflexivity.
Qed.

(** X15. The comparison functions mirror one another under a swap of
    their operands: equality and inequality are symmetric, and "greater
    than" (or equal) on [a] and [b] is "less than" (or equal) on [b] and
    [a], errors included. *)
Theorem comparators_mirror (a b : value) :
  compare "=" a b = compare "=" b a
  /\ compare "!" a b = compare "!" b a
  /\ compare ">" a b = compare "<" b a
  /\ compare ">=" a b = compare "<=" b a.
Proof.
  unfold Where.compare. rewrite (normalizeComparison_swap a b).
  destruct (normalizeComparison a b) as [[x y]|e]; cbn [bind];
    [|now repeat split].
  change (String.eqb "=" "=") with true.
  change (String.eqb "!" "=") with false.
  change (String.eqb "!" "!") with true.
  cbv beta iota.
  rewrite (loose_eq_sym x y). repeat split; reflexivity.
Qed.

Lemma lower_char_idem c : lower_char (lower_char c) = lower_char c.
Proof. destruct c as [[] [] [] [] [] [] [] []]; reflexivity. Qed.

Lemma toLowerCase_idem s : toLowerCase (toLowerCase s) = toLowerCase s.
Proof.
  induction s as [|c s IH]; [reflexivity|]. cbn [toLowerCase].
  now rewrite lower_char_idem, IH.
Qed.

(** X16. Two texts are compared without regard to the case of their
    ASCII letters, by every comparison function: comparing them is
    comparing their lower-case forms. *)
Theorem comparators_ignore_case (op : string) (s t : string) :
  compare op (VStr s) (VStr t)
  = compare op (VStr (toLowerCase s)) (VStr (toLowerCase t)).
Proof.
  unfold Where.compare, Where.normalizeComparison.
  cbn [isUndefined isNull orb]. now rewrite !toLowerCase_idem.
Qed.

Lemma normalizeComparison_outcome a b :
  if lone_invalid_date a b
  then normalizeComparison a b = Err RangeError
  else exists p, normalizeComparison a b = Ok p.
Proof.
  unfold lone_invalid_date, Where.normalizeComparison.
  destruct a as [| | | | | [|na|za] | | |], b as [| | | | | [|nb|zb] | | |];
    cbn -[toISOString ToString toLowerCase Date_parse];
    repeat match goal with
           | |- context [toISOString (Fin ?z)] =>
               let iso := fresh "iso" in
               destruct (toISOString_finite z) as [iso ->];
               cbn -[toISOString ToString toLowerCase Date_parse]
           | |- context [if ?c then _ else _] => destruct c
           end;
    first [reflexivity | eexists; reflexivity].
Qed.

(** X17. The comparison functions raise in one situation only: when
    one operand is an invalid date and the other is not a date, its
    conversion to an ISO text raises a RangeError. In every other case,
    two invalid dates included, each of the six functions returns a
    boolean. *)
Theorem comparators_raise_on_a_lone_invalid_date (op : string) (a b : value)
    (Hop : Where.member op ["="; "!"; ">"; ">="; "<"; "<="] = true) :
  if lone_invalid_date a b
  then compare op a b = Err RangeError
  else exists r, compare op a b = Ok r.
Proof.
  pose proof (normalizeComparison_outcome a b) as H.
  unfold Where.compare.
  destruct (lone_invalid_date a b).
  - now rewrite H.
  - destruct H as [[x y] ->]. cbn [bind].
    unfold Where.member in Hop. cbn [existsb] in Hop.
    repeat match goal with
           | |- context [String.eqb op ?s] => destruct (String.eqb op s)
           end; try (eexists; reflexivity).
    discriminate.
Qed.

(** X18. The test [isNumbery] accepts exactly the values that are not
    dates and whose conversion to a number is neither NaN nor zero: the
    two infinities and the boolean true pass it, while 0, the text "0",
    the empty text, null and false do not. *)
Theorem isNumbery_accepts_what_is_not_zero (v : value) :
  isNumbery v
  = negb (isDate v)
    && match ToNumber v with
       | NaN | Fin 0 => false
       | _ => true
       end.
Proof.
  unfold isNumbery. destruct (isDate v); [reflexivity|]. cbn [negb andb].
  now destruct (ToNumber v) as [|[]|[|p|p]].
Qed.

End ComparatorProperties.

Lemma comparators_raise_on_a_lone_invalid_date_witness :
  compare iso_date_pattern "<" (VDate NaN) (VStr "2020") = Err RangeError.
Proof.
  apply (comparators_raise_on_a_lone_invalid_date iso_date_pattern "<"
           (VDate NaN) (VStr "2020")).
  reflexivity.
Defined.

(* ===================================================================== *)
(** * Further properties of the criteria evaluator                        *)
(* ===================================================================== *)

Section ModifierProperties.

Variable X_ISO_DATE : string -> bool.

Local Abbreviation matchSet := (Where.matchSet X_ISO_DATE).
Local Abbreviation matchItem := (Where.matchItem X_ISO_DATE).
Local Abbreviation compare := (Where.compare X_ISO_DATE).

Lemma not_in_loop model pk L m0 :
  Forall (fun val => is_ok (bind (get model pk)
                              (fun v => compare "=" v val)) = true) L ->
  each (fun (m : bool) val =>
          bind (get model pk) (fun v =>
          bind (compare "=" v val) (fun c => Ok (if c then true else m))))
       L m0
  = Ok (m0 || existsb (fun val => holds (bind (get model pk)
                                           (fun v => compare "=" v val))) L).
Proof.
  intros H. revert m0. induction H as [|val L Hv _ IH]; intros m0.
  - cbn. now rewrite Bool.orb_false_r.
  - cbn [each existsb].
    destruct (get model pk) as [v|e]; [|discriminate]. cbn [bind] in *.
    destruct (compare "=" v val) as [c|e]; [|discriminate]. cbn [bind].
    rewrite IH. now destruct c, m0.
Qed.

Lemma scoped_not_in model key pk L schema :
  pk <> "" -> key = "!" \/ key = "not" ->
  Forall (fun val => is_ok (bind (get model pk)
                              (fun v => compare "=" v val)) = true) L ->
  matchItem model key (VArr L) (Some pk) schema
  = Ok (negb (existsb (fun val => holds (bind (get model pk)
                                           (fun v => compare "=" v val))) L)).
Proof.
  intros Hpk Hkey HL. destruct pk as [|p0 pk]; [congruence|].
  unfold Where.matchItem, matchItemF.
  destruct Hkey as [-> | ->].
  - change (Where.member "!" ["equals"; "="; "equal"]) with false.
    change (Where.member "!" ["not"; "!"]) with true. cbv iota.
    rewrite (not_in_loop model (String p0 pk) L false HL).
    cbn [bind orb]. now destruct (existsb _ L).
  - change (Where.member "not" ["equals"; "="; "equal"]) with false.
    change (Where.member "not" ["not"; "!"]) with true. cbv iota.
    rewrite (not_in_loop model (String p0 pk) L false HL).
    cbn [bind orb]. now destruct (existsb _ L).
Qed.

(** X19. The NOT IN filter is the complement of the IN filter: for
    an attribute name [k] that is not empty and not a combinator key, and
    a list whose elements all compare without an error against the
    attribute of the tuple, the criteria {k: {"!": L}} and
    {k: {not: L}} match exactly when {k: L} does not. With the empty list
    the IN filter matches nothing and the NOT IN filter everything. *)
Theorem not_in_complements_in (model : value) (k : string) (L : list value)
    (schema : value)
    (Hname : k <> "")
    (Hattr : Where.member (toLowerCase k) combinator_keys = false)
    (Hok : Forall (fun val => is_ok (bind (get model k)
                                       (fun v => compare "=" v val)) = true)
                  L) :
  let isin := matchSet model (obj1 k (VArr L)) None schema in
  matchSet model (obj1 k (obj1 "!" (VArr L))) None schema
  = bind isin (fun b => Ok (negb b))
  /\ matchSet model (obj1 k (obj1 "not" (VArr L))) None schema
     = bind isin (fun b => Ok (negb b))
  /\ matchSet model (obj1 k (VArr [])) None schema = Ok false
  /\ matchSet model (obj1 k (obj1 "!" (VArr []))) None schema = Ok true.
Proof.
  assert (Hin : forall L',
             Forall (fun val => is_ok (bind (get model k)
                                         (fun v => compare "=" v val)) = true)
                    L' ->
             matchSet model (obj1 k (VArr L')) None schema
             = Ok (existsb (fun val => holds (bind (get model k)
                                                (fun v => compare "=" v val)))
                           L')).
  { intros L' HL'.
    rewrite (matchSet_single X_ISO_DATE) by now apply single_not_array_like.
    rewrite (matchItem_in_filter X_ISO_DATE) by exact Hattr.
    now rewrite (some_total _ L' HL'). }
  assert (Hnin : forall key L', key = "!" \/ key = "not" ->
             Forall (fun val => is_ok (bind (get model k)
                                         (fun v => compare "=" v val)) = true)
                    L' ->
             matchSet model (obj1 k (obj1 key (VArr L'))) None schema
             = Ok (negb (existsb
                           (fun val => holds (bind (get model k)
                                                (fun v => compare "=" v val)))
                           L'))).
  { intros key L' Hkey HL'.
    rewrite (matchSet_single X_ISO_DATE) by now apply single_not_array_like.
    unfold obj1 at 1.
    rewrite (matchItem_enters_scoped_mode X_ISO_DATE); [|exact Hattr|].
    - fold (obj1 key (VArr L')).
      rewrite (matchSet_single X_ISO_DATE) by now apply single_not_array_like.
      now rewrite (scoped_not_in model key k L' schema Hname Hkey HL').
    - destruct Hkey as [-> | ->]; reflexivity. }
  intros isin. unfold isin.
  rewrite (Hin L Hok), !Hnin, Hin by auto.
  repeat split; reflexivity.
Qed.

Lemma hint_without_date schema key :
  declares_date schema key = false ->
  exists h,
    (if ToBoolean schema then
       bind (get schema key)
            (fun sk => if ToBoolean sk then get sk "type" else Ok sk)
     else Ok schema) = Ok h
    /\ ToBoolean h && strict_eq_text h "date" = false.
Proof.
  unfold declares_date. intros H.
  destruct (ToBoolean schema) eqn:Hs.
  - assert (Hg : exists sk, get schema key = Ok sk)
      by (destruct schema; try discriminate Hs; eexists; reflexivity).
    destruct Hg as [sk Hg]. rewrite Hg in *. cbn [bind].
    destruct (ToBoolean sk) eqn:Hsk.
    + assert (Ht : exists ty, get sk "type" = Ok ty)
        by (destruct sk; try discriminate Hsk; eexists; reflexivity).
      destruct Ht as [ty Ht]. rewrite Ht in *. exists ty.
      split; [reflexivity|]. cbn [andb] in H. rewrite H.
      apply Bool.andb_false_r.
    + exists sk. now rewrite Hsk.
  - exists schema. now rewrite Hs.
Qed.

Lemma sqlLikeMatch_text_total v p : is_ok (sqlLikeMatch v (VStr p)) = true.
Proof.
  destruct v; try reflexivity.
  - change (sqlLikeMatch (VBool b) (VStr p))
      with (sqlLikeMatch (VStr (if b then "true" else "false")) (VStr p)).
    now rewrite sqlLikeMatch_pieces.
  - change (sqlLikeMatch (VNum n) (VStr p))
      with (sqlLikeMatch (VStr (NumberToString n)) (VStr p)).
    now rewrite sqlLikeMatch_pieces.
  - now rewrite sqlLikeMatch_pieces.
Qed.

(** X20. The [like] modifier raises on numeric texts. When the
    attribute [k] of a tuple and the pattern both pass [isNumbery] (two
    texts of digits, for instance) and no date hint applies, the literal
    match casts both to numbers before it calls the pattern matcher,
    which rejects a pattern that is a number: the criteria
    {k: {like: b}} raises the unexpected-match-string error. The same
    pattern under the top-level [like] key, {like: {k: b}}, is not cast
    and evaluates to a boolean. *)
Theorem like_modifier_raises_on_numeric_text
    (props : list (string * value)) (k b : string) (val schema : value)
    (Hname : k <> "")
    (Hattr : Where.member (toLowerCase k) combinator_keys = false)
    (Hval : assoc k props = Some val)
    (Hnv : isNumbery val = true) (Hnb : isNumbery (VStr b) = true)
    (Hhint : declares_date schema k = false) :
  matchSet (VObj props) (obj1 k (obj1 "like" (VStr b))) None schema
  = Err UnexpectedMatchString
  /\ is_ok (matchSet (VObj props) (obj1 "like" (obj1 k (VStr b))) None schema)
     = true.
Proof.
  split.
  - rewrite (matchSet_single X_ISO_DATE) by now apply single_not_array_like.
    unfold obj1 at 1.
    rewrite (matchItem_enters_scoped_mode X_ISO_DATE);
      [|exact Hattr|reflexivity].
    fold (obj1 "like" (VStr b)).
    rewrite (matchSet_single X_ISO_DATE) by now apply single_not_array_like.
    destruct k as [|k0 k]; [congruence|].
    unfold Where.matchItem, matchItemF.
    change (Where.member "like" ["equals"; "="; "equal"]) with false.
    change (Where.member "like" ["not"; "!"]) with false.
    change (Where.member "like" ["greaterThan"; ">"]) with false.
    change (Where.member "like" ["greaterThanOrEqual"; ">="]) with false.
    change (Where.member "like" ["lessThan"; "<"]) with false.
    change (Where.member "like" ["lessThanOrEqual"; "<="]) with false.
    change (String.eqb "like" "startsWith") with false.
    change (String.eqb "like" "endsWith") with false.
    change (String.eqb "like" "contains") with false.
    change (String.eqb "like" "like") with true. cbv iota.
    unfold Where.matchLiteral, cloneDeep. cbn [get bind]. rewrite Hval.
    destruct (hint_without_date schema _ Hhint) as (h & Hh & Hd).
    rewrite Hh. cbn [bind]. rewrite Hd.
    cbn [bind]. rewrite Hnb, Hnv. cbn [andb hasOwnProperty bind].
    rewrite Hval. reflexivity.
  - rewrite (matchSet_single X_ISO_DATE) by now apply single_not_array_like.
    unfold Where.matchItem, matchItemF.
    change (String.eqb (toLowerCase "like") "or") with false.
    change (String.eqb (toLowerCase "like") "not") with false.
    change (String.eqb (toLowerCase "like") "and") with false.
    change (String.eqb (toLowerCase "like") "like") with true. cbv iota.
    unfold matchLike, obj1, own_entries, checkLike. cbn [every get bind].
    rewrite Hval.
    pose proof (sqlLikeMatch_text_total val b) as Hm.
    destruct (sqlLikeMatch val (VStr b)) as [[|]|e]; try discriminate;
      reflexivity.
Qed.

End ModifierProperties.

Lemma not_in_complements_in_witness :
  matchSet iso_date_pattern kermit
    (obj1 "name" (obj1 "!" (VArr [VStr "gonzo"; VStr "piggy"]))) None (VObj [])
  = bind (matchSet iso_date_pattern kermit
            (obj1 "name" (VArr [VStr "gonzo"; VStr "piggy"])) None (VObj []))
         (fun b => Ok (negb b)).
Proof.
  apply (proj1 (not_in_complements_in iso_date_pattern kermit "name"
                  [VStr "gonzo"; VStr "piggy"] (VObj [])
                  ltac:(discriminate) eq_refl
                  ltac:(repeat constructor))).
Defined.

Lemma like_modifier_raises_on_numeric_text_witness :
  matchSet iso_date_pattern (obj1 "zip" (VStr "90210"))
    (obj1 "zip" (obj1 "like" (VStr "90210"))) None (VObj [])
  = Err UnexpectedMatchString.
Proof.
  apply (proj1 (like_modifier_raises_on_numeric_text iso_date_pattern
                  [("zip", VStr "90210")] "zip" "90210" (VStr "90210")
                  (VObj []) ltac:(discriminate) eq_refl eq_refl eq_refl
                  eq_refl eq_refl)).
Defined.

(* ===================================================================== *)
(** * Further properties of the pattern matcher                           *)
(* ===================================================================== *)

Section LiteralPatterns.

Lemma unescape_ordinary c r :
  Ascii.eqb c "%" = false ->
  unescape_percent (String c r) = String c (unescape_percent r).
Proof.
  destruct c as [[] [] [] [] [] [] [] []]; try discriminate; reflexivity.
Qed.

Lemma unescape_without_percent p :
  has_percent p = false -> unescape_percent p = p.
Proof.
  induction p as [|c p IH]; [reflexivity|]. cbn [has_percent].
  intros H. apply Bool.orb_false_elim in H. destruct H as [Hc Hp].
  now rewrite (unescape_ordinary c p Hc), IH.
Qed.

Lemma like_pieces_without_percent p :
  has_percent p = false -> like_pieces p = literal_pieces p.
Proof.
  induction p as [|c p IH]; [reflexivity|]. cbn [has_percent].
  intros H. apply Bool.orb_false_elim in H. destruct H as [Hc Hp].
  cbn [like_pieces literal_pieces]. now rewrite Hc, IH.
Qed.

Lemma match_literal_ignoring_case p v :
  match_pieces true true (literal_pieces p) v
  = String.eqb (toLowerCase v) (toLowerCase p).
Proof.
  revert v. induction p as [|c p IH]; intros [|d v]; try reflexivity.
  cbn [literal_pieces match_pieces atom_matches toLowerCase String.eqb].
  rewrite IH, (Ascii.eqb_sym (lower_char c)).
  now destruct (Ascii.eqb (lower_char d) (lower_char c)).
Qed.

Lemma match_literal p v :
  match_pieces false true (literal_pieces p) v = String.eqb v p.
Proof.
  revert v. induction p as [|c p IH]; intros [|d v]; try reflexivity.
  cbn [literal_pieces match_pieces atom_matches String.eqb].
  rewrite IH, (Ascii.eqb_sym c).
  now destruct (Ascii.eqb d c).
Qed.

(** X21. A pattern without a percent sign matches the texts equal to
    it up to the case of ASCII letters, and no other: every character of
    the pattern, regular expression metacharacters included, stands for
    itself. *)
Theorem pattern_without_percent_is_equality (v p : string)
    (Hp : has_percent p = false) :
  sqlLikeMatch (VStr v) (VStr p)
  = Ok (String.eqb (toLowerCase v) (toLowerCase p)).
Proof.
  rewrite sqlLikeMatch_pieces, (unescape_without_percent p Hp).
  now rewrite (like_pieces_without_percent p Hp), match_literal_ignoring_case.
Qed.

Lemma unescape_prefix p :
  has_percent p = false ->
  unescape_percent (String.append p "%") = String.append p "%".
Proof.
  induction p as [|c p IH]; [reflexivity|]. cbn [has_percent].
  intros H. apply Bool.orb_false_elim in H. destruct H as [Hc Hp].
  cbn [String.append]. now rewrite (unescape_ordinary c _ Hc), IH.
Qed.

Lemma like_pieces_prefix p :
  has_percent p = false ->
  like_pieces (String.append p "%")
  = (literal_pieces p ++ [PStar ADot])%list.
Proof.
  induction p as [|c p IH]; [reflexivity|]. cbn [has_percent].
  intros H. apply Bool.orb_false_elim in H. destruct H as [Hc Hp].
  cbn [String.append like_pieces literal_pieces app]. now rewrite Hc, IH.
Qed.

Lemma match_wildcard r :
  match_pieces true true [PStar ADot] r = single_line r.
Proof.
  induction r as [|c r IH]; [reflexivity|].
  change (match_pieces true true [PStar ADot] (String c r))
    with (String.eqb (String c r) ""
          || atom_matches true ADot c
             && match_pieces true true [PStar ADot] r).
  cbn [String.eqb orb single_line atom_matches]. now rewrite IH.
Qed.

Lemma match_prefix p v :
  match_pieces true true (literal_pieces p ++ [PStar ADot]) v
  = match after_prefix p v with
    | Some r => single_line r
    | None => false
    end.
Proof.
  revert v. induction p as [|c p IH]; intros v.
  - cbn [literal_pieces app after_prefix]. apply match_wildcard.
  - destruct v as [|d v]; [reflexivity|].
    cbn [literal_pieces app after_prefix].
    change (match_pieces true true
              (POne (AChar c) :: literal_pieces p ++ [PStar ADot])
              (String d v))
      with (atom_matches true (AChar c) d
            && match_pieces true true (literal_pieces p ++ [PStar ADot]) v).
    rewrite IH. cbn [atom_matches].
    now destruct (Ascii.eqb (lower_char c) (lower_char d)).
Qed.

(** X22. The [startsWith] check on two texts, for a prefix without a
    percent sign: the text matches exactly when it starts with the
    prefix, the case of ASCII letters ignored, and what follows the
    prefix holds no line terminator (the wildcard does not span lines). *)
Theorem startsWith_matches_a_prefix_on_one_line (v p : string)
    (Hp : has_percent p = false) :
  checkStartsWith (VStr v) (VStr p)
  = Ok (match after_prefix p v with
        | Some r => single_line r
        | None => false
        end).
Proof.
  unfold checkStartsWith. cbn [ToString].
  rewrite sqlLikeMatch_pieces, (unescape_prefix p Hp).
  now rewrite (like_pieces_prefix p Hp), match_prefix.
Qed.

(** What follows a character of the escaped text is never a bare star. *)
Lemma escaped_head s :
  match String.append (escapeRegExp s) "$" with
  | String h _ => Ascii.eqb h "*" = false
  | EmptyString => False
  end.
Proof.
  destruct s as [|c s]; [reflexivity|]. cbn [escapeRegExp].
  destruct (regexp_special c) eqn:Hs; cbn [String.append]; [reflexivity|].
  now apply ordinary_cases.
Qed.

Lemma read_escaped s :
  read_pieces (String.append (escapeRegExp s) "$")
  = Some (literal_pieces s, true).
Proof.
  induction s as [|c s IH]; [reflexivity|].
  pose proof (escaped_head s) as Hh. cbn [escapeRegExp].
  destruct (regexp_special c) eqn:Hs.
  - destruct (special_cases c Hs) as [_ Ha].
    cbn [String.append read_pieces literal_pieces].
    change (Ascii.eqb "\" "$") with false.
    change (Ascii.eqb "\" "\") with true. cbv iota. rewrite Ha.
    destruct (String.append _ "$") as [|h rest]; [contradiction|].
    rewrite Hh, IH. reflexivity.
  - destruct (ordinary_cases c Hs) as (H1 & H2 & H3 & H4 & H5).
    cbn [String.append read_pieces literal_pieces]. rewrite H1, H2, H3, H5.
    destruct (String.append _ "$") as [|h rest]; [contradiction|].
    rewrite Hh, IH. reflexivity.
Qed.

(** X23. Escaping neutralises every metacharacter: the regular
    expression whose source is the escaped form of a text, between the
    anchors, is in the fragment that is read, and the texts it matches
    are that text and no other. *)
Theorem escapeRegExp_matches_the_text_itself (s v : string) :
  String_match v
    (VRegExp (String.append "^" (String.append (escapeRegExp s) "$")) "")
  = Ok (String.eqb v s).
Proof.
  unfold String_match, read_regex. cbn [String.append read_flags].
  rewrite read_escaped. unfold regex_test.
  cbn [anchored_start anchored_end pieces]. now rewrite match_literal.
Qed.

End LiteralPatterns.

Lemma pattern_without_percent_is_equality_witness :
  sqlLikeMatch (VStr "A.B (c)") (VStr "a.b (C)") = Ok true.
Proof.
  apply (pattern_without_percent_is_equality "A.B (c)" "a.b (C)").
  reflexivity.
Defined.

Lemma startsWith_matches_a_prefix_on_one_line_witness :
  checkStartsWith (VStr "Kermit the frog") (VStr "kermit") = Ok true.
Proof.
  apply (startsWith_matches_a_prefix_on_one_line "Kermit the frog" "kermit").
  reflexivity.
Defined.

(* ===================================================================== *)
(** * Further properties of the projection stage                          *)
(* ===================================================================== *)

Section FlatProjection.

Variable rec : value -> value -> result (value * value).

Lemma set_prop_same k v props :
  assoc k props = Some v -> set_prop k v props = props.
Proof.
  induction props as [|[k' v'] props IH]; [discriminate|].
  cbn [assoc set_prop]. destruct (String.eqb_spec k k') as [->|Hk].
  - now intros [= ->].
  - intros H. now rewrite IH.
Qed.

Lemma flat_value props k v :
  flat_spec props = true -> assoc k props = Some v ->
  String.eqb (typeof v) "object" = false.
Proof.
  intros Hf Ha. apply assoc_In in Ha. unfold flat_spec in Hf.
  rewrite forallb_forall in Hf. specialize (Hf _ Ha).
  now apply Bool.negb_true_iff in Hf.
Qed.

Lemma flat_remove k props :
  flat_spec props = true -> flat_spec (remove_prop k props) = true.
Proof.
  unfold flat_spec. rewrite !forallb_forall. intros H p Hp.
  apply H. now apply (remove_prop_incl k).
Qed.

Lemma visit_entry_flat t props attr :
  flat_spec props = true ->
  visit_entry rec (t, VObj props) attr = Ok (t, VObj props).
Proof.
  intros Hf. unfold visit_entry. cbn [get bind].
  destruct (assoc (key_name attr) props) as [v|] eqn:E.
  - unfold subselect_step. rewrite (flat_value props _ v Hf E). cbn [bind].
    unfold store. now rewrite E, (set_prop_same _ v props E).
  - unfold subselect_step. cbn [typeof bind].
    change (String.eqb "undefined" "object") with false. cbv iota.
    cbn [bind]. unfold store. now rewrite E.
Qed.

Lemma visit_entries_flat names t props :
  flat_spec props = true ->
  each (visit_entry rec) names (t, VObj props) = Ok (t, VObj props).
Proof.
  intros Hf. induction names as [|a names IH]; [reflexivity|].
  cbn [each]. now rewrite (visit_entry_flat t props a Hf).
Qed.

Lemma visit_tuples_flat hasSplat omitted T out props :
  flat_spec props = true ->
  each (visit_tuple rec hasSplat omitted) T (out, VObj props)
  = Ok ((out ++ map (fun t =>
                       if hasSplat then
                         omit t (fun _ attrName => includes omitted attrName)
                       else pick t (map fst props)) T)%list,
        VObj props).
Proof.
  intros Hf. revert out. induction T as [|t T IH]; intros out.
  - cbn. now rewrite app_nil_r.
  - cbn [each map]. unfold visit_tuple at 1, select_tuple.
    rewrite visit_entries_flat by exact Hf. cbn [bind].
    rewrite IH, <- app_assoc. reflexivity.
Qed.

Lemma includes_false_keys props k :
  includes
    (List.filter (fun key => match get (VObj props) key with
                             | Ok (VBool false) => true
                             | _ => false
                             end) (Object_keys (VObj props))) k
  = explicitly_false props k.
Proof.
  unfold includes, explicitly_false, Object_keys, own_entries. cbn [get].
  destruct (existsb _ _) eqn:E.
  - apply existsb_exists in E. destruct E as (k' & Hin & Hk).
    apply String.eqb_eq in Hk. subst k'. apply filter_In in Hin.
    destruct Hin as [_ Hin].
    now destruct (assoc k props) as [[|
                                     |[|]| | | | | |]|].
  - destruct (assoc k props) as [[| |[|]| | | | | |]|] eqn:Ha;
      try reflexivity.
    exfalso. apply Bool.not_true_iff_false in E. apply E.
    apply existsb_exists. exists k. split; [|apply String.eqb_refl].
    apply filter_In. split; [|now rewrite Ha].
    apply assoc_In in Ha. now apply (in_map fst) in Ha.
Qed.

Lemma select_step_flat T props :
  flat_spec props = true ->
  select_step rec (VArr T) (VObj props)
  = Ok (VArr (map (fun t =>
                     if ToBoolean (match assoc "*" props with
                                   | Some v => v
                                   | None => VUndefined
                                   end)
                     then omit t (fun _ attrName =>
                                    explicitly_false props attrName)
                     else pick t (map fst (remove_prop "*" props))) T),
        VObj (remove_prop "*" props)).
Proof.
  intros Hf. unfold select_step.
  cbn [strict_eq_text typeof get bind].
  change (String.eqb "object" "object") with true. cbv iota. cbn [negb].
  rewrite array_values.
  rewrite (visit_tuples_flat _ _ T [] (remove_prop "*" props))
    by now apply flat_remove.
  cbn [bind app]. do 3 f_equal. apply map_ext. intros t.
  destruct (ToBoolean _); [|reflexivity].
  unfold omit. f_equal.
  apply filter_ext. intros [k v]. f_equal. apply includes_false_keys.
Qed.

End FlatProjection.

Section ProjectionProperties.

Lemma select_flat T props :
  flat_spec props = true ->
  select (VArr T) (VObj props)
  = Ok (VArr (map (fun t =>
                     if ToBoolean (match assoc "*" props with
                                   | Some v => v
                                   | None => VUndefined
                                   end)
                     then omit t (fun _ attrName =>
                                    explicitly_false props attrName)
                     else pick t (map fst (remove_prop "*" props))) T),
        VObj (remove_prop "*" props)).
Proof.
  intros Hf. unfold select. cbn [select_fuel]. now apply select_step_flat.
Qed.

Lemma remove_absent k props :
  assoc k props = None -> remove_prop k props = props.
Proof.
  induction props as [|[k' v'] props IH]; [reflexivity|].
  cbn [assoc remove_prop]. destruct (String.eqb k k'); [discriminate|].
  intros H. now rewrite IH.
Qed.

(** X24. Without a '*' key, a spec without nested specs projects each
    tuple on the attributes the spec names, whatever the values it gives
    them: an entry set to false selects its attribute as an entry set to
    true does. Each projected tuple holds the named attributes the tuple
    has; the spec is left as it was. *)
Theorem select_picks_the_named_attributes (T : list value)
    (props : list (string * value))
    (Hflat : flat_spec props = true)
    (Hstar : assoc "*" props = None) :
  select (VArr T) (VObj props)
  = Ok (VArr (map (fun t => pick t (map fst props)) T), VObj props).
Proof.
  rewrite (select_flat T props Hflat), Hstar.
  now rewrite (remove_absent "*" props Hstar).
Qed.

(** X25. With a truthy '*' entry, a spec without nested specs keeps
    every attribute of each tuple except those the spec sets to exactly
    false; entries set to anything else, and attributes the spec does not
    name, are kept. The spec is left without its '*' key. *)
Theorem select_with_splat_omits_the_false_entries (T : list value)
    (props : list (string * value)) (star : value)
    (Hflat : flat_spec props = true)
    (Hstar : assoc "*" props = Some star)
    (Htruthy : ToBoolean star = true) :
  select (VArr T) (VObj props)
  = Ok (VArr (map (fun t => omit t (fun _ attrName =>
                                      explicitly_false props attrName)) T),
        VObj (remove_prop "*" props)).
Proof. now rewrite (select_flat T props Hflat), Hstar, Htruthy. Qed.

End ProjectionProperties.

Lemma select_picks_the_named_attributes_witness :
  select (VArr [tuple_ab]) (VObj [("b", VBool false)])
  = Ok (VArr [obj1 "b" (num 2)], VObj [("b", VBool false)]).
Proof.
  apply (select_picks_the_named_attributes [tuple_ab] [("b", VBool false)]);
    reflexivity.
Defined.

Lemma select_with_splat_omits_the_false_entries_witness :
  select (VArr [tuple_ab]) all_but_b
  = Ok (VArr [obj1 "a" (num 1)], obj1 "b" (VBool false)).
Proof.
  apply (select_with_splat_omits_the_false_entries [tuple_ab]
           [("*", VBool true); ("b", VBool false)] (VBool true));
    reflexivity.
Defined.

Section ProjectionComposition.

Lemma select_step_names rec T names :
  select_step rec (VArr T) (VArr names)
  = bind (select_step rec (VArr T) (arrayToDict names))
         (fun '(r, _) => Ok (r, VArr names)).
Proof.
  unfold select_step, arrayToDict.
  cbn [strict_eq_text typeof get bind].
  change (String.eqb "object" "object") with true. cbv iota. cbn [negb].
  destruct (each _ _ _) as [[out f]|e]; reflexivity.
Qed.

Lemma all_true_flat props :
  Forall (fun p : string * value => snd p = VBool true) props ->
  flat_spec props = true
  /\ forall k, explicitly_false props k = false.
Proof.
  intros H. split.
  - unfold flat_spec. apply forallb_forall. intros p Hp.
    rewrite Forall_forall in H. now rewrite (H p Hp).
  - intros k. unfold explicitly_false.
    destruct (assoc k props) as [v|] eqn:E; [|reflexivity].
    apply assoc_In in E. rewrite Forall_forall in H.
    specialize (H _ E). cbn in H. now subst v.
Qed.

Lemma assoc_key k props :
  In k (map fst props) -> exists v, assoc k props = Some v.
Proof.
  induction props as [|[k' v'] props IH]; [contradiction|].
  cbn [map fst In assoc]. destruct (String.eqb_spec k k') as [->|Hk].
  - now exists v'.
  - intros [E|Hin]; [congruence|auto].
Qed.

Lemma assoc_no_key k props :
  ~ In k (map fst props) -> assoc k props = None.
Proof.
  induction props as [|[k' v'] props IH]; [reflexivity|].
  cbn [map fst In assoc]. intros H.
  destruct (String.eqb_spec k k') as [->|Hk]; [tauto|]. apply IH. tauto.
Qed.

(** X26. A spec given as an array of attribute names projects each
    tuple on those names: each projected tuple holds the named attributes
    the tuple has. When '*' is one of the names, every attribute of every
    tuple is kept instead. In both cases the array is left as it was. *)
Theorem select_by_names (T names : list value) :
  let keys := Object_keys (arrayToDict names) in
  (~ In "*" keys ->
   select (VArr T) (VArr names)
   = Ok (VArr (map (fun t => pick t keys) T), VArr names))
  /\ (In "*" keys ->
      select (VArr T) (VArr names)
      = Ok (VArr (map (fun t => omit t (fun _ _ => false)) T), VArr names)).
Proof.
  intros keys. unfold keys. clear keys.
  destruct (arrayToDict_values names) as (props & Hd & Htrue).
  destruct (all_true_flat props Htrue) as [Hflat Hfalse].
  rewrite Hd. unfold Object_keys, own_entries.
  assert (Hsel : select (VArr T) (VArr names)
                 = bind (select_step (select_fuel 0) (VArr T) (VObj props))
                        (fun '(r, _) => Ok (r, VArr names))).
  { unfold select. cbn [spec_depth select_fuel].
    now rewrite select_step_names, Hd. }
  rewrite Hsel, (select_step_flat _ T props Hflat). cbn [bind].
  split; intros Hstar.
  - rewrite (assoc_no_key "*" props Hstar). cbn [ToBoolean].
    now rewrite (remove_absent "*" props (assoc_no_key "*" props Hstar)).
  - destruct (assoc_key "*" props Hstar) as [v Hv]. rewrite Hv.
    assert (v = VBool true) as ->.
    { apply assoc_In in Hv. rewrite Forall_forall in Htrue.
      exact (Htrue _ Hv). }
    cbn [ToBoolean]. do 3 f_equal. apply map_ext. intros t.
    unfold omit. f_equal. apply filter_ext. intros [k v].
    now rewrite Hfalse.
Qed.

Lemma assoc_picked (h : string -> option value) ks k :
  assoc k (flat_map (fun k' => match h k' with
                               | Some v => [(k', v)]
                               | None => []
                               end) ks)
  = if existsb (String.eqb k) ks then h k else None.
Proof.
  induction ks as [|a ks IH]; [reflexivity|]. cbn [flat_map existsb].
  destruct (h a) as [v|] eqn:Ha; cbn [app assoc].
  - destruct (String.eqb_spec k a) as [->|Hk]; [now rewrite Ha|exact IH].
  - rewrite IH. destruct (String.eqb_spec k a) as [->|Hk]; [|reflexivity].
    rewrite Ha. now destruct (existsb _ ks).
Qed.

Lemma pick_again t ks : pick (pick t ks) ks = pick t ks.
Proof.
  unfold pick at 1 3.
  set (h := fun k => match hasOwnProperty t k, get t k with
                     | Ok true, Ok v => Some v
                     | _, _ => None
                     end).
  assert (Hp : pick t ks
               = VObj (flat_map (fun k' => match h k' with
                                           | Some v => [(k', v)]
                                           | None => []
                                           end) ks)).
  { unfold pick. f_equal. apply flat_map_ext. intros k. unfold h.
    now destruct (hasOwnProperty t k) as [[|]|], (get t k). }
  rewrite Hp. f_equal.
  assert (H : forall l, incl l ks ->
            flat_map (fun k =>
                        match hasOwnProperty
                                (VObj (flat_map (fun k' => match h k' with
                                                           | Some v => [(k', v)]
                                                           | None => []
                                                           end) ks)) k,
                              get (VObj (flat_map (fun k' => match h k' with
                                                             | Some v => [(k', v)]
                                                             | None => []
                                                             end) ks)) k
                        with
                        | Ok true, Ok v => [(k, v)]
                        | _, _ => []
                        end) l
            = flat_map (fun k => match hasOwnProperty t k, get t k with
                                 | Ok true, Ok v => [(k, v)]
                                 | _, _ => []
                                 end) l).
  { induction l as [|k l IH]; intros Hl; [reflexivity|].
    cbn [flat_map]. rewrite IH by (intros x Hx; apply Hl; now right).
    f_equal. cbn [hasOwnProperty get]. rewrite assoc_picked.
    assert (Hk : existsb (String.eqb k) ks = true).
    { apply existsb_exists. exists k. split; [|apply String.eqb_refl].
      apply Hl. now left. }
    rewrite Hk. unfold h.
    now destruct (hasOwnProperty t k) as [[|]|], (get t k). }
  rewrite H by apply incl_refl.
  apply flat_map_ext. intros k. unfold h.
  now destruct (hasOwnProperty t k) as [[|]|], (get t k).
Qed.

Lemma remove_again k props :
  remove_prop k (remove_prop k props) = remove_prop k props.
Proof.
  apply remove_absent, assoc_no_key, remove_prop_keys.
Qed.

(** X27. Projection is idempotent on the spec as the first call
    leaves it, for specs without nested specs and without a truthy '*'
    entry: projecting the tuples the projection stage returned, on the
    spec in the state that call left it in, returns them unchanged and
    leaves the spec in that state. With a truthy '*' entry it is not: the
    first call deletes the '*' key, so the second call projects on the
    names that are left; after "all but b", it returns tuples without
    any attribute. *)
Theorem select_is_idempotent (T : list value) (props : list (string * value))
    (r f : value)
    (Hflat : flat_spec props = true)
    (Hstar : ToBoolean (match assoc "*" props with
                        | Some v => v
                        | None => VUndefined
                        end) = false)
    (Hsel : select (VArr T) (VObj props) = Ok (r, f)) :
  select r f = Ok (r, f)
  /\ select (VArr [tuple_ab]) all_but_b
     = Ok (VArr [obj1 "a" (num 1)], obj1 "b" (VBool false))
  /\ select (VArr [obj1 "a" (num 1)]) (obj1 "b" (VBool false))
     = Ok (VArr [VObj []], obj1 "b" (VBool false)).
Proof.
  split; [|split; reflexivity].
  rewrite (select_flat T props Hflat), Hstar in Hsel.
  injection Hsel as <- <-.
  assert (Hleft : assoc "*" (remove_prop "*" props) = None)
    by apply assoc_no_key, remove_prop_keys.
  rewrite (select_flat _ _ (flat_remove "*" props Hflat)), Hleft.
  cbn [ToBoolean]. rewrite remove_again. do 3 f_equal.
  rewrite map_map. apply map_ext. intros t. apply pick_again.
Qed.

End ProjectionComposition.

Lemma select_is_idempotent_witness :
  select (VArr [obj1 "b" (num 2)]) (VObj [("b", VBool false)])
  = Ok (VArr [obj1 "b" (num 2)], VObj [("b", VBool false)]).
Proof.
  apply (proj1 (select_is_idempotent [tuple_ab] [("b", VBool false)]
                  (VArr [obj1 "b" (num 2)]) (VObj [("b", VBool false)])
                  eq_refl eq_refl eq_refl)).
Defined.

(* ===================================================================== *)
(** * Properties of the type guess of the sort stage                      *)
(* ===================================================================== *)

Section GuessProperties.

Variable X_ISO_DATE : string -> bool.

(** X28. The type guess of the sort stage never answers "numberish":
    its test compares a text with the number it converts to, which are
    never strictly equal. The coercion built on it therefore never turns
    a text into a number; a text becomes a boolean, a date, or stays as
    it is. *)
Theorem guessType_never_guesses_a_number (x : value) :
  guessType X_ISO_DATE x <> "numberish"
  /\ (forall s, isNumber (coerceIntoBestGuessType X_ISO_DATE (VStr s))
                = false).
Proof.
  split.
  - destruct x; try discriminate. unfold guessType.
    destruct (String.eqb s "true" || String.eqb s "false"); [discriminate|].
    cbn [strict_eq_number]. destruct (X_ISO_DATE s); discriminate.
  - intros s. unfold coerceIntoBestGuessType, guessType.
    destruct (String.eqb s "true" || String.eqb s "false"); [reflexivity|].
    cbn [strict_eq_number]. destruct (X_ISO_DATE s); reflexivity.
Qed.

End GuessProperties.

(* ===================================================================== *)
(** * Properties of the clause validators                                 *)
(* ===================================================================== *)

Section NoError.

(** The collection helpers raise an error only if their iteratee
    does. *)

Context {A S : Type}.
Variable e : error.

Lemma each_no_error (f : S -> A -> result S) (l : list A) :
  (forall s x, In x l -> f s x <> Err e) ->
  forall s, each f l s <> Err e.
Proof.
  induction l as [|x l IH]; intros Hf s; [discriminate|].
  cbn [each]. destruct (f s x) as [s'|e'] eqn:Hx; cbn [bind].
  - apply IH. intros s0 y Hy. apply Hf. now right.
  - rewrite <- Hx. apply Hf. now left.
Qed.

Lemma every_no_error (f : A -> result bool) (l : list A) :
  Forall (fun x => f x <> Err e) l -> every f l <> Err e.
Proof.
  induction 1 as [|x l Hx _ IH]; [discriminate|].
  cbn [every]. destruct (f x) as [[|]|e']; cbn [bind];
    [exact IH|discriminate|exact Hx].
Qed.

Lemma some_no_error (f : A -> result bool) (l : list A) :
  Forall (fun x => f x <> Err e) l -> some f l <> Err e.
Proof.
  induction 1 as [|x l Hx _ IH]; [discriminate|].
  cbn [some]. destruct (f x) as [[|]|e']; cbn [bind];
    [discriminate|exact IH|exact Hx].
Qed.

End NoError.

Section FirstThrownProperties.

Context {A : Type}.
Variable check : A -> option thrown.

Lemma first_thrown_none (l : list A) :
  first_thrown check l = None -> Forall (fun x => check x = None) l.
Proof.
  induction l as [|x l IH]; [constructor|]. cbn [first_thrown].
  destruct (check x) eqn:Hx; [discriminate|]. auto.
Qed.

End FirstThrownProperties.

Ltac split_raise H :=
  repeat match type of H with
         | bind ?m _ = Err _ =>
             let E := fresh "E" in destruct m eqn:E; cbn [bind] in H
         | (if ?c then _ else _) = Err _ => destruct c
         | (let '(_, _) := ?p in _) = Err _ => destruct p
         | (let '(_, _) := (if ?c then _ else _) in _) = Err _ => destruct c
         end.

Section SyntaxErrors.

(** Where the invalid-query error can come from: not from the literal
    match, the comparator or the pattern matcher. *)

Variable X_ISO_DATE : string -> bool.

Local Abbreviation matchSet := (Where.matchSet X_ISO_DATE).
Local Abbreviation compare := (Where.compare X_ISO_DATE).

Lemma compare_syntax op a b : compare op a b <> Err InvalidQuerySyntax.
Proof.
  intros H. destruct (compare_error X_ISO_DATE op a b _ H); discriminate.
Qed.

Lemma get_syntax o k : get o k <> Err InvalidQuerySyntax.
Proof. intros H. apply get_error in H. discriminate. Qed.

Lemma sqlLikeMatch_syntax v m : sqlLikeMatch v m <> Err InvalidQuerySyntax.
Proof.
  unfold sqlLikeMatch.
  destruct m; cbn [bind]; try discriminate;
    destruct v; try discriminate;
    unfold String_match;
    repeat match goal with
           | |- context [read_regex ?s] => destruct (read_regex s)
           | |- context [read_flags ?s] => destruct (read_flags s)
           end;
    discriminate.
Qed.

Lemma matchLiteral_syntax model key criterion matchFn schema :
  (forall v c, matchFn v c <> Err InvalidQuerySyntax) ->
  Where.matchLiteral model key criterion matchFn schema
  <> Err InvalidQuerySyntax.
Proof.
  intros Hfn H. unfold Where.matchLiteral in H.
  destruct (get model key) as [v|e0] eqn:Eg; cbn [bind] in H;
    [|injection H as ->; now apply get_syntax in Eg].
  match type of H with
  | bind ?m _ = _ => destruct m as [hint|e0] eqn:Eh; cbn [bind] in H
  end.
  2:{ injection H as ->. split_raise Eh; try discriminate.
      - now apply get_syntax in Eh.
      - injection Eh as ->. now apply get_syntax in E. }
  match type of H with
  | bind ?m _ = _ => destruct m as [[val c]|e0] eqn:Ec; cbn [bind] in H
  end.
  2:{ injection H as ->. split_raise Ec; try discriminate;
      injection Ec as ->;
      match goal with
      | E : toISOString _ = Err _ |- _ =>
          apply toISOString_error in E; discriminate
      | E : getTime (new_Date ?x) = Err _ |- _ =>
          destruct (getTime_new_Date x); congruence
      end. }
  split_raise H; try discriminate;
    injection H as ->;
    first [ eapply Hfn; eassumption
          | match goal with
            | E : hasOwnProperty _ _ = Err _ |- _ =>
                apply hasOwnProperty_error in E; discriminate
            end ].
Qed.

End SyntaxErrors.

Section ValidatedClauses.

Variable X_ISO_DATE : string -> bool.

(** The helper the validator is written over, of which it is assumed
    that it accepts neither arrays nor dictionaries. *)
Variable isEqFilter : value -> bool.
Hypothesis eq_filters_are_leaves :
  forall v, isEqFilter v = true -> is_leaf v = true.

Local Abbreviation matchSet := (Where.matchSet X_ISO_DATE).
Local Abbreviation matchItem := (Where.matchItem X_ISO_DATE).
Local Abbreviation compare := (Where.compare X_ISO_DATE).

Lemma matchSet_text_syntax s : matchSet_text s None <> Err InvalidQuerySyntax.
Proof. destruct s; discriminate. Qed.

Lemma unscoped_leaf model c schema :
  (forall props, c <> VObj props) ->
  matchSet model c None schema <> Err InvalidQuerySyntax.
Proof.
  intros Hc. destruct c as [| |b|n|s|t|src fl|l|props];
    try discriminate.
  - now destruct b.
  - cbn [Where.matchSet]. now destruct (negb (ToBoolean (VNum n))).
  - cbn [Where.matchSet]. destruct (negb (ToBoolean (VStr s)));
      [discriminate|apply matchSet_text_syntax].
  - now destruct l.
  - now elim (Hc props).
Qed.

Lemma shallow_no_dictionary c :
  shallow c = true -> forall props, c <> VObj props.
Proof. intros H props ->. discriminate. Qed.

Lemma leaf_no_dictionary c :
  is_leaf c = true -> forall props, c <> VObj props.
Proof. intros H props ->. discriminate. Qed.

Lemma push_syntax {A B : Type} (m : result A) (k : A -> result B) :
  m <> Err InvalidQuerySyntax ->
  (forall b, k b <> Err InvalidQuerySyntax) ->
  bind m k <> Err InvalidQuerySyntax.
Proof.
  intros Hm Hk. destruct m as [b|e]; cbn [bind]; [apply Hk|].
  intros [= ->]. now apply Hm.
Qed.

Lemma at_name_syntax (f : value -> result bool) name props :
  Forall (fun p => f (snd p) <> Err InvalidQuerySyntax) props ->
  at_name f (Ok true) name props <> Err InvalidQuerySyntax.
Proof.
  induction 1 as [|[k v] props Hv _ IH]; [discriminate|].
  cbn [at_name]. now destruct (String.eqb name k).
Qed.

(** The combinators raise the error only if a sub-criteria does. *)
Lemma combinators_syntax model rhs schema :
  match rhs with
  | VArr elems =>
      Forall (fun c => forall m s,
                matchSet m c None s <> Err InvalidQuerySyntax) elems
  | VObj props =>
      array_like_length rhs = Some 0%nat
      \/ Forall (fun p => forall m s,
                   matchSet m (snd p) None s <> Err InvalidQuerySyntax) props
  | _ => True
  end ->
  Where.matchOrF matchSet model rhs schema <> Err InvalidQuerySyntax
  /\ Where.matchAndF matchSet model rhs schema <> Err InvalidQuerySyntax.
Proof.
  intros H. unfold matchOrF, matchAndF.
  destruct rhs as [| |b|n|s|t|src fl|elems|props];
    try (split; discriminate).
  - split; [apply push_syntax; [|discriminate]|];
      apply each_no_error; intros o c _;
      (apply push_syntax; [apply matchSet_text_syntax|discriminate]).
  - rewrite Forall_forall in H.
    split; [apply push_syntax; [|discriminate]|];
      apply each_no_error; intros o c Hc;
      (apply push_syntax; [now apply H|discriminate]).
  - destruct H as [H|H].
    + rewrite H. split; discriminate.
    + destruct (array_like_length (VObj props)) as [n|].
      * split; [apply push_syntax; [|discriminate]|];
          apply each_no_error; intros o i _;
          (apply push_syntax; [|discriminate]);
          apply (at_name_syntax (fun c => matchSet model c None schema));
          apply (Forall_impl _ (P := fun p => forall m s,
                   matchSet m (snd p) None s <> Err InvalidQuerySyntax));
          auto.
      * rewrite Forall_forall in H.
        split; [apply push_syntax; [|discriminate]|];
          apply each_no_error; intros o [k c] Hc;
          (apply push_syntax; [|discriminate]);
          apply (H (k, c) Hc).
Qed.

Lemma in_filter_syntax model key vals :
  some (fun val => bind (get model key) (fun v => compare "=" v val)) vals
  <> Err InvalidQuerySyntax.
Proof.
  apply some_no_error, Forall_forall. intros val _.
  destruct (get model key) as [v|e] eqn:E; cbn [bind].
  - apply compare_syntax.
  - intros [= ->]. now apply get_syntax in E.
Qed.

Lemma matchLike_syntax model criteria schema :
  matchLike model criteria schema <> Err InvalidQuerySyntax.
Proof.
  unfold matchLike. apply every_no_error, Forall_forall.
  intros [key pattern] _.
  destruct (get model key) as [v|e] eqn:E; cbn [bind].
  - apply sqlLikeMatch_syntax.
  - intros [= ->]. now apply get_syntax in E.
Qed.

Lemma literal_syntax model key criterion op schema :
  Where.matchLiteral model key criterion (compare op) schema
  <> Err InvalidQuerySyntax.
Proof. apply matchLiteral_syntax. intros v c. apply compare_syntax. Qed.

(** Outside the attribute-scoped mode, an entry whose right-hand side is
    shallow never raises the error, whatever its key. *)
Lemma unscoped_shallow model key crit pk schema :
  shallow crit = true -> pk = None \/ pk = Some "" ->
  Where.matchItemF X_ISO_DATE matchSet model key crit pk schema
  <> Err InvalidQuerySyntax.
Proof.
  intros Hs Hpk.
  assert (Hleaf : forall m s, matchSet m crit None s
                              <> Err InvalidQuerySyntax).
  { intros m s. apply unscoped_leaf. now apply shallow_no_dictionary. }
  assert (Hcomb := combinators_syntax model crit schema).
  assert (Hchildren :
            match crit with
            | VArr elems =>
                Forall (fun c => forall m s,
                          matchSet m c None s <> Err InvalidQuerySyntax) elems
            | VObj props =>
                array_like_length crit = Some 0%nat
                \/ Forall (fun p => forall m s,
                             matchSet m (snd p) None s
                             <> Err InvalidQuerySyntax) props
            | _ => True
            end).
  { destruct crit; try exact I; [|discriminate].
    cbn [shallow] in Hs. rewrite forallb_forall in Hs.
    apply Forall_forall. intros c Hc m s. apply unscoped_leaf.
    apply leaf_no_dictionary. now apply Hs. }
  destruct (Hcomb Hchildren) as [Hor Hand].
  unfold matchItemF.
  assert (Hun :
    (if String.eqb (toLowerCase key) "or"
     then Where.matchOrF matchSet model crit schema
     else if String.eqb (toLowerCase key) "not"
     then Where.matchNotF matchSet model crit schema
     else if String.eqb (toLowerCase key) "and"
     then Where.matchAndF matchSet model crit schema
     else if String.eqb (toLowerCase key) "like"
     then matchLike model crit schema
     else match crit with
          | VArr vals =>
              some (fun val => bind (get model key)
                                 (fun v => compare "=" v val)) vals
          | _ =>
              if isObject crit && validSubAttrCriteria crit
              then matchSet model crit (Some key) schema
              else Where.matchLiteral model key crit (compare "=") schema
          end) <> Err InvalidQuerySyntax).
  { destruct (String.eqb (toLowerCase key) "or"); [exact Hor|].
    destruct (String.eqb (toLowerCase key) "not").
    { unfold matchNotF. apply push_syntax; [apply Hleaf|discriminate]. }
    destruct (String.eqb (toLowerCase key) "and"); [exact Hand|].
    destruct (String.eqb (toLowerCase key) "like");
      [apply matchLike_syntax|].
    destruct crit; try apply literal_syntax;
      [apply in_filter_syntax|discriminate]. }
  destruct Hpk as [-> | ->]; exact Hun.
Qed.

Lemma not_in_syntax model pk vals :
  bind (each (fun (m : bool) val =>
                bind (get model pk) (fun v =>
                bind (compare "=" v val) (fun c =>
                Ok (if c then true else m)))) vals false)
       (fun m => Ok (if m then false else true))
  <> Err InvalidQuerySyntax.
Proof.
  apply push_syntax; [|discriminate]. apply each_no_error. intros m val _.
  apply push_syntax; [apply get_syntax|]. intros v.
  apply push_syntax; [apply compare_syntax|discriminate].
Qed.

(** In attribute-scoped mode, a documented modifier never raises the
    error. *)
Lemma scoped_modifier model key crit pk schema :
  pk <> "" -> Where.member key SUB_ATTR_MODIFIERS = true ->
  matchItem model key crit (Some pk) schema <> Err InvalidQuerySyntax.
Proof.
  intros Hpk H. destruct pk as [|p0 pk]; [congruence|].
  unfold Where.member, SUB_ATTR_MODIFIERS in H. cbn [existsb] in H.
  repeat (apply Bool.orb_true_iff in H; destruct H as [H|H]);
    try discriminate;
    apply String.eqb_eq in H; subst key;
    unfold Where.matchItem, matchItemF;
    cbv beta iota zeta
        delta [Where.member existsb String.eqb Ascii.eqb Bool.eqb orb];
    first [ apply literal_syntax
          | apply matchLiteral_syntax; intros v c;
            apply sqlLikeMatch_syntax
          | destruct crit;
            first [apply literal_syntax | apply not_in_syntax] ].
Qed.

Lemma eq_filter_accepted flaw v :
  eq_filter_or isEqFilter flaw v = None -> is_leaf v = true.
Proof.
  unfold eq_filter_or. intros H. apply eq_filters_are_leaves.
  now destruct (isEqFilter v).
Qed.

Lemma eq_filters_accepted flaw l :
  first_thrown (eq_filter_or isEqFilter flaw) l = None ->
  forallb is_leaf l = true.
Proof.
  intros H. apply first_thrown_none in H. apply forallb_forall.
  rewrite Forall_forall in H. intros x Hx.
  exact (eq_filter_accepted flaw x (H x Hx)).
Qed.

(** What the validator accepts under a sub-attribute modifier. *)
Lemma check_modifier_accepts key crit :
  check_modifier isEqFilter (key, crit) = None ->
  (exists k, key = KStr k /\ Where.member k SUB_ATTR_MODIFIERS = true)
  /\ shallow crit = true.
Proof.
  unfold check_modifier.
  destruct (includes_key SUB_ATTR_MODIFIERS key) eqn:Hk; [|discriminate].
  intros H. split.
  { destruct key as [k|i]; [now exists k|discriminate]. }
  destruct crit as [| |b|n|s|t|src fl|l|props]; try reflexivity.
  - destruct (includes_key NIN_OPERATORS key); [|discriminate].
    cbn [shallow]. exact (eq_filters_accepted _ l H).
  - destruct (includes_key STRING_SEARCH_MODIFIERS key); [discriminate|].
    apply eq_filter_accepted in H. discriminate.
Qed.

Lemma modifier_entries ps :
  first_thrown (check_modifier isEqFilter) (entries (VObj ps)) = None ->
  array_like_length (VObj ps) = Some 0%nat
  \/ (array_like_length (VObj ps) = None
      /\ Forall (fun p => Where.member (fst p) SUB_ATTR_MODIFIERS = true
                          /\ shallow (snd p) = true) ps).
Proof.
  unfold entries.
  destruct (array_like_length (VObj ps)) as [[|n]|] eqn:E; intros H.
  - now left.
  - discriminate.
  - right. split; [reflexivity|]. apply first_thrown_none in H.
    rewrite Forall_map in H.
    apply (Forall_impl _ (P := fun p : string * value =>
             check_modifier isEqFilter (let '(k, v) := p in (KStr k, v))
             = None)); [|exact H].
    intros [k v] Hkv. cbn [fst snd].
    destruct (check_modifier_accepts _ _ Hkv) as [(k' & [= <-] & Hm) Hs].
    auto.
Qed.

(** A dictionary of modifiers the validator accepts never raises the
    error, in either mode. *)
Lemma modifier_dictionary_syntax model ps pk schema :
  first_thrown (check_modifier isEqFilter) (entries (VObj ps)) = None ->
  matchSet model (VObj ps) pk schema <> Err InvalidQuerySyntax.
Proof.
  intros H. destruct (modifier_entries ps H) as [E|[E HF]].
  - cbn [Where.matchSet ToBoolean negb]. rewrite E. discriminate.
  - rewrite (matchSet_dictionary X_ISO_DATE) by exact E.
    apply every_no_error.
    apply (Forall_impl _ (P := fun p : string * value =>
             Where.member (fst p) SUB_ATTR_MODIFIERS = true
             /\ shallow (snd p) = true)); [|exact HF].
    intros [key crit] [Hm Hs]. cbn [fst snd] in *.
    destruct pk as [[|p0 pk]|].
    + apply unscoped_shallow; auto.
    + now apply scoped_modifier.
    + apply unscoped_shallow; auto.
Qed.

Lemma unscoped_dictionary model key ps schema :
  first_thrown (check_modifier isEqFilter) (entries (VObj ps)) = None ->
  matchItem model key (VObj ps) None schema <> Err InvalidQuerySyntax.
Proof.
  intros H.
  assert (Hdict := fun pk => modifier_dictionary_syntax model ps pk schema H).
  assert (Hchildren :
            array_like_length (VObj ps) = Some 0%nat
            \/ Forall (fun p : string * value => forall m s,
                         matchSet m (snd p) None s
                         <> Err InvalidQuerySyntax) ps).
  { destruct (modifier_entries ps H) as [E|[_ HF]]; [now left|right].
    apply (Forall_impl _ (P := fun p : string * value =>
             Where.member (fst p) SUB_ATTR_MODIFIERS = true
             /\ shallow (snd p) = true)); [|exact HF].
    intros p [_ Hs] m s. apply unscoped_leaf.
    now apply shallow_no_dictionary. }
  destruct (combinators_syntax model (VObj ps) schema Hchildren)
    as [Hor Hand].
  unfold Where.matchItem, matchItemF.
  destruct (String.eqb (toLowerCase key) "or"); [exact Hor|].
  destruct (String.eqb (toLowerCase key) "not").
  { unfold matchNotF. apply push_syntax; [apply Hdict|discriminate]. }
  destruct (String.eqb (toLowerCase key) "and"); [exact Hand|].
  destruct (String.eqb (toLowerCase key) "like"); [apply matchLike_syntax|].
  destruct (isObject (VObj ps) && validSubAttrCriteria (VObj ps));
    [apply Hdict|apply literal_syntax].
Qed.

(** An entry of a clause that the validator accepts never raises the
    error, if the sub-clauses of a predicate never do. *)
Lemma entry_syntax model key rhs schema :
  (forall elems, rhs = VArr elems ->
     Forall (fun c => _recursiveStep isEqFilter c = None ->
                      forall m s, matchSet m c None s
                                  <> Err InvalidQuerySyntax) elems) ->
  check_entry isEqFilter (_recursiveStep isEqFilter) (KStr key) rhs = None ->
  matchItem model key rhs None schema <> Err InvalidQuerySyntax.
Proof.
  intros IH. unfold check_entry. cbn [includes_key].
  destruct (Where.member key PREDICATE_OPERATORS) eqn:Hp.
  - destruct rhs as [| |b|n|s|t|src fl|subs|props]; try discriminate.
    intros H. apply first_thrown_none in H.
    assert (Hsafe : Forall (fun c => forall m s,
                              matchSet m c None s <> Err InvalidQuerySyntax)
                           subs).
    { specialize (IH subs eq_refl). rewrite Forall_forall in *.
      intros c Hc. apply (IH c Hc). specialize (H c Hc). cbn beta in H.
      now destruct (negb (isObject c) || Array_isArray c || isFunction c). }
    destruct (combinators_syntax model (VArr subs) schema Hsafe)
      as [Hor Hand].
    unfold Where.member, PREDICATE_OPERATORS in Hp. cbn [existsb] in Hp.
    repeat (apply Bool.orb_true_iff in Hp; destruct Hp as [Hp|Hp]);
      try discriminate; apply String.eqb_eq in Hp; subst key;
      [exact Hor|exact Hand].
  - destruct rhs as [| |b|n|s|t|src fl|filters|props];
      try (intros _; now apply unscoped_shallow; auto);
      try discriminate.
    + intros H. apply unscoped_shallow; auto.
      cbn [shallow]. exact (eq_filters_accepted _ filters H).
    + cbn [isObject Array_isArray isFunction negb andb].
      destruct (List.length (Object_keys (VObj props)) =? 0)%nat;
        [discriminate|].
      apply unscoped_dictionary.
Qed.

Lemma validated_syntax c :
  (_recursiveStep isEqFilter c = None ->
   forall m s, matchSet m c None s <> Err InvalidQuerySyntax)
  /\ (forall elems, c = VArr elems ->
      Forall (fun c' => _recursiveStep isEqFilter c' = None ->
                        forall m s, matchSet m c' None s
                                    <> Err InvalidQuerySyntax) elems).
Proof.
  revert c. fix IH 1. intros c.
  destruct c as [| |b|n|s|t|src fl|elems|props];
    try (split; [intros _ m s0; apply unscoped_leaf; discriminate
                |discriminate]).
  - split; [intros _ m s0; apply unscoped_leaf; discriminate|].
    intros elems' [= <-].
    induction elems as [|x l IHl]; constructor;
      [exact (proj1 (IH x))|exact IHl].
  - split; [|discriminate]. intros H m s.
    destruct (array_like_length (VObj props)) as [[|n]|] eqn:E.
    + cbn [Where.matchSet ToBoolean negb]. rewrite E. discriminate.
    + cbn [Where.matchSet ToBoolean negb]. rewrite E. discriminate.
    + rewrite (matchSet_dictionary X_ISO_DATE) by exact E.
      apply every_no_error.
      cbn [_recursiveStep] in H. rewrite E in H.
      apply first_thrown_none in H. clear E.
      induction props as [|[k rhs] props IHp]; constructor.
      * apply entry_syntax; [exact (proj2 (IH rhs))|].
        now inversion H.
      * apply IHp. now inversion H.
Qed.

(** X29. A clause the validator accepts is valid syntax for the
    criteria evaluator: evaluating it on any tuple, with any schema,
    never raises the invalid-query error, and neither does the filter
    stage on any data. (The helper the validator relies on is taken to
    accept neither arrays nor dictionaries.) *)
Theorem validated_clause_is_valid_syntax (clause : value)
    (Hvalid : validateWhereClause isEqFilter clause = None) :
  (forall model schema,
      matchSet model clause None schema <> Err InvalidQuerySyntax)
  /\ (forall data schema,
        Where.where_ X_ISO_DATE data clause schema
        <> Err InvalidQuerySyntax).
Proof.
  assert (Hstep : _recursiveStep isEqFilter clause = None).
  { unfold validateWhereClause in Hvalid.
    destruct (isUndefined clause); [discriminate|].
    now destruct (negb (isObject clause) || Array_isArray clause
                  || isFunction clause). }
  assert (Hsafe := proj1 (validated_syntax clause) Hstep).
  split; [exact Hsafe|].
  intros data schema. unfold Where.where_.
  destruct (negb (ToBoolean data)); [discriminate|].
  apply push_syntax; [|discriminate].
  apply filter_no_error, Forall_forall. intros t _. apply Hsafe.
Qed.

End ValidatedClauses.

Lemma validated_clause_is_valid_syntax_witness :
  matchSet iso_date_pattern kermit
    (obj1 "or" (VArr [obj1 "name" (obj1 "startsWith" (VStr "k"));
                      obj1 "age" (VArr [num 30; num 40])]))
    None (VObj [])
  <> Err InvalidQuerySyntax.
Proof.
  apply (proj1 (validated_clause_is_valid_syntax iso_date_pattern
                  primitive_eq_filter
                  ltac:(intros [] H; try discriminate H; reflexivity)
                  (obj1 "or"
                     (VArr [obj1 "name" (obj1 "startsWith" (VStr "k"));
                            obj1 "age" (VArr [num 30; num 40])]))
                  eq_refl)).
Defined.

Section ValidatorAndEvaluator.

Variable X_ISO_DATE : string -> bool.
Variable isEqFilter : value -> bool.

(** X30. The validator and the evaluator disagree on the equality
    modifiers. Under an attribute name that is not a predicate operator,
    the validator rejects a dictionary whose only key is "equals", "=" or
    "equal" as an unrecognized modifier, whatever the helper it relies
    on; the evaluator does implement "equals": for a name that is not
    empty and not a combinator key, the criteria {k: {equals: v}} is the
    literal match of the attribute [k] against [v]. *)
Theorem validator_rejects_the_equals_modifier (k key : string) (v : value)
    (Hk : Where.member k PREDICATE_OPERATORS = false)
    (Hkey : key = "equals" \/ key = "=" \/ key = "equal") :
  validateWhereClause isEqFilter (obj1 k (obj1 key v))
  = Some (E_WHERE_CLAUSE_UNPARSEABLE UnrecognizedModifier)
  /\ (k <> "" ->
      Where.member (toLowerCase k) combinator_keys = false ->
      forall model schema,
        Where.matchSet X_ISO_DATE model (obj1 k (obj1 "equals" v)) None schema
        = Where.matchLiteral model k v (Where.compare X_ISO_DATE "=") schema).
Proof.
  split.
  - assert (E : array_like_length (obj1 k (obj1 key v)) = None)
      by now apply single_not_array_like.
    unfold validateWhereClause, obj1 in *.
    cbn [isUndefined isObject Array_isArray isFunction negb orb
         _recursiveStep].
    rewrite E. cbn [first_thrown]. unfold check_entry. cbn [includes_key].
    rewrite Hk. destruct Hkey as [-> | [-> | ->]]; reflexivity.
  - intros Hname Hattr model schema.
    rewrite (matchSet_single X_ISO_DATE) by now apply single_not_array_like.
    unfold obj1 at 1.
    rewrite (matchItem_enters_scoped_mode X_ISO_DATE);
      [|exact Hattr|reflexivity].
    fold (obj1 "equals" v).
    rewrite (matchSet_single X_ISO_DATE) by reflexivity.
    destruct k as [|k0 k]; [congruence|].
    unfold Where.matchItem, matchItemF.
    change (Where.member "equals" ["equals"; "="; "equal"]) with true.
    cbv iota.
    now destruct (Where.matchLiteral _ _ _ _ _).
Qed.

End ValidatorAndEvaluator.

Lemma validator_rejects_the_equals_modifier_witness :
  validateWhereClause primitive_eq_filter (obj1 "age" (obj1 "equals" (num 30)))
  = Some (E_WHERE_CLAUSE_UNPARSEABLE UnrecognizedModifier).
Proof.
  apply (proj1 (validator_rejects_the_equals_modifier iso_date_pattern
                  primitive_eq_filter "age" "equals" (num 30) eq_refl
                  (or_introl eq_refl))).
Defined.

(* ===================================================================== *)
(** * The attribute-scoped mode                                           *)
(* ===================================================================== *)

Section EveryProperties.

Context {A : Type}.
Variable f : A -> result bool.

Lemma every_stops (before after : list A) (x : A) :
  Forall (fun y => f y = Ok true) before ->
  f x = Ok false ->
  every f (before ++ x :: after) = Ok false.
Proof.
  intros Hb Hx. induction Hb as [|y before Hy _ IH]; cbn [app every].
  - now rewrite Hx.
  - now rewrite Hy.
Qed.

Lemma every_raises (l : list A) (e : error) :
  every f l = Err e ->
  exists before x after,
    l = (before ++ x :: after)%list
    /\ Forall (fun y => f y = Ok true) before
    /\ f x = Err e.
Proof.
  induction l as [|y l IH]; [discriminate|]. cbn [every].
  destruct (f y) as [[|]|e'] eqn:Hy; cbn [bind]; intros H.
  - destruct (IH H) as (before & x & after & -> & Hb & Hx).
    exists (y :: before), x, after. repeat split; auto.
  - discriminate.
  - injection H as ->. exists [], y, l. repeat split; auto.
Qed.

End EveryProperties.

Section ScopedMode.

Variable X_ISO_DATE : string -> bool.

Local Abbreviation matchSet := (Where.matchSet X_ISO_DATE).
Local Abbreviation matchItem := (Where.matchItem X_ISO_DATE).
Local Abbreviation compare := (Where.compare X_ISO_DATE).

(** In attribute-scoped mode, a key of the dispatch never raises the
    invalid-query error. *)
Lemma scoped_recognized model key crit pk schema :
  pk <> "" -> Where.member key modifier_keys = true ->
  matchItem model key crit (Some pk) schema <> Err InvalidQuerySyntax.
Proof.
  intros Hpk H. destruct pk as [|p0 pk]; [congruence|].
  unfold Where.member, modifier_keys in H. cbn [existsb] in H.
  repeat (apply Bool.orb_true_iff in H; destruct H as [H|H]);
    try discriminate;
    apply String.eqb_eq in H; subst key;
    unfold Where.matchItem, matchItemF;
    cbv beta iota zeta
        delta [Where.member existsb String.eqb Ascii.eqb Bool.eqb orb];
    first [ apply literal_syntax
          | apply matchLiteral_syntax; intros v c;
            apply sqlLikeMatch_syntax
          | destruct crit;
            first [apply literal_syntax | apply not_in_syntax] ].
Qed.

Lemma scoped_entries model attr props schema :
  Where.member (toLowerCase attr) combinator_keys = false ->
  validSubAttrCriteria (VObj props) = true ->
  array_like_length (VObj props) = None ->
  matchSet model (obj1 attr (VObj props)) None schema
  = every (fun e : string * value =>
             let '(k, c) := e in matchItem model k c (Some attr) schema)
          props.
Proof.
  intros Hattr Hgate Hdict.
  rewrite (matchSet_single X_ISO_DATE) by now apply single_not_array_like.
  rewrite (matchItem_enters_scoped_mode X_ISO_DATE) by assumption.
  rewrite (matchSet_dictionary X_ISO_DATE) by assumption.
  now destruct (every _ props).
Qed.

(** C7, as the code has it. The invalid-query error belongs to the
    dispatch of the attribute-scoped mode, that is of [matchItem] under a
    non-empty parent key: there it is raised on exactly the keys outside
    the dispatch, which are the keys outside the fixed list together with
    "=" and "equal" (the two are dispatched although the fixed list does
    not hold them). A mapping that holds a key of the fixed list, under
    an attribute name that is not empty and not a combinator key, is
    evaluated in that mode entry by entry, in order, up to the first
    entry that does not match (the mapping is visited so unless it has
    an array length). The evaluation raises the error exactly when a key
    outside the dispatch is reached, that is when every entry before it
    matched; when an entry before it evaluates to false the result is
    false and the key is not looked at. Under the empty attribute name
    such a mapping is not evaluated in that mode: its entries are
    evaluated as those of a top-level criteria. A mapping without any key
    of the fixed list is not evaluated in that mode either: it is matched
    as a literal, which never raises this error. *)
Theorem unknown_modifier_is_fatal :
  (forall model key criterion parentKey schema,
      parentKey <> "" ->
      (Where.member key modifier_keys = false
       <-> matchItem model key criterion (Some parentKey) schema
           = Err InvalidQuerySyntax))
  /\ (forall model attr props schema,
        attr <> "" ->
        Where.member (toLowerCase attr) combinator_keys = false ->
        validSubAttrCriteria (VObj props) = true ->
        array_like_length (VObj props) = None ->
        let scoped := fun e : string * value =>
                        let '(k, c) := e in
                        matchItem model k c (Some attr) schema in
        let result := matchSet model (obj1 attr (VObj props)) None schema in
        result = every scoped props
        /\ (result = Err InvalidQuerySyntax
            <-> exists before key criterion after,
                  props = (before ++ (key, criterion) :: after)%list
                  /\ Forall (fun e => scoped e = Ok true) before
                  /\ Where.member key modifier_keys = false)
        /\ (forall before entry after,
              props = (before ++ entry :: after)%list ->
              Forall (fun e => scoped e = Ok true) before ->
              scoped entry = Ok false ->
              result = Ok false))
  /\ (forall model props schema,
        validSubAttrCriteria (VObj props) = true ->
        array_like_length (VObj props) = None ->
        matchSet model (obj1 "" (VObj props)) None schema
        = matchSet model (VObj props) None schema)
  /\ (forall model attr props schema,
        Where.member (toLowerCase attr) combinator_keys = false ->
        validSubAttrCriteria (VObj props) = false ->
        matchItem model attr (VObj props) None schema
        = Where.matchLiteral model attr (VObj props) (compare "=") schema
        /\ matchSet model (obj1 attr (VObj props)) None schema
           <> Err InvalidQuerySyntax).
Proof.
  assert (Hdispatch : forall model key criterion parentKey schema,
            parentKey <> "" ->
            (Where.member key modifier_keys = false
             <-> matchItem model key criterion (Some parentKey) schema
                 = Err InvalidQuerySyntax)).
  { intros model key criterion parentKey schema Hpk. split.
    - now apply (matchItem_unknown_modifier X_ISO_DATE).
    - intros H. destruct (Where.member key modifier_keys) eqn:Hm;
        [|reflexivity].
      now elim (scoped_recognized model key criterion parentKey schema
                  Hpk Hm). }
  split; [exact Hdispatch|]. split; [|split].
  - intros model attr props schema Hname Hattr Hgate Hdict scoped result.
    assert (Hres : result = every scoped props)
      by now apply scoped_entries.
    split; [exact Hres|]. split; [split|].
    + rewrite Hres. intros H.
      destruct (every_raises scoped props _ H)
        as (before & [key criterion] & after & Hp & Hb & Hx).
      exists before, key, criterion, after.
      repeat split; auto.
      now apply (Hdispatch model key criterion attr schema Hname).
    + intros (before & key & criterion & after & -> & Hb & Hk).
      rewrite Hres.
      apply (every_reaches scoped before after (key, criterion)); auto.
      now apply (Hdispatch model key criterion attr schema Hname).
    + intros before entry after -> Hb Hx. rewrite Hres.
      now apply every_stops.
  - intros model props schema Hgate Hdict.
    rewrite (matchSet_single X_ISO_DATE) by now apply single_not_array_like.
    rewrite (matchItem_enters_scoped_mode X_ISO_DATE)
      by (try reflexivity; assumption).
    rewrite !(matchSet_dictionary X_ISO_DATE) by assumption.
    now destruct (every _ props).
  - intros model attr props schema Hc Hv.
    pose proof (matchItem_literal_when_unrecognized X_ISO_DATE model attr
                  props schema Hc Hv) as Hlit.
    split; [exact Hlit|].
    rewrite (matchSet_single X_ISO_DATE) by now apply single_not_array_like.
    rewrite Hlit. apply push_syntax; [apply literal_syntax|discriminate].
Qed.

End ScopedMode.

Lemma unknown_modifier_is_fatal_witness :
  matchSet iso_date_pattern kermit
    (obj1 "age" (VObj [(">=", num 30); ("atLeast", num 18)])) None (VObj [])
  = Err InvalidQuerySyntax.
Proof.
  apply (proj2 (proj1 (proj2 (proj1 (proj2 (unknown_modifier_is_fatal
                                               iso_date_pattern))
                                kermit "age"
                                [(">=", num 30); ("atLeast", num 18)]
                                (VObj [])
                                ltac:(discriminate) eq_refl eq_refl
                                eq_refl)))).
  exists [(">=", num 30)], "atLeast", (num 18), [].
  repeat split; repeat constructor.
Defined.

(** The claim as the spec words it does not hold: a mapping that holds a
    key of the fixed list and a key outside it can evaluate to a
    boolean. The unknown key is not reached when an entry before it does
    not match; under the empty attribute name the mapping is not
    evaluated in attribute-scoped mode; and "=" is dispatched although
    the fixed list does not hold it. *)
Lemma unknown_modifier_is_not_always_fatal :
  ~ (forall model attr props key schema,
        validSubAttrCriteria (VObj props) = true ->
        In key (map fst props) ->
        Where.member key validAttributes = false ->
        matchSet iso_date_pattern model (obj1 attr (VObj props)) None schema
        = Err InvalidQuerySyntax)
  /\ matchSet iso_date_pattern kermit
       (obj1 "age" (VObj [(">=", num 31); ("atLeast", num 18)])) None
       (VObj [])
     = Ok false
  /\ matchSet iso_date_pattern kermit
       (obj1 "" (VObj [(">", num 5); ("bogus", num 1)])) None (VObj [])
     = Ok false
  /\ matchSet iso_date_pattern kermit
       (obj1 "age" (VObj [(">", num 5); ("=", num 30)])) None (VObj [])
     = Ok true.
Proof.
  split; [|repeat split; reflexivity].
  intros H.
  specialize (H kermit "age" [(">=", num 31); ("atLeast", num 18)]
                "atLeast" (VObj []) eq_refl (or_intror (or_introl eq_refl))
                eq_refl).
  discriminate H.
Qed.
